(** * CBR Café – Cauca: retrieval and fusion engine (cbr_cafe.py)

    Shallow embedding of the case-based reasoning engine and the proofs of
    the properties stated about it.

    Modelling conventions
    - Python floats are modelled by exact rationals ([Q]); comparisons are
      the boolean comparisons of [Q].  NaN and infinities are outside the
      model.
    - Python [str] values are modelled by [string]; texts are taken as
      ASCII (a non-ASCII character is a run of bytes that is neither a
      digit, a space nor a letter).
    - A YAML case is a record with explicit optional fields; a key that is
      missing or null is [None].
    - The on-disk stores are a finite map from paths to file contents. *)

From Stdlib Require Import ZArith QArith Qabs Qround Lia Lqa String Ascii List.
From Stdlib Require Import DecimalString DecimalNat PrimFloat.
From stdpp Require Import gmap strings list sorting.

Open Scope string_scope.

(** ** Python string helpers *)

(** [str.isspace] on the ASCII range: TAB..CR, FS..US and the blank. *)
Definition py_isspace (c : ascii) : bool :=
  let n := nat_of_ascii c in
  ((9 <=? n)%nat && (n <=? 13)%nat) || ((28 <=? n)%nat && (n <=? 32)%nat).

Definition py_isdigit (c : ascii) : bool :=
  let n := nat_of_ascii c in (48 <=? n)%nat && (n <=? 57)%nat.

Definition lower_ascii (c : ascii) : ascii :=
  let n := nat_of_ascii c in
  if (65 <=? n)%nat && (n <=? 90)%nat then ascii_of_nat (n + 32) else c.

Fixpoint lower (s : string) : string :=
  match s with
  | EmptyString => EmptyString
  | String c s' => String (lower_ascii c) (lower s')
  end.

Fixpoint lstrip (s : string) : string :=
  match s with
  | EmptyString => EmptyString
  | String c s' => if py_isspace c then lstrip s' else s
  end.

Definition rstrip (s : string) : string := String.rev (lstrip (String.rev s)).

Definition strip (s : string) : string := rstrip (lstrip s).

(** [x or ""] for an optional string. *)
Definition or_vacio (o : option string) : string := default "" o.

(** Truth value of an optional string: [None] and [""] are falsy. *)
Definition truthy (o : option string) : bool :=
  match o with
  | Some s => negb (String.eqb s "")
  | None => false
  end.

(** [l.index(x)], [None] when [x] is not in [l]. *)
Fixpoint py_index (x : string) (l : list string) : option nat :=
  match l with
  | [] => None
  | y :: l' => if String.eqb x y then Some 0%nat else S <$> py_index x l'
  end.

(** ** Numeric helpers *)

Definition Qltb (x y : Q) : bool := negb (Qle_bool y x).

(** [max(0.0, min(1.0, x))] with Python's [min]/[max]: the first argument
    is kept unless a later one is strictly smaller (resp. greater). *)
Definition py_min (a b : Q) : Q := if Qltb b a then b else a.
Definition py_max (a b : Q) : Q := if Qltb a b then b else a.
Definition clip01 (x : Q) : Q := py_max 0 (py_min 1 x).

(** ** Phases and domain rules *)

Definition MESES : list string :=
  ["enero"; "febrero"; "marzo"; "abril"; "mayo"; "junio";
   "julio"; "agosto"; "septiembre"; "octubre"; "noviembre"; "diciembre"].

Definition vivero_establecimiento : string := "vivero_establecimiento".
Definition floracion_llenado : string := "floracion_llenado".
Definition cosecha_poscosecha : string := "cosecha_poscosecha".

Definition FASES : list string :=
  [vivero_establecimiento; floracion_llenado; cosecha_poscosecha].

Definition almacigos : string := "almacigos".
Definition fertilizacion_sin_analisis : string := "fertilizacion_sin_analisis".
Definition broca : string := "broca".

Record regla := {
  aplica_en : gset string;
  razon_no_aplica : string
}.

Definition APLICA_DOMINIO : gmap string regla :=
  <[ almacigos := {|
       aplica_en := {[ vivero_establecimiento ]};
       razon_no_aplica :=
         "Almácigos aplica solo en vivero/establecimiento (antes del trasplante)." |} ]>
  (<[ fertilizacion_sin_analisis := {|
       aplica_en := {[ vivero_establecimiento; floracion_llenado ]};
       razon_no_aplica :=
         "Fertilización sin análisis no aplica en cosecha/poscosecha." |} ]>
  (<[ broca := {|
       aplica_en := {[ cosecha_poscosecha ]};
       razon_no_aplica :=
         "Broca aplica cuando hay frutos (cosecha/poscosecha)." |} ]> ∅)).

Definition razon_por_defecto : string := "Dominio no aplicable a la fase actual.".

(** Index of a month name after [strip().lower()]; unknown names give 0. *)
Definition mes_idx (mes : option string) : nat :=
  default 0%nat (py_index (lower (strip (or_vacio mes))) MESES).

Definition inferir_fase (altitud : option Q) (mes : option string)
    (mds : option Q) : string :=
  match mds with
  | Some m =>
      if Qle_bool m 0.5 then vivero_establecimiento
      else if Qle_bool m 24 then floracion_llenado
      else cosecha_poscosecha
  | None =>
      let idx := mes_idx mes in
      let alt := default 1650%Q altitud in
      if Qle_bool 1500 alt then
        if bool_decide (idx ∈ [0; 1; 2; 3]%nat) then vivero_establecimiento
        else if bool_decide (idx ∈ [4; 5; 6; 7]%nat) then floracion_llenado
        else cosecha_poscosecha
      else
        if bool_decide (idx ∈ [11; 0; 1; 2]%nat) then vivero_establecimiento
        else if bool_decide (idx ∈ [3; 4; 5; 6]%nat) then floracion_llenado
        else cosecha_poscosecha
  end.

(** [mds is not None and 1 <= mds <= 24] *)
Definition mds_valido (mds : option Q) : bool :=
  match mds with
  | Some m => Qle_bool 1 m && Qle_bool m 24
  | None => false
  end.

Definition dominio_aplica (dominio fase : string) (mds : option Q)
    : bool * option string :=
  let regla := APLICA_DOMINIO !! dominio in
  let aplica_en := from_option aplica_en ∅ regla in
  let razon := from_option razon_no_aplica razon_por_defecto regla in
  if String.eqb dominio fertilizacion_sin_analisis && mds_valido mds
  then (true, None)
  else (bool_decide (fase ∈ aplica_en),
        if bool_decide (fase ∈ aplica_en) then None else Some razon).

(** The phase used by [run_cbr]: [fase_in or inferir_fase(...)]. *)
Definition fase_actual_de (fase_in : option string) (altitud : option Q)
    (mes : option string) (mds : option Q) : string :=
  if truthy fase_in then or_vacio fase_in
  else inferir_fase altitud mes mds.

(** The phase table of the specification: each altitude band maps four
    contiguous months to a phase, the low band shifted by one month. *)
Definition fase_por_tabla (banda_alta : bool) (idx : nat) : string :=
  let desfase := if banda_alta then 0%nat else 1%nat in
  nth (((idx + desfase) mod 12) / 4) FASES cosecha_poscosecha.

(** ** Exceptions *)

Inductive excepcion :=
  | KeyError (clave : string)
  | ErrorLectura (ruta : string)
  | ErrorEscritura (ruta : string)
  | UnboundLocalError (variable : string).

Inductive resultado (A : Type) :=
  | Ok (a : A)
  | Raise (e : excepcion).
Arguments Ok {A} a.
Arguments Raise {A} e.

#[global] Instance resultado_ret : MRet resultado := fun A a => Ok a.
#[global] Instance resultado_bind : MBind resultado := fun A B f m =>
  match m with
  | Ok a => f a
  | Raise e => Raise e
  end.

(** The value of a computation that did not raise. *)
Definition valor {A} (d : A) (r : resultado A) : A :=
  match r with
  | Ok a => a
  | Raise _ => d
  end.

(** ** Features, weights and ranges *)

Inductive rasgo :=
  | temp_media | humedad | prec_total_mm | dias_lluvia | brillo_solar
  | altitud_msnm | sombra_pct | mes_sin | mes_cos
  | meses_despues_siembra | edad_vivero_meses.

Inductive clave :=
  | Num (r : rasgo)
  | luna_fase.
Coercion Num : rasgo >-> clave.

#[global] Instance rasgo_eq_dec : EqDecision rasgo.
Proof. solve_decision. Defined.
#[global] Instance clave_eq_dec : EqDecision clave.
Proof. solve_decision. Defined.

Abbreviation pesos := (list (clave * Q)).

Definition WEIGHTS : gmap string pesos :=
  <[ almacigos :=
       [ (Num temp_media, 0.23%Q); (Num humedad, 0.23%Q);
         (Num prec_total_mm, 0.22%Q); (Num dias_lluvia, 0.04%Q);
         (Num brillo_solar, 0.03%Q); (Num altitud_msnm, 0.08%Q);
         (Num sombra_pct, 0.05%Q); (Num mes_sin, 0.015%Q);
         (Num mes_cos, 0.015%Q); (Num edad_vivero_meses, 0.08%Q);
         (luna_fase, 0.06%Q) ] ]>
  (<[ fertilizacion_sin_analisis :=
       [ (Num temp_media, 0.15%Q); (Num humedad, 0.20%Q);
         (Num prec_total_mm, 0.20%Q); (Num dias_lluvia, 0.05%Q);
         (Num brillo_solar, 0.05%Q); (Num altitud_msnm, 0.10%Q);
         (Num sombra_pct, 0.05%Q); (Num mes_sin, 0.025%Q);
         (Num mes_cos, 0.025%Q); (Num meses_despues_siembra, 0.15%Q);
         (luna_fase, 0.07%Q) ] ]>
  (<[ broca :=
       [ (Num temp_media, 0.30%Q); (Num humedad, 0.25%Q);
         (Num prec_total_mm, 0.20%Q); (Num dias_lluvia, 0.05%Q);
         (Num brillo_solar, 0.05%Q); (Num altitud_msnm, 0.10%Q);
         (Num sombra_pct, 0.03%Q); (Num mes_sin, 0.01%Q);
         (Num mes_cos, 0.01%Q) ] ]> ∅)).

Definition WEIGHTS_B : list (rasgo * Q) :=
  [ (temp_media, 0.28%Q); (humedad, 0.22%Q); (prec_total_mm, 0.22%Q);
    (dias_lluvia, 0.06%Q); (brillo_solar, 0.06%Q);
    (altitud_msnm, 0.10%Q); (sombra_pct, 0.04%Q);
    (mes_sin, 0.01%Q); (mes_cos, 0.01%Q) ].

Definition STATIONS_ALT : gmap string Q :=
  <[ "Estacion_Tambo" := 1735%Q ]> (<[ "Estacion_Piendamo" := 1671%Q ]> ∅).

Definition RANGES (key : rasgo) : Q * Q :=
  match key with
  | temp_media => (10, 30)
  | humedad => (40, 100)
  | prec_total_mm => (0, 400)
  | dias_lluvia => (0, 30)
  | brillo_solar => (0, 200)
  | altitud_msnm => (1000, 2300)
  | sombra_pct => (0, 80)
  | mes_sin => (-1, 1)
  | mes_cos => (-1, 1)
  | meses_despues_siembra => (0, 24)
  | edad_vivero_meses => (0, 6)
  end%Q.

Definition norm01 (val : option Q) (key : rasgo) : option Q :=
  match val with
  | None => None
  | Some v =>
      let '(lo, hi) := RANGES key in
      if Qle_bool hi lo then Some 0%Q
      else Some (clip01 ((v - lo) / (hi - lo)))
  end.

Definition sim_numeric (a b : option Q) (key : rasgo) : option Q :=
  match a, b with
  | Some _, Some _ =>
      match norm01 a key, norm01 b key with
      | Some na, Some nb => Some (clip01 (1 - Qabs (na - nb)))
      | _, _ => None
      end
  | _, _ => None
  end.

(** ** Lunar phase (categorical) *)

Definition ADYACENTES : gmap string (gset string) :=
  <[ "nueva" := {[ "creciente" ]} ]>
  (<[ "creciente" := {[ "nueva"; "llena" ]} ]>
  (<[ "llena" := {[ "creciente"; "menguante" ]} ]>
  (<[ "menguante" := {[ "llena" ]} ]> ∅))).

Definition sim_luna (a b : option string) : option Q :=
  if negb (truthy a) || negb (truthy b) then None
  else
    let a := lower (strip (or_vacio a)) in
    let b := lower (strip (or_vacio b)) in
    if String.eqb a b then Some 1%Q
    else if bool_decide (b ∈ default (∅ : gset string) (ADYACENTES !! a))
         then Some 0.5%Q
    else Some 0%Q.

(** ** Station bonus (tier B) *)

Definition station_bonus (query_alt : option Q) (case_station : option string)
    (case_alt : option Q) : Q :=
  match query_alt with
  | None => 1
  | Some qa =>
      let ref :=
        match case_station ≫= (fun st => STATIONS_ALT !! st) with
        | Some alt => Some alt
        | None => case_alt
        end in
      match ref with
      | None => 1
      | Some r =>
          let diff := Qabs (qa - r) in
          if Qle_bool diff 60 then 1.00
          else if Qle_bool diff 120 then 0.85
          else if Qle_bool diff 200 then 0.70
          else 0.55
      end
  end%Q.

(** ** Cases and vectors *)

Record contexto := {
  ctx_ubicacion : option string;
  ctx_altitud_msnm : option Q;
  ctx_mes : option string;
  ctx_variedad : option string;
  ctx_sombra_pct : option Q;
  ctx_edad_vivero_meses : option Q;
  ctx_estacion : option string
}.

Record clima := {
  cli_temp_media : option Q;
  cli_humedad : option Q;
  cli_prec_total_mm : option Q;
  cli_dias_lluvia : option Q;
  cli_brillo_solar : option Q
}.

(** [recomendaciones]: one mapping.  The record holds the lists stored
    under the keys [tecnicas] and [tradicionales] (empty when the key is
    missing or null) and, in file order, the other keys with their texts.
    The position of the two list keys among the other keys is not kept;
    where the program walks the whole mapping ([extras_from_B]) the model
    takes the two list keys first.  The items of the lists are strings. *)
Record recomendaciones := {
  tecnicas : list string;
  tradicionales : list string;
  por_categoria : list (string * string)
}.

(** [almacigos_meta] and [fertilizacion_sin_suelo] are optional nested
    mappings holding one optional number each. *)
Record caso := {
  id : option string;
  tipo : option string;
  caso_contexto : option contexto;
  caso_clima : option clima;
  fertilizacion_sin_suelo : option (option Q);
  almacigos_meta : option (option Q);
  caso_luna_fase : option string;
  fase_fenologica : option string;
  caso_recomendaciones : option recomendaciones;
  fuente_caso_base : option string
}.

Definition contexto_vacio : contexto :=
  {| ctx_ubicacion := None; ctx_altitud_msnm := None; ctx_mes := None;
     ctx_variedad := None; ctx_sombra_pct := None;
     ctx_edad_vivero_meses := None; ctx_estacion := None |}.

Definition clima_vacio : clima :=
  {| cli_temp_media := None; cli_humedad := None; cli_prec_total_mm := None;
     cli_dias_lluvia := None; cli_brillo_solar := None |}.

Definition recomendaciones_vacias : recomendaciones :=
  {| tecnicas := []; tradicionales := []; por_categoria := [] |}.

(** A value stored under a key of the mapping: a text or a list of
    lines. *)
Inductive valor_rec :=
  | Texto (s : string)
  | Lineas (l : list string).

(** [recs.items()] *)
Definition items_rec (recs : recomendaciones) : list (string * valor_rec) :=
  ("tecnicas", Lineas (tecnicas recs)) ::
  ("tradicionales", Lineas (tradicionales recs)) ::
  ((fun ct : string * string => (fst ct, Texto (snd ct)))
   <$> por_categoria recs).

(** [not txt]: the empty text and the empty list are falsy. *)
Definition es_falso (v : valor_rec) : bool :=
  match v with
  | Texto s => String.eqb s ""
  | Lineas [] => true
  | Lineas (_ :: _) => false
  end.

(** *** [str] of a value

    [str] of a text is the text; [str] of a list is its [repr]: the
    [repr] of the items between brackets, separated by a comma and a
    blank. *)

Definition comilla_simple : ascii := ascii_of_nat 39.
Definition comilla_doble : ascii := ascii_of_nat 34.
Definition barra_invertida : ascii := ascii_of_nat 92.

Fixpoint tiene_caracter (c : ascii) (s : string) : bool :=
  match s with
  | EmptyString => false
  | String x s' => Ascii.eqb x c || tiene_caracter c s'
  end.

Definition digito_hex (n : nat) : ascii :=
  nth n (list_ascii_of_string "0123456789abcdef") "0"%char.

(** One character inside the [repr] of a string quoted with [q]: the
    quote and the backslash are escaped, TAB, LF and CR are written with
    their letter, the other control characters in hexadecimal. *)
Definition repr_caracter (q c : ascii) : string :=
  let n := nat_of_ascii c in
  if Ascii.eqb c q || Ascii.eqb c barra_invertida
  then String barra_invertida (String c EmptyString)
  else if (n =? 9)%nat then String barra_invertida "t"
  else if (n =? 10)%nat then String barra_invertida "n"
  else if (n =? 13)%nat then String barra_invertida "r"
  else if (n <? 32)%nat || (n =? 127)%nat then
    String barra_invertida
      (String "x" (String (digito_hex (n / 16))
         (String (digito_hex (n mod 16)) EmptyString)))
  else String c EmptyString.

Fixpoint repr_cuerpo (q : ascii) (s : string) : string :=
  match s with
  | EmptyString => EmptyString
  | String c s' => repr_caracter q c ++ repr_cuerpo q s'
  end.

(** [repr(s)]: single quotes, unless the string holds a single quote and
    no double quote. *)
Definition py_repr (s : string) : string :=
  let q :=
    if tiene_caracter comilla_simple s && negb (tiene_caracter comilla_doble s)
    then comilla_doble else comilla_simple in
  String q (repr_cuerpo q s ++ String q EmptyString).

(** [sep.join(l)] *)
Fixpoint unir (sep : string) (l : list string) : string :=
  match l with
  | [] => EmptyString
  | [x] => x
  | x :: l' => x ++ sep ++ unir sep l'
  end.

Definition py_str (v : valor_rec) : string :=
  match v with
  | Texto s => s
  | Lineas l => "[" ++ unir ", " (py_repr <$> l) ++ "]"
  end.

(** Feature vector: the numeric entries by key, the lunar phase, and (tier
    B only) the station name. *)
Record vector := {
  v_num : rasgo -> option Q;
  v_luna_fase : option string;
  v_estacion : option string
}.

(** [vec.get(k) is None] *)
Definition ausente (v : vector) (k : clave) : bool :=
  match k with
  | Num r => bool_decide (v_num v r = None)
  | luna_fase => bool_decide (v_luna_fase v = None)
  end.

(** Query parameters of [run_cbr]. *)
Record params := {
  p_data : list string;
  p_tipo : string;
  p_ubicacion : option string;
  p_altitud : option Q;
  p_mes : option string;
  p_variedad : option string;
  p_sombra : option Q;
  p_temp_media : option Q;
  p_humedad : option Q;
  p_prec_total_mm : option Q;
  p_dias_lluvia : option Q;
  p_brillo_solar : option Q;
  p_meses_despues_siembra : option Q;
  p_edad_vivero_meses : option Q;
  p_luna : option string;
  p_fase : option string;
  p_k : Z;
  p_kB : Z;
  p_usar_extras_b : bool;
  p_save_case_to : option string
}.

(** ** Similarity engine *)

(** Similarity of one weighted key of tier A. *)
Definition sim_clave_A (qvec cvec : vector) (k : clave) : option Q :=
  match k with
  | luna_fase => sim_luna (v_luna_fase qvec) (v_luna_fase cvec)
  | Num r => sim_numeric (v_num qvec r) (v_num cvec r) r
  end.

(** One iteration of the loop over [weights.items()]: the pair is
    [(s_num, s_den)]. *)
Definition paso_A (qvec cvec : vector) (acc : Q * Q) (kw : clave * Q) : Q * Q :=
  let '(s_num, s_den) := acc in
  let '(k, w) := kw in
  if ausente qvec k then acc
  else
    match sim_clave_A qvec cvec k with
    | None => acc
    | Some simk => (s_num + w * clip01 simk, s_den + w)%Q
    end.

(** [0.0 if s_den <= 0 else clip01(s_num / s_den)] *)
Definition cociente (acc : Q * Q) : Q :=
  let '(s_num, s_den) := acc in
  if Qle_bool s_den 0 then 0%Q else clip01 (s_num / s_den).

(** The weighted score over an explicit weight table. *)
Definition puntaje_A (weights : pesos) (qvec cvec : vector) : Q :=
  cociente (fold_left (paso_A qvec cvec) weights (0, 0)%Q).

Definition similarity_weighted_A (qvec cvec : vector) (domain : string)
    : resultado Q :=
  match WEIGHTS !! domain with
  | None => Raise (KeyError domain)
  | Some weights => Ok (puntaje_A weights qvec cvec)
  end.

Definition paso_B (qvec cvec : vector) (acc : Q * Q) (kw : rasgo * Q) : Q * Q :=
  let '(s_num, s_den) := acc in
  let '(k, w) := kw in
  if ausente qvec (Num k) then acc
  else
    match sim_numeric (v_num qvec k) (v_num cvec k) k with
    | None => acc
    | Some simk => (s_num + w * clip01 simk, s_den + w)%Q
    end.

(** The tier-B aggregate before the station bonus, over an explicit
    weight table. *)
Definition base_B (weights : list (rasgo * Q)) (qvec cvec : vector) : Q :=
  cociente (fold_left (paso_B qvec cvec) weights (0, 0)%Q).

Definition similarity_weighted_B (qvec cvec : vector) (query_alt : option Q) : Q :=
  let base := base_B WEIGHTS_B qvec cvec in
  let bonus :=
    station_bonus query_alt (v_estacion cvec) (v_num cvec altitud_msnm) in
  clip01 (base * bonus).

(** The quantities of the specification: the similarity of a key when it
    is comparable, the weighted sum of the comparable similarities and the
    sum of their weights, the sum of a whole table, and a table without
    one key. *)
Definition sim_definida (qvec cvec : vector) (k : clave) : option Q :=
  if ausente qvec k then None else sim_clave_A qvec cvec k.

Definition numerador (weights : pesos) (qvec cvec : vector) : Q :=
  foldr (fun kw acc =>
           match sim_definida qvec cvec (fst kw) with
           | Some s => (snd kw * s + acc)%Q
           | None => acc
           end) 0%Q weights.

Definition denominador (weights : pesos) (qvec cvec : vector) : Q :=
  foldr (fun kw acc =>
           match sim_definida qvec cvec (fst kw) with
           | Some _ => (snd kw + acc)%Q
           | None => acc
           end) 0%Q weights.

Definition suma_pesos (weights : pesos) : Q :=
  fold_left (fun acc kw => (acc + snd kw)%Q) weights 0%Q.

Definition sin_clave (k : clave) (weights : pesos) : pesos :=
  filter (fun kw => fst kw <> k) weights.

Definition como_pesos (weights : list (rasgo * Q)) : pesos :=
  (fun kw => (Num (fst kw), snd kw)) <$> weights.

(** The weights of the three tables as binary64 literals, in table order,
    and their sum as the loop accumulates [s_den] when every key is
    comparable. *)
Set Warnings "-inexact-float".

Definition pesos_binary64 (domain : string) : list float :=
  if String.eqb domain almacigos then
    [0.23; 0.23; 0.22; 0.04; 0.03; 0.08; 0.05; 0.015; 0.015; 0.08; 0.06]%float
  else if String.eqb domain fertilizacion_sin_analisis then
    [0.15; 0.20; 0.20; 0.05; 0.05; 0.10; 0.05; 0.025; 0.025; 0.15; 0.07]%float
  else if String.eqb domain broca then
    [0.30; 0.25; 0.20; 0.05; 0.05; 0.10; 0.03; 0.01; 0.01]%float
  else [].

Set Warnings "+inexact-float".

Definition suma_binary64 (l : list float) : float :=
  fold_left PrimFloat.add l 0%float.

(** ** Retrieval *)

Definition hit := (Q * caso)%type.

(** [hits.sort(key=lambda x: x[0], reverse=True)]: descending by score,
    equal scores keep their original order. *)
Fixpoint insertar_desc (x : hit) (l : list hit) : list hit :=
  match l with
  | [] => [x]
  | y :: l' => if Qltb (fst x) (fst y) then y :: insertar_desc x l' else x :: l
  end.

Definition ordenar_desc (l : list hit) : list hit := foldr insertar_desc [] l.

(** [l[:max(1, k)]] *)
Definition primeros (k : Z) {A} (l : list A) : list A :=
  take (Z.to_nat (Z.max 1 k)) l.

Record meta := {
  m_aplica : bool;
  m_razon_no_aplica : option string
}.

(** [round(x, 3)]: nearest multiple of 1/1000, ties to the even one. *)
Definition round3 (x : Q) : Q :=
  let n := (x * 1000)%Q in
  let f := Qfloor n in
  let r := (n - inject_Z f)%Q in
  let up :=
    if Qltb r 0.5 then false
    else if Qltb 0.5 r then true
    else Z.odd f in
  (inject_Z (if up then f + 1 else f) / 1000)%Q.

Record extra := {
  e_texto : string;
  e_categoria_b : string;
  e_fuente : string;
  e_estacion : option string;
  e_similitud : Q;
  e_id_caso : option string
}.

(** [grupos]: category to ordered unique texts, in insertion order. *)
Fixpoint agregar_a_grupo (cat txt : string) (grupos : list (string * list string))
    : list (string * list string) :=
  match grupos with
  | [] => [(cat, [txt])]
  | (c, l) :: g' =>
      if String.eqb c cat
      then (c, if bool_decide (txt ∈ l) then l else (l ++ [txt])%list) :: g'
      else (c, l) :: agregar_a_grupo cat txt g'
  end.

Definition agrupar_extras_B (extras_B : list extra) : list (string * list string) :=
  fold_left
    (fun grupos e =>
       let cat := if String.eqb (e_categoria_b e) "" then "general"
                  else e_categoria_b e in
       let txt := strip (e_texto e) in
       if String.eqb txt "" then grupos else agregar_a_grupo cat txt grupos)
    extras_B [].

Section Motor.

(** [(math.sin(ang), math.cos(ang))] for [ang = 2*pi*idx/12], as the float
    library gives them for each month index. *)
Variable trig_mes : nat -> Q * Q.

Definition mes_to_sin_cos (mes : option string) : Q * Q :=
  trig_mes (mes_idx mes).

(** [safe_float] on a value that is a number or absent. *)
Definition safe_float (x : option Q) : option Q := x.

Definition extract_input_vector (args_dict : params) : vector :=
  let '(msin, mcos) := mes_to_sin_cos (p_mes args_dict) in
  {| v_num := fun r =>
       match r with
       | temp_media => safe_float (p_temp_media args_dict)
       | humedad => safe_float (p_humedad args_dict)
       | prec_total_mm => safe_float (p_prec_total_mm args_dict)
       | dias_lluvia => safe_float (p_dias_lluvia args_dict)
       | brillo_solar => safe_float (p_brillo_solar args_dict)
       | altitud_msnm => safe_float (p_altitud args_dict)
       | sombra_pct => safe_float (p_sombra args_dict)
       | mes_sin => Some msin
       | mes_cos => Some mcos
       | meses_despues_siembra => safe_float (p_meses_despues_siembra args_dict)
       | edad_vivero_meses => safe_float (p_edad_vivero_meses args_dict)
       end;
     v_luna_fase := p_luna args_dict;
     v_estacion := None |}.

Definition extract_case_vector_A (case : caso) : vector :=
  let ctx := default contexto_vacio (caso_contexto case) in
  let cli := default clima_vacio (caso_clima case) in
  let '(msin, mcos) := mes_to_sin_cos (ctx_mes ctx) in
  let evm :=
    match almacigos_meta case with
    | Some (Some e) => Some e
    | _ => safe_float (ctx_edad_vivero_meses ctx)
    end in
  {| v_num := fun r =>
       match r with
       | temp_media => safe_float (cli_temp_media cli)
       | humedad => safe_float (cli_humedad cli)
       | prec_total_mm => safe_float (cli_prec_total_mm cli)
       | dias_lluvia => safe_float (cli_dias_lluvia cli)
       | brillo_solar => safe_float (cli_brillo_solar cli)
       | altitud_msnm => safe_float (ctx_altitud_msnm ctx)
       | sombra_pct => safe_float (ctx_sombra_pct ctx)
       | mes_sin => Some msin
       | mes_cos => Some mcos
       | meses_despues_siembra =>
           safe_float (default None (fertilizacion_sin_suelo case))
       | edad_vivero_meses => evm
       end;
     v_luna_fase := caso_luna_fase case;
     v_estacion := None |}.

Definition extract_case_vector_B (case : caso) : vector :=
  let ctx := default contexto_vacio (caso_contexto case) in
  let cli := default clima_vacio (caso_clima case) in
  let '(msin, mcos) := mes_to_sin_cos (ctx_mes ctx) in
  {| v_num := fun r =>
       match r with
       | altitud_msnm => safe_float (ctx_altitud_msnm ctx)
       | sombra_pct => safe_float (ctx_sombra_pct ctx)
       | mes_sin => Some msin
       | mes_cos => Some mcos
       | temp_media => safe_float (cli_temp_media cli)
       | humedad => safe_float (cli_humedad cli)
       | prec_total_mm => safe_float (cli_prec_total_mm cli)
       | dias_lluvia => safe_float (cli_dias_lluvia cli)
       | brillo_solar => safe_float (cli_brillo_solar cli)
       | meses_despues_siembra | edad_vivero_meses => None
       end;
     v_luna_fase := None;
     v_estacion := ctx_estacion ctx |}.

(** [top_k_A] with the similarity function as an argument, so that the
    calls it makes are visible from outside. *)
Definition top_k_A_con (sim : vector -> vector -> string -> resultado Q)
    (cases : list caso) (query_vec : vector) (domain : string) (k : Z)
    (fase_actual : string) (mds : option Q) : resultado (list hit * meta) :=
  let '(aplica, razon) := dominio_aplica domain fase_actual mds in
  if negb aplica then
    Ok ([], {| m_aplica := false; m_razon_no_aplica := razon |})
  else
    hits ← mapM (fun c =>
                   s ← sim query_vec (extract_case_vector_A c) domain;
                   mret (s, c))
                (filter (fun c => tipo c = Some domain) cases);
    mret (primeros k (ordenar_desc hits),
          {| m_aplica := true; m_razon_no_aplica := None |}).

Definition top_k_A := top_k_A_con similarity_weighted_A.

(** The extras of one retrieved neighbour: one item per key of its
    [recomendaciones] mapping whose value is not falsy, the advice lists
    included. *)
Definition extras_de (sc : hit) : list extra :=
  let '(s, c) := sc in
  let recs := default recomendaciones_vacias (caso_recomendaciones c) in
  omap (fun '(categoria, txt) =>
          if es_falso txt then None
          else Some {| e_texto := strip (py_str txt);
                       e_categoria_b := categoria;
                       e_fuente := "Dataset B (histórico por estación)";
                       e_estacion :=
                         ctx_estacion (default contexto_vacio (caso_contexto c));
                       e_similitud := round3 s;
                       e_id_caso := id c |})
       (items_rec recs).

Definition extras_from_B (cases : list caso) (query_context : params) (kB : Z)
    : list extra * list hit :=
  let '(msin, mcos) := mes_to_sin_cos (p_mes query_context) in
  let qvec :=
    {| v_num := fun r =>
         match r with
         | temp_media => p_temp_media query_context
         | humedad => p_humedad query_context
         | prec_total_mm => p_prec_total_mm query_context
         | dias_lluvia => p_dias_lluvia query_context
         | brillo_solar => p_brillo_solar query_context
         | altitud_msnm => p_altitud query_context
         | sombra_pct => p_sombra query_context
         | mes_sin => Some msin
         | mes_cos => Some mcos
         | meses_despues_siembra | edad_vivero_meses => None
         end;
       v_luna_fase := None;
       v_estacion := None |} in
  let scored :=
    (fun c => (similarity_weighted_B qvec (extract_case_vector_B c)
                 (p_altitud query_context), c))
    <$> filter (fun c =>
                  tipo c = Some "historico" \/
                  truthy (ctx_estacion
                            (default contexto_vacio (caso_contexto c))) = true)
               cases in
  let top := primeros kB (ordenar_desc scored) in
  (concat (extras_de <$> top), top).

End Motor.

(** ** Recommendation fusion *)

Definition COMPONENTES_FERT : list string := ["urea"; "DAP"; "KCl"; "NPK"; "MgO"].

(** [p] occurs in [s]. *)
Fixpoint contiene (p s : string) : bool :=
  String.prefix p s ||
  match s with
  | EmptyString => false
  | String _ s' => contiene p s'
  end.

(** [re.search(comp, txt, re.IGNORECASE)] for a literal [comp]. *)
Definition busca_ignorando_caja (comp txt : string) : bool :=
  contiene (lower comp) (lower txt).

Definition extraer_componentes (txt : string) : list string :=
  lower <$> filter (fun comp => busca_ignorando_caja comp txt = true) COMPONENTES_FERT.

(** The longest leading run of digits of [s], and what follows it. *)
Fixpoint digitos (s : string) : string * string :=
  match s with
  | EmptyString => (EmptyString, EmptyString)
  | String c s' =>
      if py_isdigit c
      then let '(d, r) := digitos s' in (String c d, r)
      else (EmptyString, s)
  end.

Fixpoint valor_decimal_desde (acc : Z) (d : string) : Z :=
  match d with
  | EmptyString => acc
  | String c d' => valor_decimal_desde (10 * acc + (Z.of_nat (nat_of_ascii c) - 48)) d'
  end.

(** [float(m.group(1))] for a run of decimal digits. *)
Definition valor_decimal (d : string) : Q := inject_Z (valor_decimal_desde 0 d).

(** A match of [(\d+)\s*MDS] starting at the first character of [s]: both
    runs are greedy and what follows each run cannot extend it, so only
    the longest runs can lead to a match. *)
Definition marcador_en (s : string) : option Q :=
  let '(d, r) := digitos s in
  if String.eqb d "" then None
  else if String.prefix "MDS" (lstrip r) then Some (valor_decimal d)
  else None.

Fixpoint quitar_prefijo (p s : string) : option string :=
  match p, s with
  | EmptyString, _ => Some s
  | String a p', String b s' => if Ascii.eqb a b then quitar_prefijo p' s' else None
  | String _ _, EmptyString => None
  end.

(** A match of [≤\s*(\d+)\s*MDS] starting at the first character of [s]. *)
Definition marcador_le_en (s : string) : option Q :=
  match quitar_prefijo "≤" s with
  | Some r => marcador_en (lstrip r)
  | None => None
  end.

(** [re.search]: the match at the leftmost start position. *)
Fixpoint re_search (en : string -> option Q) (s : string) : option Q :=
  match en s with
  | Some v => Some v
  | None =>
      match s with
      | EmptyString => None
      | String _ s' => re_search en s'
      end
  end.

Definition extraer_mds_de_texto (txt : string) : option Q :=
  match re_search marcador_en txt with
  | Some v => Some v
  | None => re_search marcador_le_en txt
  end.

(** [dist] of a line: distance of its marker to the query, 999 when either
    is missing. *)
Definition distancia (mds_query : option Q) (texto : string) : Q :=
  match mds_query, extraer_mds_de_texto texto with
  | Some q, Some m => Qabs (q - m)
  | _, _ => 999
  end.

(** The body of [for comp in comps]. *)
Definition paso_comp (dist : Q) (texto : string)
    (mejor_por_componente : gmap string (Q * string)) (comp : string)
    : gmap string (Q * string) :=
  match mejor_por_componente !! comp with
  | None => <[ comp := (dist, texto) ]> mejor_por_componente
  | Some actual =>
      if Qltb dist (fst actual)
      then <[ comp := (dist, texto) ]> mejor_por_componente
      else mejor_por_componente
  end.

(** The body of [for txt in recs]; the state is
    [(recs_genericas, mejor_por_componente)]. *)
Definition paso_linea (mds_query : option Q)
    (st : gset string * gmap string (Q * string)) (txt : string)
    : gset string * gmap string (Q * string) :=
  let '(recs_genericas, mejor_por_componente) := st in
  if String.eqb txt "" then st
  else
    let texto := strip txt in
    let comps := extraer_componentes texto in
    match comps with
    | [] => ({[ texto ]} ∪ recs_genericas, mejor_por_componente)
    | _ =>
        (recs_genericas,
         fold_left (paso_comp (distancia mds_query texto) texto) comps
           mejor_por_componente)
    end.

Definition tecnicas_de (case : caso) : list string :=
  tecnicas (default recomendaciones_vacias (caso_recomendaciones case)).

Definition tradicionales_de (case : caso) : list string :=
  tradicionales (default recomendaciones_vacias (caso_recomendaciones case)).

(** The two loops of [combinar_recs_fertilizacion]. *)
Definition seleccion_fert (hits_fert : list hit) (mds_query : option Q)
    : gset string * gmap string (Q * string) :=
  fold_left
    (fun st (h : hit) => fold_left (paso_linea mds_query) (tecnicas_de (snd h)) st)
    hits_fert (∅, ∅).

Definition combinar_recs_fertilizacion (hits_fert : list hit)
    (mds_query : option Q) : list string :=
  let '(recs_genericas, mejor_por_componente) :=
    seleccion_fert hits_fert mds_query in
  let resultado : gset string :=
    recs_genericas ∪ map_img (snd <$> mejor_por_componente) in
  merge_sort String.le (elements resultado).

(** The body of the inner loops of [combinar_recs_genericas]: the list and
    its [seen] set. *)
Definition paso_generica (st : list string * gset string) (t : string)
    : list string * gset string :=
  let '(lista, seen) := st in
  let t := strip t in
  if negb (String.eqb t "") && bool_decide (t ∉ seen)
  then ((lista ++ [t])%list, {[ t ]} ∪ seen)
  else st.

Definition combinar_recs_genericas (hits_dom : list hit) : recomendaciones :=
  let '(tec, trad) :=
    fold_left
      (fun '(tec, trad) (h : hit) =>
         (fold_left paso_generica (tecnicas_de (snd h)) tec,
          fold_left paso_generica (tradicionales_de (snd h)) trad))
      hits_dom (([], ∅), ([], ∅)) in
  {| tecnicas := fst tec; tradicionales := fst trad; por_categoria := [] |}.

(** ** Stores on disk *)

(** What reading a path gives: [open]/[yaml.safe_load] raises, or the
    document is not a sequence, or it is a sequence of cases. *)
Inductive archivo :=
  | Ilegible
  | NoLista
  | Lista (casos : list caso).

(** The files that exist, and the paths that cannot be opened for
    writing. *)
Record mundo := {
  archivos : gmap string archivo;
  protegidos : gset string
}.

Definition aviso_no_encontrado (pth : string) : string :=
  "AVISO: no se encontró el archivo de casos: " ++ pth.

Definition aviso_no_lista (pth : string) : string :=
  "AVISO: " ++ pth ++ " no es una lista YAML de casos; se ignora.".

(** The loop of [load_cases], from the cases and warnings gathered so far.
    The warnings are what was printed to stderr. *)
Fixpoint load_cases_desde (w : mundo) (paths : list string)
    (cases : list caso) (avisos : list string)
    : list string * resultado (list caso) :=
  match paths with
  | [] => (avisos, Ok cases)
  | pth :: resto =>
      match archivos w !! pth with
      | None =>
          load_cases_desde w resto cases (avisos ++ [aviso_no_encontrado pth])
      | Some Ilegible => (avisos, Raise (ErrorLectura pth))
      | Some (Lista data) => load_cases_desde w resto (cases ++ data) avisos
      | Some NoLista =>
          load_cases_desde w resto cases (avisos ++ [aviso_no_lista pth])
      end
  end.

Definition load_cases (w : mundo) (paths : list string)
    : list string * resultado (list caso) :=
  load_cases_desde w paths [] [].

(** ** Retention *)

Definition decimal (n : nat) : string := NilZero.string_of_uint (Nat.to_uint n).

(** [f"{n:04d}"]: decimal, zero-padded on the left up to width 4. *)
Fixpoint ceros (k : nat) : string :=
  match k with
  | O => EmptyString
  | S k' => String "0" (ceros k')
  end.

Definition formato_04d (n : nat) : string :=
  let d := decimal n in
  ceros (4 - String.length d) ++ d.

Definition con_id (c : caso) (nuevo : option string) : caso :=
  {| id := nuevo; tipo := tipo c; caso_contexto := caso_contexto c;
     caso_clima := caso_clima c;
     fertilizacion_sin_suelo := fertilizacion_sin_suelo c;
     almacigos_meta := almacigos_meta c;
     caso_luna_fase := caso_luna_fase c;
     fase_fenologica := fase_fenologica c;
     caso_recomendaciones := caso_recomendaciones c;
     fuente_caso_base := fuente_caso_base c |}.

(** The records read back from the target store: empty unless the file
    exists, can be read and holds a sequence. *)
Definition cases_existing_de (w : mundo) (save_path : string) : list caso :=
  match archivos w !! save_path with
  | Some (Lista data) => data
  | _ => []
  end.

Definition append_case_to_yaml (w : mundo) (save_path : string) (new_case : caso)
    : resultado (string * mundo) :=
  let cases_existing := cases_existing_de w save_path in
  let next_id := (length cases_existing + 1)%nat in
  let nuevo_id := "NEW-" ++ formato_04d next_id in
  let new_case := con_id new_case (Some nuevo_id) in
  if bool_decide (save_path ∈ protegidos w) then Raise (ErrorEscritura save_path)
  else
    Ok (nuevo_id,
        {| archivos :=
             <[ save_path := Lista (cases_existing ++ [new_case]) ]> (archivos w);
           protegidos := protegidos w |}).

(** ** Orchestrator *)

Record hit_res := {
  h_similitud : Q;
  h_id : option string;
  h_tipo : option string;
  h_ubicacion : option string
}.

Record resultado_dom := {
  r_hits : list hit_res;
  r_recomendaciones : recomendaciones;
  r_aplicabilidad : meta
}.

Record consulta := {
  q_tipo : string;
  q_k : Z;
  q_kB : Z;
  q_usar_extras_b : bool;
  q_fase : string
}.

Record salida := {
  s_consulta : consulta;
  resultados_A : list (string * resultado_dom);
  extras_B_raw : list extra;
  extras_B_agrupados : list (string * list string);
  saved_case_id : option string
}.

Definition auto : string := "auto".

Definition aviso_sin_casos : string :=
  "No se cargaron casos desde los YAML indicados.".

Definition aviso_no_guardado (ruta : string) : string :=
  "AVISO: no se pudo guardar el caso en '" ++ ruta ++ "'".

(** [dict.get] on the per-domain results. *)
Fixpoint buscar_dom (dom : string) (resultados : list (string * resultado_dom))
    : option resultado_dom :=
  match resultados with
  | [] => None
  | (d, r) :: resto => if String.eqb d dom then Some r else buscar_dom dom resto
  end.

(** Step 3 of [run_cbr] for one domain: the reported hits and the fused
    recommendations. *)
Definition resultado_de_dominio (dom : string) (klist : list hit) (meta : meta)
    (mds : option Q) : resultado_dom :=
  let hits_res :=
    (fun sc : hit =>
       {| h_similitud := round3 (fst sc);
          h_id := id (snd sc);
          h_tipo := tipo (snd sc);
          h_ubicacion :=
            ctx_ubicacion (default contexto_vacio (caso_contexto (snd sc))) |})
    <$> klist in
  let recomendaciones :=
    if negb (m_aplica meta) then
      {| tecnicas := []; tradicionales := []; por_categoria := [] |}
    else if String.eqb dom fertilizacion_sin_analisis then
      let recs_tecnicas := combinar_recs_fertilizacion klist mds in
      let base := combinar_recs_genericas klist in
      {| tecnicas := recs_tecnicas; tradicionales := tradicionales base;
         por_categoria := [] |}
    else combinar_recs_genericas klist in
  {| r_hits := hits_res;
     r_recomendaciones := recomendaciones;
     r_aplicabilidad := meta |}.

(** The case synthesized for retention, before its id is assigned. *)
Definition out_case_de (p : params) (fase_actual : string)
    (resultados : list (string * resultado_dom)) : caso :=
  {| id := None;
     tipo := Some (p_tipo p);
     caso_contexto := Some
       {| ctx_ubicacion := p_ubicacion p;
          ctx_altitud_msnm := p_altitud p;
          ctx_mes := p_mes p;
          ctx_variedad := p_variedad p;
          ctx_sombra_pct := p_sombra p;
          ctx_edad_vivero_meses := p_edad_vivero_meses p;
          ctx_estacion := None |};
     caso_clima := Some
       {| cli_temp_media := p_temp_media p;
          cli_humedad := p_humedad p;
          cli_prec_total_mm := p_prec_total_mm p;
          cli_dias_lluvia := p_dias_lluvia p;
          cli_brillo_solar := p_brillo_solar p |};
     fertilizacion_sin_suelo :=
       if bool_decide (p_tipo p ∈ [auto; fertilizacion_sin_analisis])
       then Some (p_meses_despues_siembra p) else None;
     almacigos_meta :=
       if bool_decide (p_tipo p ∈ [auto; almacigos])
       then Some (p_edad_vivero_meses p) else None;
     caso_luna_fase := p_luna p;
     fase_fenologica := Some fase_actual;
     caso_recomendaciones :=
       r_recomendaciones <$>
         buscar_dom (if negb (String.eqb (p_tipo p) auto) then p_tipo p
                     else fertilizacion_sin_analisis)
                    resultados;
     fuente_caso_base := Some "CBR generado" |}.

(** [fase_actual] and [dominios] of [run_cbr]. *)
Definition fase_de (p : params) : string :=
  fase_actual_de (p_fase p) (p_altitud p) (p_mes p) (p_meses_despues_siembra p).

Definition dominios_de (p : params) : list string :=
  if String.eqb (p_tipo p) auto
  then [almacigos; fertilizacion_sin_analisis; broca]
  else [p_tipo p].

(** Step 3: fusion for every retrieved domain. *)
Definition fusionar (mds : option Q)
    (recuperados : list (string * (list hit * meta)))
    : list (string * resultado_dom) :=
  (fun dr : string * (list hit * meta) =>
     (fst dr, resultado_de_dominio (fst dr) (fst (snd dr)) (snd (snd dr)) mds))
  <$> recuperados.

(** Step 4: optional retention; a failure to write is reported and the
    retained id stays null. *)
Definition retener (w : mundo) (p : params) (fase_actual : string)
    (resultados : list (string * resultado_dom))
    : list string * mundo * option string :=
  if truthy (p_save_case_to p) then
    let save_path := or_vacio (p_save_case_to p) in
    match append_case_to_yaml w save_path
            (out_case_de p fase_actual resultados) with
    | Ok (nuevo_id, w') => ([], w', Some nuevo_id)
    | Raise _ => ([aviso_no_guardado save_path], w, None)
    end
  else ([], w, None).

Section Orquestador.

Variable trig_mes : nat -> Q * Q.

(** Step 1: retrieval for every requested domain. *)
Definition recuperar (cases : list caso) (p : params)
    : resultado (list (string * (list hit * meta))) :=
  mapM (fun dom =>
          r ← top_k_A trig_mes cases (extract_input_vector trig_mes p) dom
                (p_k p) (fase_de p) (p_meses_despues_siembra p);
          mret (dom, r))
       (dominios_de p).

(** What [top_k_A] returns for a domain of the request. *)
Definition recuperado (cases : list caso) (p : params) (dom : string)
    : list hit * meta :=
  valor ([], {| m_aplica := false; m_razon_no_aplica := None |})
    (top_k_A trig_mes cases (extract_input_vector trig_mes p) dom (p_k p)
       (fase_de p) (p_meses_despues_siembra p)).

(** Steps 1 to 4 of [run_cbr] once the cases are loaded: the warnings
    printed, the stores afterwards, and the assembled response (or the
    exception raised on the way). *)
Definition pipeline (w : mundo) (p : params) (cases : list caso)
    : list string * mundo * resultado salida :=
  let fase_actual := fase_de p in
  let mds := p_meses_despues_siembra p in
  match recuperar cases p with
  | Raise e => ([], w, Raise e)
  | Ok recuperados =>
      let extras :=
        if p_usar_extras_b p
        then fst (extras_from_B trig_mes cases p (p_kB p)) else [] in
      let extras_agrupados :=
        if p_usar_extras_b p then agrupar_extras_B extras else [] in
      let resultados := fusionar mds recuperados in
      let '(avisos, w', saved_id) := retener w p fase_actual resultados in
      (avisos, w',
       Ok {| s_consulta :=
               {| q_tipo := p_tipo p; q_k := p_k p; q_kB := p_kB p;
                  q_usar_extras_b := p_usar_extras_b p;
                  q_fase := fase_actual |};
             resultados_A := resultados;
             extras_B_raw := extras;
             extras_B_agrupados := extras_agrupados;
             saved_case_id := saved_id |})
  end.

(** [run_cbr]: warnings on stderr, stores afterwards, and the value
    returned ([None] when no case was loaded) or the exception raised.
    With [verbose] the summary is printed and its last statement reads the
    local [output], which is only assigned after the summary. *)
Definition run_cbr (w : mundo) (p : params) (verbose : bool)
    : list string * mundo * resultado (option salida) :=
  let '(avisos, cargados) := load_cases w (p_data p) in
  match cargados with
  | Raise e => (avisos, w, Raise e)
  | Ok [] => ((avisos ++ [aviso_sin_casos])%list, w, Ok None)
  | Ok cases =>
      let '(avisos', w', r) := pipeline w p cases in
      match r with
      | Raise e => ((avisos ++ avisos')%list, w', Raise e)
      | Ok output =>
          if verbose
          then ((avisos ++ avisos')%list, w', Raise (UnboundLocalError "output"))
          else ((avisos ++ avisos')%list, w', Ok (Some output))
      end
  end.

End Orquestador.

(** The valid-phase set and the rejection reason the gate reads for a
    domain (empty set and generic reason for an unknown domain). *)
Definition fases_validas (dominio : string) : gset string :=
  from_option aplica_en ∅ (APLICA_DOMINIO !! dominio).

Definition razon_de (dominio : string) : string :=
  from_option razon_no_aplica razon_por_defecto (APLICA_DOMINIO !! dominio).

(** ** Reference quantities of the specification *)

(** The cases and the warnings the loader gives when no source raises. *)
Definition casos_de (w : mundo) (paths : list string) : list caso :=
  concat (cases_existing_de w <$> paths).

Definition avisos_de (w : mundo) (paths : list string) : list string :=
  omap (fun pth =>
          match archivos w !! pth with
          | None => Some (aviso_no_encontrado pth)
          | Some NoLista => Some (aviso_no_lista pth)
          | Some _ => None
          end) paths.

(** The four decimal digits of a number below 10000. *)
Definition cuatro_digitos (n : nat) : string :=
  let digito (k : nat) := ascii_of_nat (48 + k mod 10) in
  String (digito (n / 1000)) (String (digito (n / 100))
    (String (digito (n / 10)) (String (digito n) EmptyString))).

(** Every character of [d] is a decimal digit. *)
Fixpoint todos_digitos (d : string) : bool :=
  match d with
  | EmptyString => true
  | String c d' => py_isdigit c && todos_digitos d'
  end.

(** [s] starts with a marker of value [m]: a non-empty run of decimal
    digits, then optional blanks, then MDS. *)
Definition marcador_al_inicio (s : string) (m : Q) : Prop :=
  exists d r,
    s = d ++ r /\ d <> "" /\ todos_digitos d = true /\
    String.prefix "MDS" (lstrip r) = true /\ m = valor_decimal d.

(** The leftmost marker of [txt] has value [m]. *)
Definition primer_marcador (txt : string) (m : Q) : Prop :=
  exists pre s,
    txt = pre ++ s /\ marcador_al_inicio s m /\
    forall pre1 pre2 m',
      pre = pre1 ++ pre2 -> pre2 <> "" -> ~ marcador_al_inicio (pre2 ++ s) m'.

(** The lines the fertilization fusion looks at, in rank order: the
    non-empty technical lines of the hits, stripped. *)
Definition lineas_fert (hits_fert : list hit) : list string :=
  strip <$> filter (fun txt => txt <> "")
              (concat ((fun h : hit => tecnicas_de (snd h)) <$> hits_fert)).

(** The lines without a component token. *)
Definition genericas (lineas : list string) : list string :=
  filter (fun t => extraer_componentes t = []) lineas.

(** The lines that name a component, each with its distance to the query,
    in rank order. *)
Definition candidatos (mds_query : option Q) (comp : string)
    (lineas : list string) : list (Q * string) :=
  (fun t => (distancia mds_query t, t))
  <$> filter (fun t => comp ∈ extraer_componentes t) lineas.

(** [x] is the first entry of [l] with the least distance. *)
Definition es_primer_minimo (x : Q * string) (l : list (Q * string)) : Prop :=
  exists antes despues,
    l = (antes ++ x :: despues)%list /\
    Forall (fun y => (fst x < fst y)%Q) antes /\
    Forall (fun y => (fst x <= fst y)%Q) despues.

(** The entry kept for a component after seeing one more candidate. *)
Definition mejor_de (actual : option (Q * string)) (x : Q * string)
    : option (Q * string) :=
  match actual with
  | None => Some x
  | Some a => if Qltb (fst x) (fst a) then Some x else Some a
  end.

(** The state of the selection after the raw lines [vistas]. *)
Definition seleccion_ok (mds_query : option Q) (vistas : list string)
    (st : gset string * gmap string (Q * string)) : Prop :=
  let lineas := strip <$> filter (fun txt => txt <> "") vistas in
  st.1 = list_to_set (genericas lineas) /\
  forall comp,
    match st.2 !! comp with
    | None => candidatos mds_query comp lineas = []
    | Some a => es_primer_minimo a (candidatos mds_query comp lineas)
    end.

(** ** Sample data *)

(** Rounded sines and cosines of the twelve month angles. *)
Definition trig_ejemplo (idx : nat) : Q * Q :=
  nth idx
    [ (0, 1); (0.5, 0.866); (0.866, 0.5); (1, 0); (0.866, -0.5);
      (0.5, -0.866); (0, -1); (-0.5, -0.866); (-0.866, -0.5); (-1, 0);
      (-0.866, 0.5); (-0.5, 0.866) ]%Q (0, 1)%Q.

Definition caso_vacio : caso :=
  {| id := None; tipo := None; caso_contexto := None; caso_clima := None;
     fertilizacion_sin_suelo := None; almacigos_meta := None;
     caso_luna_fase := None; fase_fenologica := None;
     caso_recomendaciones := None; fuente_caso_base := None |}.

Definition caso_fert (ident : string) (mds : Q) (tec trad : list string) : caso :=
  {| id := Some ident; tipo := Some fertilizacion_sin_analisis;
     caso_contexto := Some
       {| ctx_ubicacion := Some "Popayan"; ctx_altitud_msnm := Some 1700%Q;
          ctx_mes := Some "noviembre"; ctx_variedad := Some "Castillo";
          ctx_sombra_pct := Some 30%Q; ctx_edad_vivero_meses := None;
          ctx_estacion := None |};
     caso_clima := Some
       {| cli_temp_media := Some 18%Q; cli_humedad := Some 90%Q;
          cli_prec_total_mm := Some 180%Q; cli_dias_lluvia := Some 17%Q;
          cli_brillo_solar := Some 100%Q |};
     fertilizacion_sin_suelo := Some (Some mds); almacigos_meta := None;
     caso_luna_fase := Some "llena";
     fase_fenologica := Some floracion_llenado;
     caso_recomendaciones := Some
       {| tecnicas := tec; tradicionales := trad; por_categoria := [] |};
     fuente_caso_base := None |}.

Definition caso_A1 : caso :=
  caso_fert "FER-0001" 6
    ["Aplicar urea 40 g por planta a los 6 MDS"; "Encalar segun acidez"]
    ["Abonar en luna menguante"].

Definition caso_A2 : caso :=
  caso_fert "FER-0002" 18
    ["Aplicar urea 60 g por planta a los 18 MDS"; " Encalar segun acidez "]
    ["Abonar en luna menguante"].

Definition caso_A3 : caso :=
  {| id := Some "BRO-0001"; tipo := Some broca;
     caso_contexto := None; caso_clima := None;
     fertilizacion_sin_suelo := None; almacigos_meta := None;
     caso_luna_fase := None; fase_fenologica := Some cosecha_poscosecha;
     caso_recomendaciones := Some
       {| tecnicas := ["Recolectar frutos maduros y sobremaduros"];
          tradicionales := []; por_categoria := [] |};
     fuente_caso_base := None |}.

Definition caso_B1 : caso :=
  {| id := Some "HIS-0001"; tipo := Some "historico";
     caso_contexto := Some
       {| ctx_ubicacion := None; ctx_altitud_msnm := Some 1735%Q;
          ctx_mes := Some "noviembre"; ctx_variedad := None;
          ctx_sombra_pct := None; ctx_edad_vivero_meses := None;
          ctx_estacion := Some "Estacion_Tambo" |};
     caso_clima := Some
       {| cli_temp_media := Some 18%Q; cli_humedad := Some 85%Q;
          cli_prec_total_mm := Some 200%Q; cli_dias_lluvia := None;
          cli_brillo_solar := None |};
     fertilizacion_sin_suelo := None; almacigos_meta := None;
     caso_luna_fase := None; fase_fenologica := None;
     caso_recomendaciones := Some
       {| tecnicas := []; tradicionales := [];
          por_categoria := [("drenaje", "Limpiar drenajes antes de las lluvias")] |};
     fuente_caso_base := None |}.

(** A tier-A case recorded with the name of its station. *)
Definition caso_A4 : caso :=
  {| id := Some "BRO-0002"; tipo := Some broca;
     caso_contexto := Some
       {| ctx_ubicacion := Some "El Tambo"; ctx_altitud_msnm := Some 1735%Q;
          ctx_mes := Some "mayo"; ctx_variedad := None;
          ctx_sombra_pct := None; ctx_edad_vivero_meses := None;
          ctx_estacion := Some "Estacion_Tambo" |};
     caso_clima := None;
     fertilizacion_sin_suelo := None; almacigos_meta := None;
     caso_luna_fase := None; fase_fenologica := Some cosecha_poscosecha;
     caso_recomendaciones := Some
       {| tecnicas := ["Recolectar frutos maduros"; "Repasar el lote"];
          tradicionales := []; por_categoria := [] |};
     fuente_caso_base := None |}.

Definition ruta_A : string := "CBR_Cafe_Cauca_A.yaml".
Definition ruta_B : string := "CBR_Cafe_Cauca_B_historicos.yaml".
Definition ruta_C : string := "CBR_Cafe_Cauca_C.yaml".

(** Both stores present, the retention target absent. *)
Definition mundo_ejemplo : mundo :=
  {| archivos :=
       <[ ruta_A := Lista [caso_A1; caso_A2; caso_A3] ]>
       (<[ ruta_B := Lista [caso_B1] ]> ∅);
     protegidos := ∅ |}.

(** The first store holds text that is not valid YAML. *)
Definition mundo_ilegible : mundo :=
  {| archivos :=
       <[ ruta_A := Ilegible ]> (<[ ruta_B := Lista [caso_B1] ]> ∅);
     protegidos := ∅ |}.

(** The default parameters of the test mode of the script. *)
Definition params_ejemplo : params :=
  {| p_data := [ruta_A; ruta_B];
     p_tipo := auto;
     p_ubicacion := Some "Popayan";
     p_altitud := Some 1678%Q;
     p_mes := Some "noviembre";
     p_variedad := Some "Castillo";
     p_sombra := Some 25%Q;
     p_temp_media := Some 17.6%Q;
     p_humedad := Some 97%Q;
     p_prec_total_mm := Some 192.2%Q;
     p_dias_lluvia := Some 18%Q;
     p_brillo_solar := Some 95%Q;
     p_meses_despues_siembra := Some 10%Q;
     p_edad_vivero_meses := Some 3%Q;
     p_luna := Some "creciente";
     p_fase := Some vivero_establecimiento;
     p_k := 3;
     p_kB := 1;
     p_usar_extras_b := true;
     p_save_case_to := Some ruta_C |}.

(** The same request without the two optional climate readings. *)
Definition params_sin_lluvia : params :=
  {| p_data := [ruta_A; ruta_B];
     p_tipo := broca;
     p_ubicacion := Some "Popayan";
     p_altitud := Some 1678%Q;
     p_mes := Some "noviembre";
     p_variedad := Some "Castillo";
     p_sombra := Some 25%Q;
     p_temp_media := Some 17.6%Q;
     p_humedad := Some 97%Q;
     p_prec_total_mm := Some 192.2%Q;
     p_dias_lluvia := None;
     p_brillo_solar := None;
     p_meses_despues_siembra := None;
     p_edad_vivero_meses := None;
     p_luna := None;
     p_fase := Some cosecha_poscosecha;
     p_k := 3;
     p_kB := 1;
     p_usar_extras_b := false;
     p_save_case_to := None |}.

Definition casos_ejemplo : list caso := [caso_A1; caso_A2; caso_A3; caso_B1].

(** ** Reference quantities for the further properties *)

(** [h1] may come before [h2] in a descending ranking. *)
Definition no_menor (h1 h2 : hit) : Prop := (fst h2 <= fst h1)%Q.

(** The hits whose score equals [s]. *)
Definition con_puntaje (s : Q) (l : list hit) : list hit :=
  filter (fun h : hit => Qeq_bool (fst h) s = true) l.

(** The scored candidates of [top_k_A] for an applicable domain. *)
Definition puntuados (trig_mes : nat -> Q * Q) (weights : pesos)
    (cases : list caso) (query_vec : vector) (domain : string) : list hit :=
  (fun c => (puntaje_A weights query_vec (extract_case_vector_A trig_mes c), c))
  <$> filter (fun c => tipo c = Some domain) cases.

(** The first occurrences of the elements of [l] that are not in [vistos],
    in the order of [l]. *)
Fixpoint sin_repetir (vistos : gset string) (l : list string) : list string :=
  match l with
  | [] => []
  | x :: l' =>
      if bool_decide (x ∈ vistos) then sin_repetir vistos l'
      else x :: sin_repetir ({[ x ]} ∪ vistos) l'
  end.

(** The stripped lines that are not empty. *)
Definition lineas_utiles (raw : list string) : list string :=
  filter (fun t => t <> "") (strip <$> raw).

(** [txt] is listed under [cat] in the grouped extras. *)
Definition en_grupo (grupos : list (string * list string)) (cat txt : string)
    : Prop :=
  exists l, (cat, l) ∈ grupos /\ txt ∈ l.

(** [e.get("categoria_b") or "general"] *)
Definition categoria_de (e : extra) : string :=
  if String.eqb (e_categoria_b e) "" then "general" else e_categoria_b e.

(** A well-formed grouping: no category twice, and under each category a
    non-empty list of distinct non-empty texts. *)
Definition grupos_ok (grupos : list (string * list string)) : Prop :=
  NoDup (fst <$> grupos) /\
  Forall (fun cl : string * list string =>
            NoDup (snd cl) /\ snd cl <> [] /\ "" ∉ snd cl) grupos.

(** The step of the loop of [agrupar_extras_B]. *)
Definition paso_grupo (grupos : list (string * list string)) (e : extra)
    : list (string * list string) :=
  let cat := if String.eqb (e_categoria_b e) "" then "general"
             else e_categoria_b e in
  let txt := strip (e_texto e) in
  if String.eqb txt "" then grupos else agregar_a_grupo cat txt grupos.

(** ** HTTP handler (api_cbr.py) *)

(** What can be raised inside the handler: the [HTTPException] it builds
    itself, with its status code, or an exception that comes out of
    [run_cbr].  Both are instances of [Exception].  The detail message is
    not modelled. *)
Inductive excepcion_api :=
  | HTTPException (status_code : nat)
  | DeCBR (e : excepcion).

Section Api.

Variable trig_mes : nat -> Q * Q.

(** The body of the [try] block of [recomendar_cbr]: the silent run, and
    the 400 raised when it gives nothing. *)
Definition cuerpo_try (w : mundo) (body : params)
    : list string * mundo * (salida + excepcion_api) :=
  let '(avisos, w', r) := run_cbr trig_mes w body false in
  match r with
  | Raise e => (avisos, w', inr (DeCBR e))
  | Ok None => (avisos, w', inr (HTTPException 400))
  | Ok (Some resultado) => (avisos, w', inl resultado)
  end.

(** [recomendar_cbr]: [except Exception] catches whatever the body raised
    and raises a 500 in its place. *)
Definition recomendar_cbr (w : mundo) (body : params)
    : list string * mundo * (salida + excepcion_api) :=
  let '(avisos, w', r) := cuerpo_try w body in
  match r with
  | inl resultado => (avisos, w', inl resultado)
  | inr _ => (avisos, w', inr (HTTPException 500))
  end.

End Api.

(** * Properties *)

Lemma Qltb_lt (x y : Q) : Qltb x y = true <-> (x < y)%Q.
Proof.
  unfold Qltb. rewrite negb_true_iff, <- not_true_iff_false, Qle_bool_iff.
  split; [apply Qnot_le_lt | apply Qlt_not_le].
Qed.

Lemma Qle_bool_false (x y : Q) : Qle_bool x y = false <-> (y < x)%Q.
Proof.
  rewrite <- not_true_iff_false, Qle_bool_iff.
  split; [apply Qnot_le_lt | apply Qlt_not_le].
Qed.

(** Turn the boolean comparisons in the context into propositions, after
    splitting on every conditional. *)
Ltac q_bool :=
  repeat match goal with
  | H : Qltb _ _ = true |- _ => apply Qltb_lt in H
  | H : Qltb _ _ = false |- _ =>
      apply not_true_iff_false in H; rewrite Qltb_lt in H
  | H : Qle_bool _ _ = true |- _ => apply Qle_bool_iff in H
  | H : Qle_bool _ _ = false |- _ => apply Qle_bool_false in H
  end.

Ltac q_casos := repeat case_match; q_bool.

Lemma mes_idx_lt_12 (mes : option string) : (mes_idx mes < 12)%nat.
Proof.
  unfold mes_idx. generalize (lower (strip (or_vacio mes))). intros m.
  unfold MESES. simpl.
  repeat (destruct (String.eqb m _); [simpl; lia|]). simpl. lia.
Qed.

(** C2. Phase resolution: a supplied (non-empty) phase is used unchanged;
    otherwise a present MDS decides (nursery up to 0.5, flowering-filling
    up to 24, harvest-postharvest above); otherwise the altitude band
    (>= 1500 m or below, 1650 m when the altitude is absent) and the month
    index pick the phase from the four-month groups. *)
Theorem fase_resolution (fase_in : option string) (altitud : option Q)
    (mes : option string) (mds : option Q) :
  (forall f, fase_in = Some f -> f <> "" ->
     fase_actual_de fase_in altitud mes mds = f) /\
  (truthy fase_in = false ->
     fase_actual_de fase_in altitud mes mds = inferir_fase altitud mes mds) /\
  (forall m, mds = Some m ->
     ((m <= 0.5)%Q -> inferir_fase altitud mes mds = vivero_establecimiento) /\
     ((0.5 < m)%Q -> (m <= 24)%Q ->
        inferir_fase altitud mes mds = floracion_llenado) /\
     ((24 < m)%Q -> inferir_fase altitud mes mds = cosecha_poscosecha)) /\
  (mds = None ->
     inferir_fase altitud mes mds =
       fase_por_tabla (Qle_bool 1500 (default 1650%Q altitud)) (mes_idx mes)) /\
  (forall i nombre, MESES !! i = Some nombre -> mes_idx (Some nombre) = i).
Proof.
  split; [|split; [|split; [|split]]].
  - intros f -> Hf. unfold fase_actual_de. simpl.
    apply String.eqb_neq in Hf. now rewrite Hf.
  - intros H. unfold fase_actual_de. now rewrite H.
  - intros m ->. simpl. repeat split.
    + intros H. apply Qle_bool_iff in H. now rewrite H.
    + intros H1 H2. apply Qle_bool_false in H1. apply Qle_bool_iff in H2.
      now rewrite H1, H2.
    + intros H.
      assert (H1 : (0.5 < m)%Q) by lra.
      apply Qle_bool_false in H1, H. now rewrite H1, H.
  - intros ->. unfold inferir_fase, fase_por_tabla.
    pose proof (mes_idx_lt_12 mes) as Hlt.
    generalize dependent (mes_idx mes). intros i Hlt.
    destruct (Qle_bool 1500 (default 1650%Q altitud));
      do 12 (destruct i as [|i]; [reflexivity|]); lia.
  - intros i nombre H.
    do 12 (destruct i as [|i]; [injection H as <-; reflexivity|]).
    discriminate.
Qed.

Lemma mds_valido_iff (mds : option Q) :
  mds_valido mds = true <-> exists m, mds = Some m /\ (1 <= m)%Q /\ (m <= 24)%Q.
Proof.
  destruct mds as [m|]; simpl.
  - rewrite andb_true_iff, !Qle_bool_iff. split.
    + intros [? ?]. now exists m.
    + intros (m' & [= <-] & ? & ?). now split.
  - split; [discriminate | intros (? & [=] & _)].
Qed.

(** C3. Applicability gate: fertilization with a present MDS in [1, 24] is
    applicable with a null reason whatever the phase; in every other case
    the gate answers whether the phase belongs to the valid-phase set of
    the domain, with a null reason when it does and the rejection reason of
    the domain when it does not. *)
Theorem dominio_aplica_gate (dominio fase : string) (mds : option Q) :
  (forall m, dominio = fertilizacion_sin_analisis -> mds = Some m ->
     (1 <= m)%Q -> (m <= 24)%Q ->
     dominio_aplica dominio fase mds = (true, None)) /\
  ((dominio <> fertilizacion_sin_analisis \/
    ~ (exists m, mds = Some m /\ (1 <= m)%Q /\ (m <= 24)%Q)) ->
     (fst (dominio_aplica dominio fase mds) = true <->
        fase ∈ fases_validas dominio) /\
     (fase ∈ fases_validas dominio ->
        dominio_aplica dominio fase mds = (true, None)) /\
     (fase ∉ fases_validas dominio ->
        dominio_aplica dominio fase mds = (false, Some (razon_de dominio)))) /\
  fases_validas almacigos = {[ vivero_establecimiento ]} /\
  fases_validas fertilizacion_sin_analisis
    = {[ vivero_establecimiento; floracion_llenado ]} /\
  fases_validas broca = {[ cosecha_poscosecha ]} /\
  (dominio <> almacigos -> dominio <> fertilizacion_sin_analisis ->
   dominio <> broca ->
     fases_validas dominio = ∅ /\ razon_de dominio = razon_por_defecto).
Proof.
  split; [|split; [|split; [|split; [|split]]]].
  - intros m -> -> H1 H2. unfold dominio_aplica.
    apply Qle_bool_iff in H1, H2. simpl. now rewrite H1, H2.
  - intros Hno.
    assert (Hguard : String.eqb dominio fertilizacion_sin_analisis
                     && mds_valido mds = false).
    { apply andb_false_iff. destruct Hno as [Hd | Hm].
      - left. now apply String.eqb_neq.
      - right. apply not_true_iff_false. now rewrite mds_valido_iff. }
    unfold dominio_aplica. rewrite Hguard.
    fold (fases_validas dominio). fold (razon_de dominio).
    repeat split.
    + simpl. apply bool_decide_eq_true_1.
    + simpl. apply bool_decide_eq_true_2.
    + intros H. now rewrite (bool_decide_eq_true_2 _ H).
    + intros H. now rewrite (bool_decide_eq_false_2 _ H).
  - reflexivity.
  - reflexivity.
  - reflexivity.
  - intros H1 H2 H3. unfold fases_validas, razon_de, APLICA_DOMINIO.
    rewrite !lookup_insert_ne by congruence. now rewrite lookup_empty.
Qed.

(** ** Similarity engine *)

Lemma clip01_range x : (0 <= clip01 x <= 1)%Q.
Proof. unfold clip01, py_max, py_min. q_casos; lra. Qed.

Lemma clip01_id x : (0 <= x <= 1)%Q -> (clip01 x == x)%Q.
Proof. intros H. unfold clip01, py_max, py_min. q_casos; lra. Qed.

#[global] Instance clip01_proper : Proper (Qeq ==> Qeq) clip01.
Proof. intros x y H. unfold clip01, py_max, py_min. q_casos; lra. Qed.

Lemma sim_numeric_range a b k s : sim_numeric a b k = Some s -> (0 <= s <= 1)%Q.
Proof.
  unfold sim_numeric. destruct a as [x|], b as [y|]; try discriminate.
  destruct (norm01 (Some x) k), (norm01 (Some y) k); try discriminate.
  intros [= <-]. apply clip01_range.
Qed.

Lemma sim_luna_range a b s : sim_luna a b = Some s -> (0 <= s <= 1)%Q.
Proof.
  unfold sim_luna. destruct (_ || _); [discriminate|].
  destruct (String.eqb _ _); [intros [= <-]; lra|].
  destruct (bool_decide _); intros [= <-]; lra.
Qed.

Lemma sim_clave_A_range q c k s : sim_clave_A q c k = Some s -> (0 <= s <= 1)%Q.
Proof.
  destruct k; simpl; [apply sim_numeric_range | apply sim_luna_range].
Qed.

(* generic accumulation *)
Lemma fold_paso_A_acc t q c n d :
  let r := fold_left (paso_A q c) t (n, d) in
  (fst r == n + numerador t q c)%Q /\ (snd r == d + denominador t q c)%Q.
Proof.
  revert n d. induction t as [|[k w] t IH]; intros n d; simpl.
  - split; ring.
  - unfold sim_definida. destruct (ausente q k); [apply IH|].
    destruct (sim_clave_A q c k) as [s|] eqn:Es; [|apply IH].
    destruct (IH (n + w * clip01 s)%Q (d + w)%Q) as [H1 H2].
    apply sim_clave_A_range in Es. 
    split; [rewrite H1 | rewrite H2]; rewrite ?clip01_id by assumption; ring.
Qed.

Lemma num_den_bounds t q c :
  Forall (fun kw : clave * Q => (0 < snd kw)%Q) t ->
  (0 <= numerador t q c <= denominador t q c)%Q.
Proof.
  induction 1 as [|[k w] t Hw _ IH]; simpl; [lra|].
  destruct (sim_definida q c k) as [s|] eqn:Es; [|exact IH].
  unfold sim_definida in Es. destruct (ausente q k); [discriminate|].
  apply sim_clave_A_range in Es. simpl in Hw. nra.
Qed.

Lemma denominador_cero t q c :
  (forall k w, (k, w) ∈ t -> sim_definida q c k = None) ->
  numerador t q c = 0%Q /\ denominador t q c = 0%Q.
Proof.
  induction t as [|[k w] t IH]; intros H; simpl; [done|].
  rewrite (H k w) by left. apply IH. intros k' w' Hin. apply (H k' w'). now right.
Qed.

Lemma cociente_eq n d n' d' :
  (n == n')%Q -> (d == d')%Q -> (cociente (n, d) == cociente (n', d'))%Q.
Proof.
  intros Hn Hd. unfold cociente.
  destruct (Qle_bool d 0) eqn:E, (Qle_bool d' 0) eqn:E'; q_bool; try lra.
  now rewrite Hn, Hd.
Qed.

Lemma cociente_range acc : (0 <= cociente acc <= 1)%Q.
Proof.
  destruct acc as [n d]. unfold cociente.
  destruct (Qle_bool d 0); [lra | apply clip01_range].
Qed.

Lemma puntaje_A_formula t q c :
  Forall (fun kw : clave * Q => (0 < snd kw)%Q) t ->
  (0 < denominador t q c)%Q ->
  (puntaje_A t q c == numerador t q c / denominador t q c)%Q.
Proof.
  intros Hpos Hden. unfold puntaje_A.
  destruct (fold_paso_A_acc t q c 0 0) as [H1 H2].
  destruct (fold_left (paso_A q c) t (0%Q, 0%Q)) as [n d]. simpl in H1, H2.
  rewrite (cociente_eq n d (numerador t q c) (denominador t q c)) by (rewrite ?H1, ?H2; ring).
  unfold cociente.
  assert (E : Qle_bool (denominador t q c) 0 = false) by (apply Qle_bool_false; lra).
  rewrite E. apply clip01_id.
  pose proof (num_den_bounds t q c Hpos) as [Hn0 Hnd].
  split.
  - apply Qle_shift_div_l; lra.
  - apply Qle_shift_div_r; lra.
Qed.

Lemma paso_A_ausente q c k w acc :
  ausente q k = true \/ ausente c k = true -> paso_A q c acc (k, w) = acc.
Proof.
  intros H. unfold paso_A. destruct acc as [n d].
  destruct (ausente q k) eqn:Eq; [reflexivity|].
  destruct H as [H|H]; [discriminate|].
  destruct k as [r|]; simpl in *.
  - apply bool_decide_eq_true_1 in H. rewrite H. unfold sim_numeric.
    now destruct (v_num q r).
  - apply bool_decide_eq_true_1 in H. rewrite H. unfold sim_luna. simpl.
    now rewrite orb_true_r.
Qed.

Lemma fold_sin_clave q c k t acc :
  ausente q k = true \/ ausente c k = true ->
  fold_left (paso_A q c) (sin_clave k t) acc = fold_left (paso_A q c) t acc.
Proof.
  intros H. revert acc. induction t as [|[k' w] t IH]; intros acc; [reflexivity|].
  unfold sin_clave. rewrite filter_cons. simpl. case_decide as Hk.
  - simpl. apply IH.
  - simpl in Hk. subst k. rewrite paso_A_ausente by assumption. apply IH.
Qed.

Lemma WEIGHTS_positivos domain weights :
  WEIGHTS !! domain = Some weights ->
  Forall (fun kw : clave * Q => (0 < snd kw)%Q) weights.
Proof.
  unfold WEIGHTS. rewrite !lookup_insert. 
  repeat case_decide; try (intros [= <-]; repeat constructor); try done.
Qed.

Lemma puntaje_A_range t q c : (0 <= puntaje_A t q c <= 1)%Q.
Proof. apply cociente_range. Qed.

Lemma base_B_como_pesos t q c : base_B t q c = puntaje_A (como_pesos t) q c.
Proof.
  unfold base_B, puntaje_A. f_equal. generalize (0%Q, 0%Q).
  induction t as [|[r w] t IH]; intros acc; [reflexivity|].
  simpl. rewrite IH. now destruct acc.
Qed.

(** C5. Renormalization law of the tier-A score: over the weight table of
    a domain the score is the weighted sum of the comparable similarities
    divided by the sum of their weights; it is 0 when nothing is
    comparable; a feature absent on both sides can be removed from the
    table without changing the score; and the score lies in [0, 1]. *)
Theorem similarity_weighted_A_renormalization
    (qvec cvec : vector) (domain : string) (weights : pesos) :
  WEIGHTS !! domain = Some weights ->
  similarity_weighted_A qvec cvec domain = Ok (puntaje_A weights qvec cvec) /\
  ((0 < denominador weights qvec cvec)%Q ->
     (puntaje_A weights qvec cvec
      == numerador weights qvec cvec / denominador weights qvec cvec)%Q) /\
  ((forall k w, (k, w) ∈ weights -> sim_definida qvec cvec k = None) ->
     puntaje_A weights qvec cvec = 0%Q) /\
  (forall k, ausente qvec k = true -> ausente cvec k = true ->
     puntaje_A weights qvec cvec = puntaje_A (sin_clave k weights) qvec cvec /\
     (numerador weights qvec cvec
      == numerador (sin_clave k weights) qvec cvec)%Q /\
     (denominador weights qvec cvec
      == denominador (sin_clave k weights) qvec cvec)%Q) /\
  (0 <= puntaje_A weights qvec cvec <= 1)%Q.
Proof.
  intros Hw. split; [|split; [|split; [|split]]].
  - unfold similarity_weighted_A. now rewrite Hw.
  - apply puntaje_A_formula. eapply WEIGHTS_positivos, Hw.
  - intros Hno. unfold puntaje_A.
    destruct (fold_paso_A_acc weights qvec cvec 0 0) as [_ H2].
    destruct (denominador_cero weights qvec cvec Hno) as [_ Hd].
    rewrite Hd in H2.
    destruct (fold_left (paso_A qvec cvec) weights (0%Q, 0%Q)) as [n d].
    simpl in H2. unfold cociente.
    assert (E : Qle_bool d 0 = true) by (apply Qle_bool_iff; lra).
    now rewrite E.
  - intros k Hq Hc. split; [|split].
    + unfold puntaje_A. rewrite fold_sin_clave; auto.
    + clear Hw. induction weights as [|[k' w] t IH]; [reflexivity|].
      unfold sin_clave. rewrite filter_cons. simpl. case_decide as Hk.
      * simpl. destruct (sim_definida qvec cvec k'); [|exact IH].
        fold (sin_clave k t). now rewrite IH.
      * simpl in Hk. subst k'. unfold sim_definida at 1. rewrite Hq. exact IH.
    + clear Hw. induction weights as [|[k' w] t IH]; [reflexivity|].
      unfold sin_clave. rewrite filter_cons. simpl. case_decide as Hk.
      * simpl. destruct (sim_definida qvec cvec k'); [|exact IH].
        fold (sin_clave k t). now rewrite IH.
      * simpl in Hk. subst k'. unfold sim_definida at 1. rewrite Hq. exact IH.
  - apply puntaje_A_range.
Qed.

(** The same law for tier B: the aggregate before the station bonus obeys
    the renormalization law over the shared table, and the final score is
    the aggregate times the bonus, within [0, 1]. *)
Lemma similarity_weighted_B_renormalization
    (qvec cvec : vector) (query_alt : option Q) :
  let weights := como_pesos WEIGHTS_B in
  let bonus :=
    station_bonus query_alt (v_estacion cvec) (v_num cvec altitud_msnm) in
  ((0 < denominador weights qvec cvec)%Q ->
     (base_B WEIGHTS_B qvec cvec
      == numerador weights qvec cvec / denominador weights qvec cvec)%Q) /\
  (forall k, ausente qvec k = true -> ausente cvec k = true ->
     base_B WEIGHTS_B qvec cvec = puntaje_A (sin_clave k weights) qvec cvec) /\
  (similarity_weighted_B qvec cvec query_alt
   == base_B WEIGHTS_B qvec cvec * bonus)%Q /\
  (0 <= similarity_weighted_B qvec cvec query_alt <= 1)%Q.
Proof.
  intros weights bonus. rewrite base_B_como_pesos. fold weights.
  split; [|split; [|split]].
  - apply puntaje_A_formula. unfold weights, como_pesos, WEIGHTS_B. simpl.
    repeat constructor.
  - intros k Hq Hc. unfold puntaje_A. rewrite fold_sin_clave; auto.
  - unfold similarity_weighted_B. rewrite base_B_como_pesos. fold weights bonus.
    apply clip01_id.
    pose proof (puntaje_A_range weights qvec cvec) as Hb.
    assert (Hbonus : (0 <= bonus <= 1)%Q).
    { unfold bonus, station_bonus. destruct query_alt; [|lra].
      destruct (match v_estacion cvec ≫= _ with Some _ => _ | None => _ end);
        [|lra].
      repeat (destruct (Qle_bool _ _); [lra|]). lra. }
    nra.
  - apply clip01_range.
Qed.

(** C6 (as stated): every tier-A weight table sums to 1.  The nursery
    table is a counterexample, it sums to 1.05. *)
Lemma pesos_almacigos_no_suman_1 :
  ~ (forall domain weights,
       WEIGHTS !! domain = Some weights -> (suma_pesos weights == 1)%Q).
Proof.
  intros H.
  assert (Ha : exists wa, WEIGHTS !! almacigos = Some wa /\ (suma_pesos wa == 1.05)%Q).
  { eexists. split; [reflexivity|]. vm_compute. reflexivity. }
  destruct Ha as (wa & Hl & Hs). specialize (H _ _ Hl). rewrite Hs in H.
  discriminate H.
Qed.

(** C6 (amended). The borer table sums to exactly 1; the nursery table
    sums to 1.05 and the fertilization table to 1.07 (without their
    lunar-phase weight, to 0.99 and to 1). *)
Theorem sumas_de_pesos :
  exists wa wf wb,
    WEIGHTS !! almacigos = Some wa /\
    WEIGHTS !! fertilizacion_sin_analisis = Some wf /\
    WEIGHTS !! broca = Some wb /\
    (suma_pesos wb == 1)%Q /\
    (suma_pesos wa == 1.05)%Q /\
    (suma_pesos wf == 1.07)%Q /\
    (suma_pesos (sin_clave luna_fase wa) == 0.99)%Q /\
    (suma_pesos (sin_clave luna_fase wf) == 1)%Q.
Proof.
  do 3 eexists. do 3 (split; [reflexivity|]).
  repeat split; vm_compute; reflexivity.
Qed.

(** The same sums in binary64 arithmetic: the borer table still gives
    exactly 1.0, the other two do not. *)
Set Warnings "-inexact-float".

Lemma sumas_de_pesos_binary64 :
  suma_binary64 (pesos_binary64 broca) = 1%float /\
  suma_binary64 (pesos_binary64 almacigos) = 1.05%float /\
  suma_binary64 (pesos_binary64 fertilizacion_sin_analisis)
    = 1.0700000000000003%float.
Proof. repeat split; vm_compute; reflexivity. Qed.

Set Warnings "+inexact-float".

(** ** Applicability gate and retrieval *)

Lemma mapM_resultado_ok {A B} (f : A -> resultado B) (g : A -> B) (l : list A) :
  (forall x, x ∈ l -> f x = Ok (g x)) -> mapM f l = Ok (g <$> l).
Proof.
  induction l as [|x l IH]; intros H; [reflexivity|].
  simpl. rewrite (H x) by left. simpl.
  rewrite IH by (intros y Hy; apply H; now right). reflexivity.
Qed.

Lemma dominio_aplica_razon (dominio fase : string) (mds : option Q) :
  fst (dominio_aplica dominio fase mds) = false ->
  dominio_aplica dominio fase mds = (false, Some (razon_de dominio)).
Proof.
  unfold dominio_aplica. fold (fases_validas dominio). fold (razon_de dominio).
  destruct (_ && _); [discriminate|]. simpl. now intros ->.
Qed.

Lemma dominio_aplica_conocido (dominio fase : string) (mds : option Q) :
  fst (dominio_aplica dominio fase mds) = true ->
  dominio_aplica dominio fase mds = (true, None) /\
  is_Some (WEIGHTS !! dominio).
Proof.
  unfold dominio_aplica, APLICA_DOMINIO, WEIGHTS.
  destruct (String.eqb_spec dominio almacigos) as [->|H1].
  { destruct (_ && _); [now split; eauto|]. simpl. intros ->. split; eauto. }
  destruct (String.eqb_spec dominio fertilizacion_sin_analisis) as [->|H2].
  { destruct (mds_valido mds); simpl; [now split; eauto|]. intros ->. split; eauto. }
  destruct (String.eqb_spec dominio broca) as [->|H3].
  { simpl. intros ->. split; eauto. }
  simpl. rewrite !lookup_insert_ne by congruence. rewrite lookup_empty. simpl.
  intros H. apply bool_decide_eq_true_1 in H. set_solver.
Qed.

Section Recuperacion.

Variable trig_mes : nat -> Q * Q.

Lemma top_k_A_aplica cases query_vec domain k fase_actual mds :
  fst (dominio_aplica domain fase_actual mds) = true ->
  exists weights,
    WEIGHTS !! domain = Some weights /\
    top_k_A trig_mes cases query_vec domain k fase_actual mds =
      Ok (primeros k
            (ordenar_desc
               ((fun c => (puntaje_A weights query_vec
                             (extract_case_vector_A trig_mes c), c))
                <$> filter (fun c => tipo c = Some domain) cases)),
          {| m_aplica := true; m_razon_no_aplica := None |}).
Proof.
  intros H. destruct (dominio_aplica_conocido _ _ _ H) as [Ha [weights Hw]].
  exists weights. split; [assumption|].
  unfold top_k_A, top_k_A_con. rewrite Ha. simpl.
  erewrite mapM_resultado_ok; [reflexivity|].
  intros c _. unfold similarity_weighted_A. now rewrite Hw.
Qed.

Lemma top_k_A_total cases query_vec domain k fase_actual mds :
  exists klist meta,
    top_k_A trig_mes cases query_vec domain k fase_actual mds = Ok (klist, meta) /\
    m_aplica meta = fst (dominio_aplica domain fase_actual mds) /\
    m_razon_no_aplica meta = snd (dominio_aplica domain fase_actual mds).
Proof.
  destruct (fst (dominio_aplica domain fase_actual mds)) eqn:E.
  - destruct (top_k_A_aplica cases query_vec domain k fase_actual mds E)
      as (weights & _ & ->).
    do 2 eexists. split; [reflexivity|]. simpl.
    apply dominio_aplica_conocido in E as [-> _]. now split.
  - pose proof (dominio_aplica_razon _ _ _ E) as Hr.
    unfold top_k_A, top_k_A_con. rewrite Hr. simpl.
    do 2 eexists. split; [reflexivity|]. now split.
Qed.

End Recuperacion.

(** ** Orchestrator *)

Lemma buscar_dom_fusionar (mds : option Q) (h : string -> list hit * meta)
    (l : list string) (dom : string) :
  dom ∈ l ->
  buscar_dom dom (fusionar mds ((fun d => (d, h d)) <$> l)) =
    Some (resultado_de_dominio dom (fst (h dom)) (snd (h dom)) mds).
Proof.
  induction l as [|d l IH]; intros Hin; [by apply elem_of_nil in Hin|].
  simpl. destruct (String.eqb_spec d dom) as [->|Hne]; [reflexivity|].
  apply IH. apply elem_of_cons in Hin as [->|Hin]; [congruence | assumption].
Qed.

Section Respuesta.

Variable trig_mes : nat -> Q * Q.

Lemma recuperar_ok (cases : list caso) (p : params) :
  recuperar trig_mes cases p =
    Ok ((fun dom => (dom, recuperado trig_mes cases p dom)) <$> dominios_de p).
Proof.
  unfold recuperar. apply mapM_resultado_ok. intros dom _.
  unfold recuperado.
  destruct (top_k_A_total trig_mes cases (extract_input_vector trig_mes p) dom
              (p_k p) (fase_de p) (p_meses_despues_siembra p))
    as (klist & meta & -> & _).
  reflexivity.
Qed.

(** The pipeline never raises: it returns the assembled response. *)
Lemma pipeline_ok (w : mundo) (p : params) (cases : list caso) :
  exists avisos w' out,
    pipeline trig_mes w p cases = (avisos, w', Ok out) /\
    (avisos, w', saved_case_id out) =
      retener w p (fase_de p) (resultados_A out) /\
    resultados_A out =
      fusionar (p_meses_despues_siembra p)
        ((fun dom => (dom, recuperado trig_mes cases p dom)) <$> dominios_de p) /\
    q_fase (s_consulta out) = fase_de p.
Proof.
  unfold pipeline. rewrite recuperar_ok.
  destruct (retener w p (fase_de p) _) as [[avisos w'] saved] eqn:E.
  do 3 eexists. split; [reflexivity|]. simpl. rewrite E. done.
Qed.

(** C4. A domain judged inapplicable in the current phase: whatever the
    similarity function would do, it is not consulted and the hits are
    empty, the metadata carries the rejection reason of the domain, and
    the fused recommendations are empty whatever the hits; this is what the
    response holds for the domain. *)
Theorem dominio_inaplicable (sim : vector -> vector -> string -> resultado Q)
    (w : mundo) (p : params) (cases : list caso) (domain : string) :
  fst (dominio_aplica domain (fase_de p) (p_meses_despues_siembra p)) = false ->
  let meta :=
    {| m_aplica := false; m_razon_no_aplica := Some (razon_de domain) |} in
  (forall query_vec k,
     top_k_A_con trig_mes sim cases query_vec domain k (fase_de p)
       (p_meses_despues_siembra p) = Ok ([], meta)) /\
  (forall klist,
     r_recomendaciones
       (resultado_de_dominio domain klist meta (p_meses_despues_siembra p))
     = {| tecnicas := []; tradicionales := []; por_categoria := [] |}) /\
  (domain ∈ dominios_de p ->
     exists avisos w' out,
       pipeline trig_mes w p cases = (avisos, w', Ok out) /\
       buscar_dom domain (resultados_A out) =
         Some {| r_hits := [];
                 r_recomendaciones :=
                   {| tecnicas := []; tradicionales := []; por_categoria := [] |};
                 r_aplicabilidad := meta |}).
Proof.
  intros Hno meta. pose proof (dominio_aplica_razon _ _ _ Hno) as Hr.
  split; [|split].
  - intros query_vec k. unfold top_k_A_con. now rewrite Hr.
  - reflexivity.
  - intros Hin.
    destruct (pipeline_ok w p cases) as (avisos & w' & out & Hp & _ & Hres & _).
    exists avisos, w', out. split; [assumption|].
    rewrite Hres, buscar_dom_fusionar by assumption.
    unfold recuperado, top_k_A, top_k_A_con. rewrite Hr. reflexivity.
Qed.

End Respuesta.

(** ** Loader *)

Lemma load_cases_desde_legibles (w : mundo) (paths : list string)
    (cases : list caso) (avisos : list string) :
  Forall (fun pth => archivos w !! pth <> Some Ilegible) paths ->
  load_cases_desde w paths cases avisos =
    ((avisos ++ avisos_de w paths)%list, Ok (cases ++ casos_de w paths)%list).
Proof.
  intros H. revert cases avisos.
  induction H as [|pth paths Hp _ IH]; intros cases avisos.
  - simpl. unfold casos_de. simpl. now rewrite !app_nil_r.
  - simpl. unfold casos_de, avisos_de, cases_existing_de. simpl.
    destruct (archivos w !! pth) as [[| |data]|] eqn:E; simpl.
    + congruence.
    + rewrite IH. now rewrite <- app_assoc.
    + rewrite IH. now rewrite <- app_assoc.
    + rewrite IH. now rewrite <- app_assoc.
Qed.

Lemma load_cases_desde_ilegible (w : mundo) (antes despues : list string)
    (pth : string) (cases : list caso) (avisos : list string) :
  Forall (fun pth => archivos w !! pth <> Some Ilegible) antes ->
  archivos w !! pth = Some Ilegible ->
  load_cases_desde w (antes ++ pth :: despues) cases avisos =
    ((avisos ++ avisos_de w antes)%list, Raise (ErrorLectura pth)).
Proof.
  intros H Hp. revert cases avisos.
  induction H as [|q antes Hq _ IH]; intros cases avisos.
  - simpl. rewrite Hp. unfold avisos_de. simpl. now rewrite app_nil_r.
  - simpl. unfold avisos_de. simpl.
    destruct (archivos w !! q) as [[| |data]|] eqn:E; simpl.
    + congruence.
    + rewrite IH. now rewrite <- app_assoc.
    + rewrite IH. reflexivity.
    + rewrite IH. now rewrite <- app_assoc.
Qed.

(** The part of the loader policy the code implements: sources that are
    missing or hold something else than a sequence are skipped with a
    warning, and [run_cbr] returns no response exactly when nothing was
    loaded. *)
Lemma load_cases_legibles (w : mundo) (paths : list string) :
  Forall (fun pth => archivos w !! pth <> Some Ilegible) paths ->
  load_cases w paths = (avisos_de w paths, Ok (casos_de w paths)).
Proof. intros H. unfold load_cases. now rewrite load_cases_desde_legibles. Qed.

Section Ejecucion.

Variable trig_mes : nat -> Q * Q.

Lemma run_cbr_cargados (w : mundo) (p : params) (verbose : bool)
    (avisos : list string) (cases : list caso) :
  load_cases w (p_data p) = (avisos, Ok cases) ->
  (cases = [] ->
     run_cbr trig_mes w p verbose = ((avisos ++ [aviso_sin_casos])%list, w, Ok None)) /\
  (cases <> [] ->
     exists avisos' w' out,
       pipeline trig_mes w p cases = (avisos', w', Ok out) /\
       run_cbr trig_mes w p verbose =
         ((avisos ++ avisos')%list, w',
          if verbose then Raise (UnboundLocalError "output")
          else Ok (Some out))).
Proof.
  intros Hl. unfold run_cbr. rewrite Hl. split.
  - now intros ->.
  - intros Hne. destruct cases as [|c cases]; [done|].
    destruct (pipeline_ok trig_mes w p (c :: cases))
      as (avisos' & w' & out & Hp & _).
    exists avisos', w', out. split; [assumption|]. rewrite Hp.
    now destruct verbose.
Qed.

(** C10. With [verbose] set, [run_cbr] never returns the assembled
    response: whenever cases load and are not empty it raises on the read
    of [output] at the end of the summary, after retention has left the
    stores as the silent run leaves them; the silent run returns the
    response. *)
Theorem run_cbr_verbose (w : mundo) (p : params) :
  (forall avisos w' out,
     run_cbr trig_mes w p true <> (avisos, w', Ok (Some out))) /\
  (forall avisos cases,
     load_cases w (p_data p) = (avisos, Ok cases) -> cases <> [] ->
     exists avisos' w' out,
       run_cbr trig_mes w p true =
         (avisos', w', Raise (UnboundLocalError "output")) /\
       run_cbr trig_mes w p false = (avisos', w', Ok (Some out))).
Proof.
  split.
  - intros avisos w' out.
    destruct (load_cases w (p_data p)) as [av [cases|e]] eqn:Hl.
    + destruct (run_cbr_cargados w p true av cases Hl) as [H0 H1].
      destruct cases as [|c cases].
      * rewrite H0 by reflexivity. congruence.
      * destruct H1 as (? & ? & ? & _ & ->); [done|]. congruence.
    + unfold run_cbr. rewrite Hl. congruence.
  - intros avisos cases Hl Hne.
    destruct (run_cbr_cargados w p true avisos cases Hl) as [_ Ht].
    destruct (run_cbr_cargados w p false avisos cases Hl) as [_ Hf].
    destruct (Ht Hne) as (a1 & w1 & o1 & Hp1 & ->).
    destruct (Hf Hne) as (a2 & w2 & o2 & Hp2 & ->).
    rewrite Hp1 in Hp2. injection Hp2 as <- <- <-.
    now exists (avisos ++ a1)%list, w1, o1.
Qed.

End Ejecucion.

(** C7 (the code at a failing input). The first store exists but cannot
    be parsed, the second holds one case: the loader raises instead of
    skipping the first store, and so does the whole request. *)
Theorem load_cases_fuente_ilegible :
  load_cases mundo_ilegible [ruta_A; ruta_B] = ([], Raise (ErrorLectura ruta_A)) /\
  casos_de mundo_ilegible [ruta_A; ruta_B] = [caso_B1] /\
  forall verbose,
    run_cbr trig_ejemplo mundo_ilegible params_ejemplo verbose =
      ([], mundo_ilegible, Raise (ErrorLectura ruta_A)).
Proof.
  split; [reflexivity|]. split; [reflexivity|]. intros verbose. reflexivity.
Qed.

(** ** Retention *)

Lemma formato_04d_cuatro_digitos (n : nat) :
  (n < 10000)%nat -> formato_04d n = cuatro_digitos n.
Proof.
  intros H.
  assert (Hall : forallb (fun m => String.eqb (formato_04d m) (cuatro_digitos m))
                   (seq 0 10000) = true) by (vm_compute; reflexivity).
  rewrite forallb_forall in Hall.
  apply String.eqb_eq, Hall, in_seq. lia.
Qed.

Lemma string_length_app (s1 s2 : string) :
  String.length (s1 ++ s2) = (String.length s1 + String.length s2)%nat.
Proof. induction s1 as [|c s1 IH]; simpl; [reflexivity | now rewrite IH]. Qed.

Lemma formato_04d_length (n : nat) : (4 <= String.length (formato_04d n))%nat.
Proof.
  unfold formato_04d. rewrite string_length_app.
  generalize (decimal n). intros d.
  assert (H : forall k, String.length (ceros k) = k).
  { induction k as [|k IH]; simpl; [reflexivity | now rewrite IH]. }
  rewrite H. lia.
Qed.

(** C8 (as stated): the id always has four digits.  A store that holds
    9999 records is a counterexample: the next id is NEW-10000. *)
Lemma id_NEW_10000 :
  let w := {| archivos := {[ ruta_C := Lista (replicate 9999 caso_vacio) ]};
              protegidos := ∅ |} in
  exists w',
    append_case_to_yaml w ruta_C caso_vacio = Ok ("NEW-10000", w') /\
    ~ (exists d, String.length d = 4%nat /\ "NEW-10000" = "NEW-" ++ d).
Proof.
  intros w. eexists. split.
  - vm_compute. reflexivity.
  - intros (d & Hd & Heq). cbv in Heq. injection Heq as <-. discriminate.
Qed.

(** C8 (amended). The new id is NEW- followed by the successor of the
    number of records read back from the target store (none when the store
    is missing, unreadable or not a sequence), in decimal and zero-padded
    to at least four digits: exactly the four digits of the successor
    below 10000.  The store is rewritten as the records read back followed
    by the new case, other stores untouched. *)
Theorem append_case_to_yaml_id (w : mundo) (save_path : string) (new_case : caso) :
  save_path ∉ protegidos w ->
  let existentes := cases_existing_de w save_path in
  let siguiente := (length existentes + 1)%nat in
  let nuevo_id := "NEW-" ++ formato_04d siguiente in
  (exists w',
     append_case_to_yaml w save_path new_case = Ok (nuevo_id, w') /\
     archivos w' !! save_path =
       Some (Lista (existentes ++ [con_id new_case (Some nuevo_id)])) /\
     (forall otra, otra <> save_path -> archivos w' !! otra = archivos w !! otra)) /\
  ((siguiente < 10000)%nat -> formato_04d siguiente = cuatro_digitos siguiente) /\
  (4 <= String.length (formato_04d siguiente))%nat /\
  (existentes = [] -> nuevo_id = "NEW-0001") /\
  (length existentes = 3%nat -> nuevo_id = "NEW-0004") /\
  (archivos w !! save_path = None \/
   archivos w !! save_path = Some Ilegible \/
   archivos w !! save_path = Some NoLista -> existentes = []) /\
  (forall data, archivos w !! save_path = Some (Lista data) -> existentes = data).
Proof.
  intros Hw existentes siguiente nuevo_id.
  split; [|split; [|split; [|split; [|split; [|split]]]]].
  - eexists. split.
    + unfold append_case_to_yaml. rewrite bool_decide_eq_false_2 by assumption.
      reflexivity.
    + simpl. split; [apply lookup_insert_eq|].
      intros otra Hne. now apply lookup_insert_ne.
  - apply formato_04d_cuatro_digitos.
  - apply formato_04d_length.
  - intros H. unfold nuevo_id, siguiente. now rewrite H.
  - intros H. unfold nuevo_id, siguiente. now rewrite H.
  - unfold existentes, cases_existing_de. now intros [-> | [-> | ->]].
  - unfold existentes, cases_existing_de. now intros data ->.
Qed.

(** C9 (as stated): with the selector auto the retained case carries the
    fertilization tag.  On the sample request the retained case is tagged
    auto. *)
Lemma retenido_con_tipo_auto :
  exists avisos w' out retenido,
    run_cbr trig_ejemplo mundo_ejemplo params_ejemplo false
      = (avisos, w', Ok (Some out)) /\
    archivos w' !! ruta_C = Some (Lista [retenido]) /\
    tipo retenido = Some auto /\
    tipo retenido <> Some fertilizacion_sin_analisis.
Proof.
  do 4 eexists. split; [vm_compute; reflexivity|].
  split; [vm_compute; reflexivity|]. split; [reflexivity | discriminate].
Qed.

Section Retencion.

Variable trig_mes : nat -> Q * Q.

(** C9 (amended). With the selector auto and a writable retention target,
    the retained case carries the fused fertilization recommendations of
    the response and both the fertilization and the nursery payloads of
    the query; its domain tag is the selector itself, auto. *)
Theorem retencion_auto (w : mundo) (p : params) (cases : list caso)
    (save_path : string) :
  p_tipo p = auto ->
  p_save_case_to p = Some save_path -> save_path <> "" ->
  save_path ∉ protegidos w ->
  exists avisos w' out nuevo_id retenido fert,
    pipeline trig_mes w p cases = (avisos, w', Ok out) /\
    saved_case_id out = Some nuevo_id /\
    archivos w' !! save_path
      = Some (Lista (cases_existing_de w save_path ++ [retenido])) /\
    id retenido = Some nuevo_id /\
    buscar_dom fertilizacion_sin_analisis (resultados_A out) = Some fert /\
    caso_recomendaciones retenido = Some (r_recomendaciones fert) /\
    tipo retenido = Some auto /\
    fertilizacion_sin_suelo retenido = Some (p_meses_despues_siembra p) /\
    almacigos_meta retenido = Some (p_edad_vivero_meses p).
Proof.
  intros Htipo Hsave Hne Hw.
  destruct (pipeline_ok trig_mes w p cases)
    as (avisos & w' & out & Hp & Hret & Hres & _).
  assert (Hin : fertilizacion_sin_analisis ∈ dominios_de p).
  { unfold dominios_de. rewrite Htipo. simpl. set_solver. }
  pose proof (buscar_dom_fusionar (p_meses_despues_siembra p)
                (recuperado trig_mes cases p) _ _ Hin) as Hb.
  rewrite <- Hres in Hb.
  unfold retener in Hret. rewrite Hsave in Hret. simpl in Hret.
  apply String.eqb_neq in Hne. rewrite Hne in Hret. simpl in Hret.
  unfold append_case_to_yaml in Hret.
  rewrite bool_decide_eq_false_2 in Hret by assumption.
  injection Hret as -> -> Hid.
  do 6 eexists. split; [exact Hp|]. split; [exact Hid|].
  split; [apply lookup_insert_eq|]. split; [reflexivity|].
  split; [exact Hb|]. simpl. rewrite Htipo. simpl. rewrite Hb. done.
Qed.

End Retencion.

(** ** MDS marker *)

Lemma string_app_nil (b : string) : "" ++ b = b.
Proof. reflexivity. Qed.

Lemma string_app_cons (c : ascii) (a b : string) :
  String c a ++ b = String c (a ++ b).
Proof. reflexivity. Qed.

Lemma string_app_assoc (a b c : string) : (a ++ b) ++ c = a ++ (b ++ c).
Proof.
  induction a as [|x a IH]; [reflexivity|].
  now rewrite !string_app_cons, IH.
Qed.

Lemma re_search_None (en : string -> option Q) (pre s : string) :
  re_search en (pre ++ s) = None -> en s = None.
Proof.
  induction pre as [|c pre IH].
  - rewrite string_app_nil. destruct s; cbn; destruct (en _); congruence.
  - rewrite string_app_cons. cbn.
    destruct (en (String c (pre ++ s))); [discriminate | exact IH].
Qed.

Lemma re_search_Some (en : string -> option Q) (s : string) (v : Q) :
  re_search en s = Some v -> exists pre s', s = pre ++ s' /\ en s' = Some v.
Proof.
  induction s as [|c s IH]; cbn.
  - destruct (en "") eqn:E; [|discriminate]. intros [= ->]. now exists "", "".
  - destruct (en (String c s)) eqn:E.
    + intros [= ->]. now exists "", (String c s).
    + intros H. destruct (IH H) as (pre & s' & -> & Hs').
      now exists (String c pre), s'.
Qed.

Lemma lstrip_sufijo (r : string) : exists pre, r = pre ++ lstrip r.
Proof.
  induction r as [|c r [pre IH]]; cbn.
  - now exists "".
  - destruct (py_isspace c); [|now exists ""].
    exists (String c pre). now rewrite string_app_cons, <- IH.
Qed.

Lemma quitar_prefijo_Some (p s r : string) :
  quitar_prefijo p s = Some r -> s = p ++ r.
Proof.
  revert s. induction p as [|a p IH]; intros s; cbn.
  - now intros [= ->].
  - destruct s as [|b s]; [discriminate|].
    destruct (Ascii.eqb_spec a b) as [->|]; [|discriminate].
    intros H. now rewrite string_app_cons, <- (IH _ H).
Qed.

(** The second textual form never adds a match: wherever it matches, the
    first form matches at the digits. *)
Lemma extraer_mds_de_texto_primera_forma (txt : string) :
  extraer_mds_de_texto txt = re_search marcador_en txt.
Proof.
  unfold extraer_mds_de_texto.
  destruct (re_search marcador_en txt) as [v|] eqn:E1; [reflexivity|].
  destruct (re_search marcador_le_en txt) as [v|] eqn:E2; [|reflexivity].
  exfalso. apply re_search_Some in E2 as (pre & s' & -> & Hs').
  unfold marcador_le_en in Hs'.
  destruct (quitar_prefijo "≤" s') as [r|] eqn:Hq; [|discriminate].
  apply quitar_prefijo_Some in Hq. destruct (lstrip_sufijo r) as [pre2 Hr].
  rewrite Hq, Hr, <- !string_app_assoc in E1.
  apply re_search_None in E1. congruence.
Qed.

Example extraer_mds_de_texto_ejemplos :
  extraer_mds_de_texto "Aplicar urea 40 g por planta a los 6 MDS" = Some 6%Q /\
  extraer_mds_de_texto "DAP 20 g hasta ≤ 12MDS" = Some 12%Q /\
  extraer_mds_de_texto "NPK 17-6-18, 50 g" = None /\
  extraer_componentes "Mezclar DAP y kcl" = ["dap"; "kcl"].
Proof. repeat split; vm_compute; reflexivity. Qed.

Lemma digitos_spec (s d r : string) :
  digitos s = (d, r) -> s = d ++ r /\ todos_digitos d = true.
Proof.
  revert d r. induction s as [|c s IH]; intros d r; cbn [digitos].
  - intros [= <- <-]. now split.
  - destruct (py_isdigit c) eqn:E.
    + destruct (digitos s) as [d' r'] eqn:Hd. intros [= <- <-].
      destruct (IH d' r' eq_refl) as [-> Ht]. split; [reflexivity|].
      cbn [todos_digitos]. now rewrite E, Ht.
    + intros [= <- <-]. now split.
Qed.

Lemma digitos_app (d r : string) (c : ascii) :
  todos_digitos d = true -> py_isdigit c = false ->
  digitos (d ++ String c r) = (d, String c r).
Proof.
  intros Hd Hc. induction d as [|x d IH].
  - rewrite string_app_nil. cbn [digitos]. now rewrite Hc.
  - cbn [todos_digitos] in Hd. apply andb_true_iff in Hd as [Hx Hd].
    rewrite string_app_cons. cbn [digitos]. now rewrite Hx, (IH Hd).
Qed.

Lemma marcador_en_Some (s : string) (v : Q) :
  marcador_en s = Some v ->
  exists d r,
    s = d ++ r /\ d <> "" /\ todos_digitos d = true /\
    String.prefix "MDS" (lstrip r) = true /\ v = valor_decimal d.
Proof.
  unfold marcador_en. destruct (digitos s) as [d r] eqn:Hd.
  destruct (String.eqb_spec d ""); [discriminate|].
  destruct (String.prefix "MDS" (lstrip r)) eqn:Hp; [|discriminate].
  intros [= <-]. apply digitos_spec in Hd as [-> Ht].
  exists d, r. done.
Qed.

(** What follows the digits of a marker does not start with a digit. *)
Lemma resto_de_marcador (r : string) :
  String.prefix "MDS" (lstrip r) = true ->
  exists c r', r = String c r' /\ py_isdigit c = false.
Proof.
  destruct r as [|c r']; [discriminate|]. intros H. exists c, r'.
  split; [reflexivity|]. cbn [lstrip] in H.
  destruct (py_isspace c) eqn:Es.
  - unfold py_isspace, py_isdigit in *.
    destruct (48 <=? nat_of_ascii c)%nat eqn:E1; [|reflexivity].
    destruct (nat_of_ascii c <=? 57)%nat eqn:E2; [|reflexivity].
    apply Nat.leb_le in E1, E2. exfalso.
    apply orb_true_iff in Es as [Es | Es];
      apply andb_true_iff in Es as [Ea Eb]; apply Nat.leb_le in Ea, Eb; lia.
  - cbn [String.prefix] in H.
    destruct (ascii_dec "M" c) as [<-|]; [reflexivity | discriminate].
Qed.

Lemma marcador_en_iff (s : string) (m : Q) :
  marcador_en s = Some m <-> marcador_al_inicio s m.
Proof.
  split; [apply marcador_en_Some|].
  intros (d & r & -> & Hne & Hd & Hp & ->).
  destruct (resto_de_marcador r Hp) as (c & r' & -> & Hc).
  unfold marcador_en. rewrite digitos_app by assumption.
  apply String.eqb_neq in Hne. now rewrite Hne, Hp.
Qed.

(** [re.search] gives the match at the leftmost position that has one. *)
Lemma re_search_primero (en : string -> option Q) (s : string) (v : Q) :
  re_search en s = Some v <->
  exists pre s',
    s = pre ++ s' /\ en s' = Some v /\
    forall pre1 pre2, pre = pre1 ++ pre2 -> pre2 <> "" -> en (pre2 ++ s') = None.
Proof.
  split.
  - induction s as [|c s IH].
    + cbn [re_search]. destruct (en "") as [v'|] eqn:E; [|discriminate].
      intros [= ->]. exists "", "". split; [reflexivity|]. split; [assumption|].
      intros pre1 pre2 H Hne. destruct pre1; [|discriminate].
      rewrite string_app_nil in H. congruence.
    + cbn [re_search]. destruct (en (String c s)) as [v'|] eqn:E.
      * intros [= ->]. exists "", (String c s). split; [reflexivity|].
        split; [assumption|]. intros pre1 pre2 H Hne.
        destruct pre1; [|discriminate]. rewrite string_app_nil in H. congruence.
      * intros H. destruct (IH H) as (pre & s' & -> & Hs' & Hmin).
        exists (String c pre), s'. split; [reflexivity|]. split; [assumption|].
        intros pre1 pre2 Hp Hne. destruct pre1 as [|x pre1].
        -- rewrite string_app_nil in Hp. subst pre2. exact E.
        -- rewrite string_app_cons in Hp. injection Hp as _ Hp.
           exact (Hmin pre1 pre2 Hp Hne).
  - intros (pre & s' & -> & Hs' & Hmin). induction pre as [|c pre IH].
    + rewrite string_app_nil. destruct s'; cbn [re_search]; now rewrite Hs'.
    + rewrite string_app_cons. cbn [re_search].
      assert (E : en (String c (pre ++ s')) = None).
      { rewrite <- string_app_cons. apply (Hmin "" (String c pre));
          [reflexivity | discriminate]. }
      rewrite E. apply IH. intros pre1 pre2 Hp Hne.
      apply (Hmin (String c pre1) pre2); [|assumption].
      rewrite string_app_cons. now f_equal.
Qed.

(** The marker a line is parsed to is the value of its leftmost marker. *)
Lemma extraer_mds_de_texto_primer_marcador (txt : string) (m : Q) :
  extraer_mds_de_texto txt = Some m <-> primer_marcador txt m.
Proof.
  rewrite extraer_mds_de_texto_primera_forma, re_search_primero.
  unfold primer_marcador. split.
  - intros (pre & s & -> & Hs & Hmin). exists pre, s.
    split; [reflexivity|]. split; [now apply marcador_en_iff|].
    intros pre1 pre2 m' Hp Hne Hm'. apply marcador_en_iff in Hm'.
    rewrite (Hmin pre1 pre2 Hp Hne) in Hm'. discriminate.
  - intros (pre & s & -> & Hs & Hmin). exists pre, s.
    split; [reflexivity|]. split; [now apply marcador_en_iff|].
    intros pre1 pre2 Hp Hne.
    destruct (marcador_en (pre2 ++ s)) as [m'|] eqn:E; [|reflexivity].
    apply marcador_en_iff in E. exfalso. exact (Hmin pre1 pre2 m' Hp Hne E).
Qed.

Lemma primer_marcador_funcional (txt : string) (m m' : Q) :
  primer_marcador txt m -> primer_marcador txt m' -> m = m'.
Proof.
  rewrite <- !extraer_mds_de_texto_primer_marcador. congruence.
Qed.

Lemma extraer_mds_de_texto_sin_marcador (txt : string) :
  extraer_mds_de_texto txt = None <-> forall m, ~ primer_marcador txt m.
Proof.
  split.
  - intros H m Hm. apply extraer_mds_de_texto_primer_marcador in Hm. congruence.
  - intros H. destruct (extraer_mds_de_texto txt) as [m|] eqn:E; [|reflexivity].
    apply extraer_mds_de_texto_primer_marcador in E. now apply H in E.
Qed.

(** ** Fertilization fusion *)

Lemma mejor_de_idem (o : option (Q * string)) (x : Q * string) :
  mejor_de (mejor_de o x) x = mejor_de o x.
Proof.
  destruct o as [a|]; simpl.
  - destruct (Qltb (fst x) (fst a)) eqn:E; simpl.
    + assert (H : Qltb (fst x) (fst x) = false).
      { apply not_true_iff_false. rewrite Qltb_lt. apply Qlt_irrefl. }
      now rewrite H.
    + now rewrite E.
  - assert (H : Qltb (fst x) (fst x) = false).
    { apply not_true_iff_false. rewrite Qltb_lt. apply Qlt_irrefl. }
    now rewrite H.
Qed.

Lemma paso_comp_lookup (dist : Q) (texto : string)
    (m : gmap string (Q * string)) (comp c : string) :
  paso_comp dist texto m comp !! c =
    if decide (c = comp) then mejor_de (m !! c) (dist, texto) else m !! c.
Proof.
  unfold paso_comp. case_decide as Hc.
  - subst c. destruct (m !! comp) as [a|] eqn:E; simpl.
    + destruct (Qltb dist (fst a)); [apply lookup_insert_eq | exact E].
    + apply lookup_insert_eq.
  - destruct (m !! comp) as [a|]; simpl.
    + destruct (Qltb dist (fst a)); [now apply lookup_insert_ne | reflexivity].
    + now apply lookup_insert_ne.
Qed.

Lemma fold_paso_comp_lookup (dist : Q) (texto : string) (comps : list string)
    (m : gmap string (Q * string)) (c : string) :
  fold_left (paso_comp dist texto) comps m !! c =
    if decide (c ∈ comps) then mejor_de (m !! c) (dist, texto) else m !! c.
Proof.
  revert m. induction comps as [|comp comps IH]; intros m; cbn [fold_left].
  - rewrite decide_False by apply not_elem_of_nil. reflexivity.
  - rewrite IH, paso_comp_lookup.
    destruct (decide (c = comp)) as [->|Hne].
    + rewrite (decide_True (P := comp ∈ comp :: comps)) by left.
      case_decide; [apply mejor_de_idem | reflexivity].
    + case_decide as H1; case_decide as H2; try reflexivity.
      * exfalso. apply H2. now right.
      * exfalso. apply elem_of_cons in H2 as [?|?]; [congruence | contradiction].
Qed.

Lemma es_primer_minimo_unico (x y : Q * string) (l : list (Q * string)) :
  es_primer_minimo x l -> es_primer_minimo y l -> x = y.
Proof.
  intros (a1 & d1 & -> & Ha1 & Hd1) (a2 & d2 & Heq & Ha2 & Hd2).
  destruct (Nat.lt_trichotomy (length a1) (length a2)) as [Hlt | [Hel | Hgt]].
  - (* x lies before y *)
    assert (Hx : x ∈ a2).
    { apply list_elem_of_lookup. exists (length a1).
      rewrite <- (lookup_app_l a2 (y :: d2)) by assumption.
      rewrite <- Heq. now rewrite list_lookup_middle. }
    assert (Hy : y ∈ d1).
    { assert (H : (a1 ++ x :: d1)%list !! length a2 = Some y)
        by (rewrite Heq; now rewrite list_lookup_middle).
      rewrite lookup_app_r in H by lia.
      destruct (length a2 - length a1)%nat as [|n] eqn:En; [lia|].
      simpl in H. apply list_elem_of_lookup. eauto. }
    rewrite Forall_forall in Ha2, Hd1.
    specialize (Ha2 _ Hx). specialize (Hd1 _ Hy). lra.
  - assert (H : (a1 ++ x :: d1)%list !! length a1 = Some y)
      by (rewrite Heq, Hel; now rewrite list_lookup_middle).
    rewrite list_lookup_middle in H by reflexivity. congruence.
  - assert (Hy : y ∈ a1).
    { apply list_elem_of_lookup. exists (length a2).
      rewrite <- (lookup_app_l a1 (x :: d1)) by assumption.
      rewrite Heq. now rewrite list_lookup_middle. }
    assert (Hx : x ∈ d2).
    { assert (H : (a2 ++ y :: d2)%list !! length a1 = Some x)
        by (rewrite <- Heq; now rewrite list_lookup_middle).
      rewrite lookup_app_r in H by lia.
      destruct (length a1 - length a2)%nat as [|n] eqn:En; [lia|].
      simpl in H. apply list_elem_of_lookup. eauto. }
    rewrite Forall_forall in Ha1, Hd2.
    specialize (Ha1 _ Hy). specialize (Hd2 _ Hx). lra.
Qed.

Lemma es_primer_minimo_snoc (o : option (Q * string)) (l : list (Q * string))
    (x : Q * string) :
  match o with
  | None => l = []
  | Some a => es_primer_minimo a l
  end ->
  exists b, mejor_de o x = Some b /\ es_primer_minimo b (l ++ [x])%list.
Proof.
  destruct o as [a|]; simpl.
  - intros (antes & despues & -> & Ha & Hd).
    destruct (Qltb (fst x) (fst a)) eqn:E.
    + apply Qltb_lt in E. exists x. split; [reflexivity|].
      exists (antes ++ a :: despues)%list, []. split; [reflexivity|]. split; [|constructor].
      apply Forall_app. split.
      * eapply Forall_impl; [exact Ha|]. simpl. intros y Hy. lra.
      * constructor; [assumption|].
        eapply Forall_impl; [exact Hd|]. simpl. intros y Hy. lra.
    + apply not_true_iff_false in E. rewrite Qltb_lt in E.
      exists a. split; [reflexivity|].
      exists antes, (despues ++ [x])%list. split; [now rewrite <- app_assoc|].
      split; [assumption|]. apply Forall_app. split; [assumption|].
      constructor; [lra | constructor].
  - intros ->. exists x. split; [reflexivity|].
    exists [], []. repeat split; constructor.
Qed.

Lemma paso_linea_ok (mds_query : option Q) (vistas : list string)
    (st : gset string * gmap string (Q * string)) (txt : string) :
  seleccion_ok mds_query vistas st ->
  seleccion_ok mds_query (vistas ++ [txt]) (paso_linea mds_query st txt).
Proof.
  destruct st as [G M]. intros [HG HM]. unfold seleccion_ok, paso_linea.
  rewrite filter_app, fmap_app. simpl in HG, HM.
  destruct (String.eqb_spec txt "") as [->|Hne].
  { rewrite filter_cons_False by (intros H; now apply H).
    rewrite filter_nil. simpl. rewrite app_nil_r. now split. }
  rewrite filter_cons_True by assumption. rewrite filter_nil.
  set (lineas := strip <$> filter (fun txt => txt <> "") vistas) in *.
  set (t := strip txt). change (strip <$> [txt]) with [t].
  unfold genericas, candidatos. rewrite !filter_app.
  destruct (extraer_componentes t) as [|c0 comps] eqn:Ecomp.
  - cbn [fst snd]. split.
    + rewrite filter_cons_True by assumption. rewrite filter_nil.
      rewrite list_to_set_app_L. fold (genericas lineas). rewrite <- HG.
      apply set_eq. intros x.
      rewrite !elem_of_union, elem_of_list_to_set, list_elem_of_singleton,
        elem_of_singleton. tauto.
    + intros comp. specialize (HM comp). rewrite filter_app.
      rewrite (filter_cons_False _ t) by (rewrite Ecomp; apply not_elem_of_nil).
      rewrite filter_nil, app_nil_r. exact HM.
  - cbn [fst snd]. split.
    + rewrite (filter_cons_False _ t) by (rewrite Ecomp; discriminate).
      rewrite filter_nil, app_nil_r. exact HG.
    + intros comp. specialize (HM comp).
      rewrite fold_paso_comp_lookup. rewrite filter_app.
      case_decide as Hin.
      * rewrite filter_cons_True by (now rewrite Ecomp).
        rewrite filter_nil, fmap_app. fold (candidatos mds_query comp lineas).
        destruct (es_primer_minimo_snoc (M !! comp)
                    (candidatos mds_query comp lineas)
                    (distancia mds_query t, t)) as (b & -> & Hb); [|exact Hb].
        exact HM.
      * rewrite filter_cons_False by (now rewrite Ecomp).
        rewrite filter_nil, app_nil_r. exact HM.
Qed.

Lemma fold_paso_linea_ok (mds_query : option Q) (vistas nuevas : list string)
    (st : gset string * gmap string (Q * string)) :
  seleccion_ok mds_query vistas st ->
  seleccion_ok mds_query (vistas ++ nuevas)
    (fold_left (paso_linea mds_query) nuevas st).
Proof.
  revert vistas st. induction nuevas as [|txt nuevas IH]; intros vistas st H.
  - now rewrite app_nil_r.
  - simpl. rewrite (assoc_L _ vistas [txt] nuevas : (vistas ++ txt :: nuevas = (vistas ++ [txt]) ++ nuevas)%list).
    apply IH. now apply paso_linea_ok.
Qed.

Lemma seleccion_fert_concat (hits_fert : list hit) (mds_query : option Q)
    (st : gset string * gmap string (Q * string)) :
  fold_left
    (fun st (h : hit) => fold_left (paso_linea mds_query) (tecnicas_de (snd h)) st)
    hits_fert st =
  fold_left (paso_linea mds_query)
    (concat ((fun h : hit => tecnicas_de (snd h)) <$> hits_fert)) st.
Proof.
  revert st. induction hits_fert as [|h hits IH]; intros st; [reflexivity|].
  simpl. rewrite fold_left_app. apply IH.
Qed.

Lemma seleccion_fert_ok (hits_fert : list hit) (mds_query : option Q) :
  let lineas := lineas_fert hits_fert in
  let st := seleccion_fert hits_fert mds_query in
  st.1 = list_to_set (genericas lineas) /\
  forall comp,
    match st.2 !! comp with
    | None => candidatos mds_query comp lineas = []
    | Some a => es_primer_minimo a (candidatos mds_query comp lineas)
    end.
Proof.
  unfold seleccion_fert. rewrite seleccion_fert_concat.
  apply (fold_paso_linea_ok mds_query [] _ (∅, ∅)).
  split; [reflexivity|]. intros comp. cbn [snd]. now rewrite lookup_empty.
Qed.

Lemma combinar_recs_fertilizacion_elem (hits_fert : list hit)
    (mds_query : option Q) (t : string) :
  t ∈ combinar_recs_fertilizacion hits_fert mds_query <->
  t ∈ genericas (lineas_fert hits_fert) \/
  exists comp d,
    es_primer_minimo (d, t) (candidatos mds_query comp (lineas_fert hits_fert)).
Proof.
  unfold combinar_recs_fertilizacion.
  destruct (seleccion_fert_ok hits_fert mds_query) as [HG HM].
  destruct (seleccion_fert hits_fert mds_query) as [G M]. cbn [fst snd] in HG, HM.
  rewrite merge_sort_Permutation, elem_of_elements, elem_of_union.
  rewrite HG, elem_of_list_to_set, elem_of_map_img.
  split; (intros [Hg | Hc]; [now left | right]).
  - destruct Hc as (comp & Hl). rewrite lookup_fmap in Hl.
    specialize (HM comp). destruct (M !! comp) as [[d t']|]; [|discriminate].
    injection Hl as <-. now exists comp, d.
  - destruct Hc as (comp & d & Hmin). exists comp. rewrite lookup_fmap.
    specialize (HM comp). destruct (M !! comp) as [a|].
    + now rewrite (es_primer_minimo_unico _ _ _ HM Hmin).
    + destruct Hmin as (antes & despues & Heq & _). rewrite HM in Heq.
      now destruct antes.
Qed.

Lemma primer_minimo_existe (l : list (Q * string)) :
  l <> [] -> exists x, es_primer_minimo x l.
Proof.
  induction l as [|x l IH] using rev_ind; [done|]. intros _.
  destruct l as [|y l].
  - exists x, [], []. repeat split; constructor.
  - destruct IH as [a Ha]; [done|].
    destruct (es_primer_minimo_snoc (Some a) (y :: l) x Ha) as (b & _ & Hb).
    now exists b.
Qed.

(** C1. Fertilization fusion.  Over the stripped non-empty technical lines
    of the hits, in rank order: a line without component token is kept as
    a generic line; a line with tokens is a candidate of each of its
    components, at the distance between its MDS marker and the query MDS
    (999 when either is missing); every component with a candidate keeps
    exactly one line, its first candidate of least distance; the result
    holds exactly the generic lines and the kept lines, each once, in
    lexicographic order.  The MDS marker of a line is the number written
    by its leftmost non-empty run of digits that is followed, after
    optional blanks, by MDS: a line is parsed to a value exactly when that
    value is its leftmost marker, so the distance of a line with a marker
    m to a query q is |q - m|, and it is 999 exactly for want of a marker
    or of a query MDS. *)
Theorem combinar_recs_fertilizacion_seleccion (hits_fert : list hit)
    (mds_query : option Q) :
  let lineas := lineas_fert hits_fert in
  let resultado := combinar_recs_fertilizacion hits_fert mds_query in
  (forall t,
     t ∈ resultado <->
     t ∈ genericas lineas \/
     exists comp d, es_primer_minimo (d, t) (candidatos mds_query comp lineas)) /\
  (forall comp,
     candidatos mds_query comp lineas <> [] ->
     exists x,
       es_primer_minimo x (candidatos mds_query comp lineas) /\
       snd x ∈ resultado /\
       forall y, es_primer_minimo y (candidatos mds_query comp lineas) -> y = x) /\
  (forall comp d t,
     (d, t) ∈ candidatos mds_query comp lineas <->
     t ∈ lineas /\ comp ∈ extraer_componentes t /\ d = distancia mds_query t) /\
  (forall t,
     t ∈ genericas lineas <-> t ∈ lineas /\ extraer_componentes t = []) /\
  (forall t,
     mds_query = None \/ extraer_mds_de_texto t = None ->
     distancia mds_query t = 999%Q) /\
  (forall q m t,
     mds_query = Some q -> extraer_mds_de_texto t = Some m ->
     distancia mds_query t = Qabs (q - m)) /\
  StronglySorted String.le resultado /\
  NoDup resultado /\
  (forall t m, extraer_mds_de_texto t = Some m <-> primer_marcador t m) /\
  (forall t, extraer_mds_de_texto t = None <-> forall m, ~ primer_marcador t m) /\
  (forall q m t,
     mds_query = Some q -> primer_marcador t m ->
     distancia mds_query t = Qabs (q - m)) /\
  (forall t,
     mds_query = None \/ (forall m, ~ primer_marcador t m) ->
     distancia mds_query t = 999%Q).
Proof.
  intros lineas resultado.
  split; [|split; [|split; [|split; [|split; [|split; [|split; [|split;
    [|split; [|split; [|split]]]]]]]]]].
  - apply combinar_recs_fertilizacion_elem.
  - intros comp Hne. destruct (primer_minimo_existe _ Hne) as [[d t] Hx].
    exists (d, t). split; [assumption|]. split.
    + apply combinar_recs_fertilizacion_elem. right. now exists comp, d.
    + intros y Hy. exact (es_primer_minimo_unico _ _ _ Hy Hx).
  - intros comp d t. unfold candidatos. rewrite list_elem_of_fmap. split.
    + intros (t' & [= -> ->] & Hin). apply list_elem_of_filter in Hin as [? ?].
      done.
    + intros (Hin & Hc & ->). exists t. split; [reflexivity|].
      now apply list_elem_of_filter.
  - intros t. unfold genericas. rewrite list_elem_of_filter. tauto.
  - intros t [-> | H]; unfold distancia.
    + reflexivity.
    + rewrite H. now destruct mds_query.
  - intros q m t -> H. unfold distancia. now rewrite H.
  - unfold resultado, combinar_recs_fertilizacion.
    destruct (seleccion_fert hits_fert mds_query) as [G M].
    apply StronglySorted_merge_sort; apply _.
  - unfold resultado, combinar_recs_fertilizacion.
    destruct (seleccion_fert hits_fert mds_query) as [G M].
    rewrite merge_sort_Permutation. apply NoDup_elements.
  - apply extraer_mds_de_texto_primer_marcador.
  - apply extraer_mds_de_texto_sin_marcador.
  - intros q m t -> H. apply extraer_mds_de_texto_primer_marcador in H.
    unfold distancia. now rewrite H.
  - intros t [-> | H]; unfold distancia; [reflexivity|].
    apply extraer_mds_de_texto_sin_marcador in H. rewrite H.
    now destruct mds_query.
Qed.

(** The example of the specification: two urea lines marked 6 MDS and
    18 MDS, query MDS 10; only the 6 MDS line is kept. *)
Example fusion_urea_6_18 :
  combinar_recs_fertilizacion [(0.9%Q, caso_A1); (0.8%Q, caso_A2)] (Some 10%Q)
  = ["Aplicar urea 40 g por planta a los 6 MDS"; "Encalar segun acidez"].
Proof. vm_compute. reflexivity. Qed.

(** The same two cases with the 18 MDS case ranked first: the 6 MDS line
    is still the one kept, by distance and not by rank. *)
Example fusion_urea_18_6 :
  combinar_recs_fertilizacion [(0.9%Q, caso_A2); (0.8%Q, caso_A1)] (Some 10%Q)
  = ["Aplicar urea 40 g por planta a los 6 MDS"; "Encalar segun acidez"].
Proof. vm_compute. reflexivity. Qed.

(** ** Instances on the sample data *)

(** C2 on three requests: a supplied phase, an MDS of 10 months, and
    December at 1400 m without MDS. *)
Lemma fase_resolution_witness :
  fase_actual_de (Some floracion_llenado) (Some 1678%Q) (Some "noviembre")
    (Some 30%Q) = floracion_llenado /\
  inferir_fase (Some 1678%Q) (Some "noviembre") (Some 10%Q) = floracion_llenado /\
  inferir_fase (Some 1400%Q) (Some "Diciembre ") None = vivero_establecimiento.
Proof.
  split; [|split].
  - destruct (fase_resolution (Some floracion_llenado) (Some 1678%Q)
                (Some "noviembre") (Some 30%Q)) as (H & _).
    apply H; [reflexivity | discriminate].
  - destruct (fase_resolution None (Some 1678%Q) (Some "noviembre")
                (Some 10%Q)) as (_ & _ & H & _).
    destruct (H 10%Q eq_refl) as (_ & H2 & _). apply H2; lra.
  - destruct (fase_resolution None (Some 1400%Q) (Some "Diciembre ") None)
      as (_ & _ & _ & H & _).
    rewrite (H eq_refl). reflexivity.
Defined.

(** C3 on two requests with MDS 10 in the harvest phase: fertilization is
    applicable, the nursery domain is not. *)
Lemma dominio_aplica_gate_witness :
  dominio_aplica fertilizacion_sin_analisis cosecha_poscosecha (Some 10%Q)
    = (true, None) /\
  dominio_aplica almacigos cosecha_poscosecha (Some 10%Q)
    = (false, Some (razon_de almacigos)).
Proof.
  split.
  - destruct (dominio_aplica_gate fertilizacion_sin_analisis cosecha_poscosecha
                (Some 10%Q)) as (H & _).
    apply (H 10%Q); [reflexivity | reflexivity | lra | lra].
  - destruct (dominio_aplica_gate almacigos cosecha_poscosecha (Some 10%Q))
      as (_ & H & Ha & _).
    destruct H as (_ & _ & H); [left; discriminate|].
    apply H. rewrite Ha. intros Hin. apply elem_of_singleton in Hin.
    discriminate.
Defined.

(** C4 on the sample request: the borer domain is gated in the nursery
    phase. *)
Lemma dominio_inaplicable_witness :
  exists avisos w' out,
    pipeline trig_ejemplo mundo_ejemplo params_ejemplo casos_ejemplo
      = (avisos, w', Ok out) /\
    buscar_dom broca (resultados_A out) =
      Some {| r_hits := [];
              r_recomendaciones :=
                {| tecnicas := []; tradicionales := []; por_categoria := [] |};
              r_aplicabilidad :=
                {| m_aplica := false;
                   m_razon_no_aplica := Some (razon_de broca) |} |}.
Proof.
  destruct (dominio_inaplicable trig_ejemplo similarity_weighted_A mundo_ejemplo
              params_ejemplo casos_ejemplo broca) as (_ & _ & H).
  - reflexivity.
  - apply H. unfold dominios_de. simpl. set_solver.
Defined.

(** C5 on a query without rainy days against a case without climate. *)
Lemma similarity_weighted_A_renormalization_witness :
  let qvec := extract_input_vector trig_ejemplo params_sin_lluvia in
  let cvec := extract_case_vector_A trig_ejemplo caso_A3 in
  exists weights,
    WEIGHTS !! broca = Some weights /\
    similarity_weighted_A qvec cvec broca = Ok (puntaje_A weights qvec cvec) /\
    puntaje_A weights qvec cvec = puntaje_A (sin_clave dias_lluvia weights) qvec cvec /\
    (0 <= puntaje_A weights qvec cvec <= 1)%Q.
Proof.
  intros qvec cvec. eexists. split; [reflexivity|].
  destruct (similarity_weighted_A_renormalization qvec cvec broca _ eq_refl)
    as (H1 & _ & _ & H4 & H5).
  split; [exact H1|]. split; [|exact H5].
  destruct (H4 dias_lluvia) as (H & _); [reflexivity | reflexivity | exact H].
Defined.

(** C8 on the sample stores: the retention target does not exist yet. *)
Lemma append_case_to_yaml_id_witness :
  exists w',
    append_case_to_yaml mundo_ejemplo ruta_C caso_vacio = Ok ("NEW-0001", w') /\
    archivos w' !! ruta_C = Some (Lista [con_id caso_vacio (Some "NEW-0001")]).
Proof.
  destruct (append_case_to_yaml_id mundo_ejemplo ruta_C caso_vacio)
    as ((w' & H1 & H2 & _) & _).
  - apply not_elem_of_empty.
  - exists w'. split; [exact H1 | exact H2].
Defined.

(** C9 on the sample request. *)
Lemma retencion_auto_witness :
  exists avisos w' out nuevo_id retenido fert,
    pipeline trig_ejemplo mundo_ejemplo params_ejemplo casos_ejemplo
      = (avisos, w', Ok out) /\
    saved_case_id out = Some nuevo_id /\
    archivos w' !! ruta_C
      = Some (Lista (cases_existing_de mundo_ejemplo ruta_C ++ [retenido])) /\
    id retenido = Some nuevo_id /\
    buscar_dom fertilizacion_sin_analisis (resultados_A out) = Some fert /\
    caso_recomendaciones retenido = Some (r_recomendaciones fert) /\
    tipo retenido = Some auto /\
    fertilizacion_sin_suelo retenido = Some (Some 10%Q) /\
    almacigos_meta retenido = Some (Some 3%Q).
Proof.
  apply (retencion_auto trig_ejemplo mundo_ejemplo params_ejemplo casos_ejemplo
           ruta_C).
  - reflexivity.
  - reflexivity.
  - discriminate.
  - apply not_elem_of_empty.
Defined.

(** C10 on the sample request. *)
Lemma run_cbr_verbose_witness :
  exists avisos' w' out,
    run_cbr trig_ejemplo mundo_ejemplo params_ejemplo true
      = (avisos', w', Raise (UnboundLocalError "output")) /\
    run_cbr trig_ejemplo mundo_ejemplo params_ejemplo false
      = (avisos', w', Ok (Some out)).
Proof.
  destruct (run_cbr_verbose trig_ejemplo mundo_ejemplo params_ejemplo)
    as (_ & H).
  apply (H [] casos_ejemplo); [reflexivity | discriminate].
Defined.

(** C1 on the two sample fertilization cases, the one marked 18 MDS
    ranked first, for a query of 10 MDS: the markers read are 18 and 6,
    the urea candidates stand at distances 8 and 4 in rank order, the line
    kept for urea is the one marked 6 MDS and the one marked 18 MDS is
    dropped. *)
Lemma combinar_recs_fertilizacion_seleccion_witness :
  let hits := [(0.9%Q, caso_A2); (0.8%Q, caso_A1)] in
  let l6 := "Aplicar urea 40 g por planta a los 6 MDS" in
  let l18 := "Aplicar urea 60 g por planta a los 18 MDS" in
  primer_marcador l6 6 /\ primer_marcador l18 18 /\
  distancia (Some 10%Q) l6 = Qabs (10 - 6) /\
  distancia (Some 10%Q) l18 = Qabs (10 - 18) /\
  candidatos (Some 10%Q) "urea" (lineas_fert hits) = [(8%Q, l18); (4%Q, l6)] /\
  es_primer_minimo (4%Q, l6) (candidatos (Some 10%Q) "urea" (lineas_fert hits)) /\
  l6 ∈ combinar_recs_fertilizacion hits (Some 10%Q) /\
  l18 ∉ combinar_recs_fertilizacion hits (Some 10%Q).
Proof.
  intros hits l6 l18.
  destruct (combinar_recs_fertilizacion_seleccion hits (Some 10%Q))
    as (Hres & Hsel & Hcand & _ & _ & _ & _ & _ & Hpar & _ & Hdist & _).
  assert (H6 : primer_marcador l6 6) by (apply Hpar; vm_compute; reflexivity).
  assert (H18 : primer_marcador l18 18) by (apply Hpar; vm_compute; reflexivity).
  assert (Hc : candidatos (Some 10%Q) "urea" (lineas_fert hits)
               = [(8%Q, l18); (4%Q, l6)]) by (vm_compute; reflexivity).
  assert (Hmin : es_primer_minimo (4%Q, l6)
                   (candidatos (Some 10%Q) "urea" (lineas_fert hits))).
  { rewrite Hc. exists [(8%Q, l18)], []. split; [reflexivity|].
    split; repeat constructor. }
  destruct (Hsel "urea") as (x & Hx & Hin & Huniq);
    [rewrite Hc; discriminate|].
  assert (Ex : x = (4%Q, l6)) by (symmetry; apply Huniq; exact Hmin).
  rewrite Ex in Hin. cbn [snd] in Hin.
  split; [exact H6|]. split; [exact H18|].
  split; [exact (Hdist 10%Q 6%Q l6 eq_refl H6)|].
  split; [exact (Hdist 10%Q 18%Q l18 eq_refl H18)|].
  split; [exact Hc|]. split; [exact Hmin|]. split; [exact Hin|].
  intros H. apply Hres in H as [Hg | (comp & d & Hd)].
  - apply list_elem_of_In in Hg. vm_compute in Hg.
    destruct Hg as [Hg | [Hg | []]]; discriminate.
  - assert (Hcomp : comp = "urea").
    { destruct Hd as (antes & despues & Heq & _).
      assert (Hel : (d, l18) ∈ candidatos (Some 10%Q) comp (lineas_fert hits)).
      { rewrite Heq. apply elem_of_app. right. apply list_elem_of_here. }
      apply Hcand in Hel as (_ & Hcomp & _).
      apply list_elem_of_In in Hcomp. vm_compute in Hcomp.
      now destruct Hcomp as [<- | []]. }
    subst comp. pose proof (Huniq _ Hd) as E. rewrite Ex in E.
    injection E as _ E. discriminate.
Defined.

(** * Further properties *)

(** ** Numeric leaves *)

Lemma RANGES_ordenados (key : rasgo) : (fst (RANGES key) < snd (RANGES key))%Q.
Proof. destruct key; reflexivity. Qed.

Lemma norm01_Some (x : Q) (key : rasgo) :
  norm01 (Some x) key =
    Some (clip01 ((x - fst (RANGES key)) / (snd (RANGES key) - fst (RANGES key)))).
Proof.
  unfold norm01. pose proof (RANGES_ordenados key) as H.
  destruct (RANGES key) as [lo hi]. simpl in *.
  apply Qle_bool_false in H. now rewrite H.
Qed.

Lemma clip01_mono (x y : Q) : (x <= y)%Q -> (clip01 x <= clip01 y)%Q.
Proof. intros H. unfold clip01, py_max, py_min. q_casos; lra. Qed.

Lemma clip01_bajo (x : Q) : (x <= 0)%Q -> clip01 x = 0%Q.
Proof. intros H. unfold clip01, py_max, py_min. q_casos; try reflexivity; lra. Qed.

Lemma clip01_alto (x : Q) : (1 <= x)%Q -> clip01 x = 1%Q.
Proof. intros H. unfold clip01, py_max, py_min. q_casos; try reflexivity; lra. Qed.

Lemma norm01_lo (key : rasgo) (x : Q) :
  (x <= fst (RANGES key))%Q -> norm01 (Some x) key = Some 0%Q.
Proof.
  intros H. rewrite norm01_Some. f_equal. apply clip01_bajo.
  pose proof (RANGES_ordenados key).
  apply Qle_shift_div_r; lra.
Qed.

Lemma norm01_hi (key : rasgo) (x : Q) :
  (snd (RANGES key) <= x)%Q -> norm01 (Some x) key = Some 1%Q.
Proof.
  intros H. rewrite norm01_Some. f_equal. apply clip01_alto.
  pose proof (RANGES_ordenados key).
  apply Qle_shift_div_l; lra.
Qed.

(** X1. Normalization of a feature value to its range: the result is
    defined and lies in [0,1]; it is 0 at or below the lower end of the
    range, 1 at or above the upper end, the linear position in between,
    and it never decreases when the value grows. *)
Theorem norm01_escala (key : rasgo) (x y : Q) :
  let lo := fst (RANGES key) in
  let hi := snd (RANGES key) in
  exists vx vy,
    norm01 (Some x) key = Some vx /\
    norm01 (Some y) key = Some vy /\
    (0 <= vx <= 1)%Q /\
    (x <= lo -> vx = 0)%Q /\
    (hi <= x -> vx = 1)%Q /\
    (lo <= x <= hi -> vx == (x - lo) / (hi - lo))%Q /\
    (x <= y -> vx <= vy)%Q.
Proof.
  intros lo hi. rewrite !norm01_Some. fold lo hi.
  pose proof (RANGES_ordenados key) as Hr. fold lo hi in Hr.
  assert (Hd : (0 < hi - lo)%Q) by lra.
  do 2 eexists. split; [reflexivity|]. split; [reflexivity|].
  split; [apply clip01_range|]. split; [|split; [|split]].
  - intros H. apply clip01_bajo.
    apply Qle_shift_div_r; [assumption | lra].
  - intros H. apply clip01_alto.
    apply Qle_shift_div_l; [assumption | lra].
  - intros [H1 H2]. apply clip01_id. split.
    + apply Qle_shift_div_l; [assumption | lra].
    + apply Qle_shift_div_r; [assumption | lra].
  - intros H. apply clip01_mono.
    apply Qmult_le_compat_r; [lra|]. apply Qlt_le_weak, Qinv_lt_0_compat, Hd.
Qed.

Lemma sim_numeric_Some (a b : Q) (key : rasgo) :
  exists na nb,
    norm01 (Some a) key = Some na /\ norm01 (Some b) key = Some nb /\
    sim_numeric (Some a) (Some b) key = Some (clip01 (1 - Qabs (na - nb))).
Proof.
  unfold sim_numeric. rewrite !norm01_Some. eauto.
Qed.

(** X2. Numeric similarity of a feature: a value is fully similar to
    itself; the similarity does not depend on the order of the two values
    and lies in [0,1]; the two ends of the range have similarity 0; and it
    is undefined as soon as one of the two values is absent. *)
Theorem sim_numeric_metrica (key : rasgo) (a b : Q) :
  sim_numeric (Some a) (Some a) key = Some 1%Q /\
  (exists s s',
     sim_numeric (Some a) (Some b) key = Some s /\
     sim_numeric (Some b) (Some a) key = Some s' /\
     (s == s')%Q /\ (0 <= s <= 1)%Q) /\
  sim_numeric (Some (fst (RANGES key))) (Some (snd (RANGES key))) key = Some 0%Q /\
  sim_numeric None (Some b) key = None /\
  sim_numeric (Some a) None key = None.
Proof.
  split; [|split; [|split; [|split]]]; try reflexivity.
  - unfold sim_numeric. rewrite norm01_Some. f_equal. apply clip01_alto.
    set (n := clip01 _). 
    assert (H : (Qabs (n - n) == 0)%Q).
    { assert (E : (n - n == 0)%Q) by ring. rewrite E. reflexivity. }
    rewrite H. lra.
  - unfold sim_numeric. rewrite !norm01_Some.
    do 2 eexists. split; [reflexivity|]. split; [reflexivity|].
    split; [|apply clip01_range].
    apply clip01_proper. 
    set (na := clip01 _). set (nb := clip01 _).
    assert (E : (nb - na == - (na - nb))%Q) by ring.
    now rewrite E, Qabs_opp.
  - unfold sim_numeric.
    rewrite norm01_lo, norm01_hi by apply Qle_refl. reflexivity.
Qed.

(** Adjacency of lunar phases is symmetric. *)
Lemma adyacente_sym (a b : string) :
  bool_decide (b ∈ default (∅ : gset string) (ADYACENTES !! a)) =
  bool_decide (a ∈ default (∅ : gset string) (ADYACENTES !! b)).
Proof.
  apply bool_decide_ext. unfold ADYACENTES.
  rewrite !lookup_insert, !lookup_empty.
  repeat case_decide; simplify_eq; simpl; set_solver.
Qed.

(** X3. Similarity of lunar phases: it does not depend on the order of
    the two phases; a non-empty phase is fully similar to itself; it is
    undefined exactly when one of the two is absent or empty; its only
    values are 1, 0.5 and 0, and it is 1 exactly when the two names agree
    once stripped and lower-cased. *)
Theorem sim_luna_simetrica (a b : option string) :
  sim_luna a b = sim_luna b a /\
  (truthy a = true -> sim_luna a a = Some 1%Q) /\
  (truthy a = false \/ truthy b = false <-> sim_luna a b = None) /\
  (forall s, sim_luna a b = Some s -> s = 1%Q \/ s = 0.5%Q \/ s = 0%Q) /\
  (forall s,
     sim_luna a b = Some s ->
     (s = 1%Q <-> lower (strip (or_vacio a)) = lower (strip (or_vacio b)))).
Proof.
  split; [|split; [|split; [|split]]].
  - unfold sim_luna. rewrite (orb_comm (negb (truthy a))).
    destruct (_ || _); [reflexivity|].
    rewrite String.eqb_sym. destruct (String.eqb _ _); [reflexivity|].
    now rewrite adyacente_sym.
  - intros H. unfold sim_luna. rewrite H. simpl. now rewrite String.eqb_refl.
  - unfold sim_luna. split.
    + intros [-> | ->]; simpl; [reflexivity | now rewrite orb_true_r].
    + destruct (truthy a), (truthy b); simpl; auto.
      destruct (String.eqb _ _); [discriminate|].
      destruct (bool_decide _); discriminate.
  - intros s. unfold sim_luna. destruct (_ || _); [discriminate|].
    destruct (String.eqb _ _); [intros [= <-]; auto|].
    destruct (bool_decide _); intros [= <-]; auto.
  - intros s. unfold sim_luna. destruct (_ || _); [discriminate|].
    destruct (String.eqb_spec (lower (strip (or_vacio a)))
                (lower (strip (or_vacio b)))) as [E|E].
    + intros [= <-]. tauto.
    + destruct (bool_decide _); intros [= <-]; split; try discriminate; tauto.
Qed.

Lemma station_bonus_sin_estacion (qa r : Q) :
  station_bonus (Some qa) None (Some r) =
    (if Qle_bool (Qabs (qa - r)) 60 then 1.00
     else if Qle_bool (Qabs (qa - r)) 120 then 0.85
     else if Qle_bool (Qabs (qa - r)) 200 then 0.70
     else 0.55)%Q.
Proof. reflexivity. Qed.

(** X4. Station bonus: its only values are 1, 0.85, 0.70 and 0.55;
    without a query altitude it is 1; the altitude of a known station
    replaces the altitude of the case, and an unknown station falls back
    on the altitude of the case; the bonus never grows with the altitude
    gap and is 1 within 60 m. *)
Theorem station_bonus_escalones (query_alt case_alt : option Q)
    (case_station : option string) :
  let b := station_bonus query_alt case_station case_alt in
  (b == 1 \/ b == 0.85 \/ b == 0.70 \/ b == 0.55)%Q /\
  (query_alt = None -> b = 1%Q) /\
  (forall st alt,
     case_station = Some st -> STATIONS_ALT !! st = Some alt ->
     b = station_bonus query_alt None (Some alt)) /\
  (forall st,
     case_station = Some st -> STATIONS_ALT !! st = None ->
     b = station_bonus query_alt None case_alt) /\
  (forall qa r1 r2,
     (Qabs (qa - r1) <= Qabs (qa - r2))%Q ->
     (station_bonus (Some qa) None (Some r2)
      <= station_bonus (Some qa) None (Some r1))%Q) /\
  (forall qa r,
     (Qabs (qa - r) <= 60)%Q -> (station_bonus (Some qa) None (Some r) == 1)%Q).
Proof.
  intros b. split; [|split; [|split; [|split; [|split]]]].
  - unfold b, station_bonus. destruct query_alt; [|now left].
    destruct (match case_station ≫= _ with Some _ => _ | None => _ end);
      [|now left].
    destruct (Qle_bool _ 60); [now left|].
    destruct (Qle_bool _ 120); [right; now left|].
    destruct (Qle_bool _ 200); [right; right; now left|].
    right; right; now right.
  - now intros ->.
  - intros st alt -> H. unfold b, station_bonus. simpl. now rewrite H.
  - intros st -> H. unfold b, station_bonus. simpl. now rewrite H.
  - intros qa r1 r2 H. rewrite !station_bonus_sin_estacion.
    q_casos; lra.
  - intros qa r H. rewrite station_bonus_sin_estacion.
    apply Qle_bool_iff in H. now rewrite H.
Qed.

Lemma round3_props (x : Q) :
  (Qabs (round3 x - x) <= 0.0005)%Q /\
  (exists n : Z, round3 x = (inject_Z n / 1000)%Q) /\
  ((0 <= x <= 1)%Q -> (0 <= round3 x <= 1)%Q).
Proof.
  unfold round3.
  pose proof (Qfloor_le (x * 1000)) as Hlo.
  pose proof (Qlt_floor (x * 1000)) as Hhi.
  set (f := Qfloor (x * 1000)) in *.
  rewrite inject_Z_plus in Hhi. change (inject_Z 1) with 1%Q in Hhi.
  match goal with
  | |- context [if ?c then (_ + 1)%Z else _] => set (up := c)
  end.
  assert (Hcases :
    (up = false /\ (x * 1000 - inject_Z f <= 0.5)%Q) \/
    (up = true /\ (0.5 <= x * 1000 - inject_Z f)%Q)).
  { unfold up. destruct (Qltb (x * 1000 - inject_Z f) 0.5) eqn:E1.
    - left. q_bool. split; [reflexivity | lra].
    - destruct (Qltb 0.5 (x * 1000 - inject_Z f)) eqn:E2.
      + right. q_bool. split; [reflexivity | lra].
      + q_bool. destruct (Z.odd f); [right | left]; split; try reflexivity; lra. }
  set (r := (inject_Z (if up then (f + 1)%Z else f) / 1000)%Q).
  assert (Hr : (r * 1000 == inject_Z (if up then (f + 1)%Z else f))%Q)
    by (unfold r; field).
  assert (Hplus : (inject_Z (f + 1) == inject_Z f + 1)%Q)
    by (rewrite inject_Z_plus; reflexivity).
  split; [|split].
  - apply Qabs_Qle_condition.
    destruct Hcases as [[E H] | [E H]]; rewrite E in Hr;
      rewrite ?Hplus in Hr; split; lra.
  - eexists. reflexivity.
  - intros [H0 H1].
    assert (Hf0 : (0 <= f)%Z).
    { unfold f. change 0%Z with (Qfloor 0). apply Qfloor_resp_le. lra. }
    assert (Hq0 : (0 <= inject_Z f)%Q).
    { change 0%Q with (inject_Z 0). now rewrite <- Zle_Qle. }
    destruct Hcases as [[E H] | [E H]]; rewrite E in Hr; rewrite ?Hplus in Hr.
    + split; lra.
    + split; [lra|].
      destruct (Z.eq_dec f 1000%Z) as [E'|E'].
      * exfalso. rewrite E' in H. change (inject_Z 1000) with 1000%Q in H. lra.
      * assert (Hf1 : (f <= Qfloor 1000)%Z)
          by (apply Qfloor_resp_le; lra).
        change (Qfloor 1000) with 1000%Z in Hf1.
        assert (Hf2 : (f + 1 <= 1000)%Z) by lia.
        rewrite Zle_Qle, Hplus in Hf2.
        change (inject_Z 1000) with 1000%Q in Hf2. lra.
Qed.

(** X5. Rounding to three decimals: the result is a multiple of 1/1000 at
    most 0.0005 away from the value, and a value in [0,1] stays in
    [0,1]. *)
Theorem round3_cercano (x : Q) :
  (Qabs (round3 x - x) <= 0.0005)%Q /\
  (exists n : Z, round3 x = (inject_Z n / 1000)%Q) /\
  ((0 <= x <= 1)%Q -> (0 <= round3 x <= 1)%Q).
Proof. apply round3_props. Qed.


(** ** Ranking *)

Lemma insertar_desc_perm (x : hit) (l : list hit) : insertar_desc x l ≡ₚ x :: l.
Proof.
  induction l as [|y l IH]; simpl; [reflexivity|].
  destruct (Qltb (fst x) (fst y)); [|reflexivity].
  rewrite IH. apply Permutation_swap.
Qed.

Lemma insertar_desc_sorted (x : hit) (l : list hit) :
  StronglySorted no_menor l -> StronglySorted no_menor (insertar_desc x l).
Proof.
  induction 1 as [|y l Hs IH Hy]; simpl.
  - repeat constructor.
  - destruct (Qltb (fst x) (fst y)) eqn:E; q_bool.
    + constructor; [assumption|].
      rewrite insertar_desc_perm. constructor; [|assumption].
      unfold no_menor. lra.
    + constructor; [now constructor|]. constructor; [unfold no_menor; lra|].
      eapply Forall_impl; [exact Hy|]. unfold no_menor. intros z Hz. lra.
Qed.

Lemma insertar_desc_con_puntaje (s : Q) (x : hit) (l : list hit) :
  con_puntaje s (insertar_desc x l) = con_puntaje s (x :: l).
Proof.
  unfold con_puntaje. induction l as [|y l IH]; simpl; [reflexivity|].
  destruct (Qltb (fst x) (fst y)) eqn:E; [|reflexivity]. q_bool.
  rewrite (filter_cons _ y), IH, !filter_cons.
  destruct (decide (Qeq_bool (fst x) s = true)) as [Hx|Hx]; [|reflexivity].
  destruct (decide (Qeq_bool (fst y) s = true)) as [Hy|Hy]; [|reflexivity].
  apply Qeq_bool_iff in Hx, Hy. lra.
Qed.

Lemma ordenar_desc_perm (l : list hit) : ordenar_desc l ≡ₚ l.
Proof.
  induction l as [|x l IH]; simpl; [reflexivity|].
  now rewrite insertar_desc_perm, IH.
Qed.

Lemma ordenar_desc_sorted (l : list hit) :
  StronglySorted no_menor (ordenar_desc l).
Proof.
  induction l as [|x l IH]; simpl; [constructor|].
  now apply insertar_desc_sorted.
Qed.

Lemma ordenar_desc_con_puntaje (s : Q) (l : list hit) :
  con_puntaje s (ordenar_desc l) = con_puntaje s l.
Proof.
  induction l as [|x l IH]; simpl; [reflexivity|].
  rewrite insertar_desc_con_puntaje. unfold con_puntaje in *.
  rewrite !filter_cons. now rewrite IH.
Qed.

(** X6. The ranking sort: the result is a permutation of the hits in
    descending order of score, and hits with equal scores keep their
    original order. *)
Theorem ordenar_desc_estable (l : list hit) :
  ordenar_desc l ≡ₚ l /\
  StronglySorted no_menor (ordenar_desc l) /\
  forall s, con_puntaje s (ordenar_desc l) = con_puntaje s l.
Proof.
  split; [apply ordenar_desc_perm|].
  split; [apply ordenar_desc_sorted|]. intros s. apply ordenar_desc_con_puntaje.
Qed.

Lemma primeros_length {A} (k : Z) (l : list A) :
  length (primeros k l) = Nat.min (Z.to_nat (Z.max 1 k)) (length l).
Proof. unfold primeros. apply length_take. Qed.

Lemma StronglySorted_take_drop {A} (R : relation A) (n : nat) (l : list A) :
  StronglySorted R l ->
  StronglySorted R (take n l) /\
  forall x y, x ∈ take n l -> y ∈ drop n l -> R x y.
Proof.
  intros H. rewrite <- (take_drop n l) in H.
  apply StronglySorted_app in H as (H1 & H2 & H3). split; [assumption|].
  intros x y Hx Hy. now apply H1.
Qed.

Section Ranking.

Variable trig_mes : nat -> Q * Q.

(** X7. Retrieval for an applicable domain: the call returns, with the
    applicable mark; the hits returned together with those left out are
    the scored cases of the domain; min(max(1, k), number of cases of the
    domain) hits are returned, in descending order, none scoring less than
    a hit left out; each comes from the case base, is tagged with the
    domain and has a score in [0,1]. *)
Theorem top_k_A_mejores (cases : list caso) (query_vec : vector)
    (domain : string) (k : Z) (fase_actual : string) (mds : option Q) :
  fst (dominio_aplica domain fase_actual mds) = true ->
  exists weights klist resto,
    WEIGHTS !! domain = Some weights /\
    top_k_A trig_mes cases query_vec domain k fase_actual mds
      = Ok (klist, {| m_aplica := true; m_razon_no_aplica := None |}) /\
    (klist ++ resto)%list ≡ₚ puntuados trig_mes weights cases query_vec domain /\
    length klist
      = Nat.min (Z.to_nat (Z.max 1 k))
          (length (filter (fun c => tipo c = Some domain) cases)) /\
    StronglySorted no_menor klist /\
    (forall h h', h ∈ klist -> h' ∈ resto -> (fst h' <= fst h)%Q) /\
    (forall h, h ∈ klist ->
       tipo (snd h) = Some domain /\ snd h ∈ cases /\ (0 <= fst h <= 1)%Q).
Proof.
  intros Hap.
  destruct (top_k_A_aplica trig_mes cases query_vec domain k fase_actual mds Hap)
    as (weights & Hw & Htop).
  fold (puntuados trig_mes weights cases query_vec domain) in Htop.
  set (scored := puntuados trig_mes weights cases query_vec domain) in *.
  pose proof (ordenar_desc_perm scored) as Hperm.
  pose proof (ordenar_desc_sorted scored) as Hsort.
  exists weights, (primeros k (ordenar_desc scored)),
    (drop (Z.to_nat (Z.max 1 k)) (ordenar_desc scored)).
  split; [assumption|]. split; [assumption|]. split; [|split; [|split; [|split]]].
  - unfold primeros. now rewrite take_drop.
  - rewrite primeros_length, Hperm. unfold scored, puntuados.
    now rewrite length_fmap.
  - now apply StronglySorted_take_drop.
  - intros h h' Hh Hh'.
    destruct (StronglySorted_take_drop no_menor (Z.to_nat (Z.max 1 k)) _ Hsort)
      as [_ H].
    exact (H h h' Hh Hh').
  - intros h Hh. unfold primeros in Hh. apply elem_of_take in Hh as (i & Hi & _).
    apply list_elem_of_lookup_2 in Hi. rewrite Hperm in Hi.
    unfold scored, puntuados in Hi.
    apply list_elem_of_fmap in Hi as (c & -> & Hc).
    apply list_elem_of_filter in Hc as [Ht Hc]. simpl.
    split; [assumption|]. split; [assumption|]. apply puntaje_A_range.
Qed.

End Ranking.

(** ** Comparable features *)

Lemma norm01_is_Some (x : Q) (key : rasgo) : is_Some (norm01 (Some x) key).
Proof.
  unfold norm01. destruct (RANGES key) as [lo hi].
  destruct (Qle_bool hi lo); eauto.
Qed.

Lemma sim_numeric_refl (a : Q) (key : rasgo) :
  sim_numeric (Some a) (Some a) key = Some 1%Q.
Proof.
  unfold sim_numeric. destruct (norm01_is_Some a key) as [n ->].
  f_equal. apply clip01_alto.
  assert (H : (Qabs (n - n) == 0)%Q).
  { assert (E : (n - n == 0)%Q) by ring. rewrite E. reflexivity. }
  rewrite H. lra.
Qed.

Lemma sim_definida_refl (q : vector) (k : clave) (s : Q) :
  sim_definida q q k = Some s -> s = 1%Q.
Proof.
  unfold sim_definida. destruct k as [r|]; simpl.
  - destruct (v_num q r) as [a|] eqn:E.
    + rewrite bool_decide_eq_false_2 by discriminate.
      rewrite sim_numeric_refl. congruence.
    + now rewrite bool_decide_eq_true_2.
  - destruct (v_luna_fase q) as [a|] eqn:E.
    + rewrite bool_decide_eq_false_2 by discriminate.
      unfold sim_luna. destruct (truthy (Some a)); simpl; [|discriminate].
      rewrite String.eqb_refl. congruence.
    + now rewrite bool_decide_eq_true_2.
Qed.

Lemma numerador_refl (t : pesos) (q : vector) :
  (numerador t q q == denominador t q q)%Q.
Proof.
  induction t as [|[k w] t IH]; simpl; [reflexivity|].
  destruct (sim_definida q q k) as [s|] eqn:E; [|exact IH].
  apply sim_definida_refl in E. subst s. rewrite IH. ring.
Qed.

Lemma cociente_uno (n d : Q) :
  (0 < d)%Q -> (n == d)%Q -> cociente (n, d) = 1%Q.
Proof.
  intros Hd Hn. unfold cociente.
  assert (E : Qle_bool d 0 = false) by (apply Qle_bool_false; lra).
  rewrite E. apply clip01_alto. rewrite Hn.
  apply Qle_shift_div_l; lra.
Qed.

(** X8. A vector compared with itself scores exactly 1 as soon as one
    weighted key is comparable. *)
Theorem similarity_weighted_A_identidad (qvec : vector) (domain : string)
    (weights : pesos) :
  WEIGHTS !! domain = Some weights ->
  (0 < denominador weights qvec qvec)%Q ->
  similarity_weighted_A qvec qvec domain = Ok 1%Q.
Proof.
  intros Hw Hd. unfold similarity_weighted_A. rewrite Hw. f_equal.
  unfold puntaje_A.
  destruct (fold_paso_A_acc weights qvec qvec 0 0) as [H1 H2].
  destruct (fold_left (paso_A qvec qvec) weights (0%Q, 0%Q)) as [n d].
  simpl in H1, H2. apply cociente_uno.
  - rewrite H2. lra.
  - rewrite H1, H2, numerador_refl. reflexivity.
Qed.

Lemma denominador_ge (t : pesos) (q c : vector) (k : clave) (w s : Q) :
  Forall (fun kw : clave * Q => (0 < snd kw)%Q) t ->
  (k, w) ∈ t -> sim_definida q c k = Some s ->
  (w <= denominador t q c)%Q.
Proof.
  intros Hpos Hin Hs. induction t as [|[k' w'] t IH]; simpl.
  - by apply elem_of_nil in Hin.
  - apply Forall_cons in Hpos as [Hw Hpos]. simpl in Hw.
    pose proof (num_den_bounds t q c Hpos) as Hb.
    apply elem_of_cons in Hin as [[= <- <-] | Hin].
    + rewrite Hs. lra.
    + specialize (IH Hpos Hin). destruct (sim_definida q c k'); lra.
Qed.

Section Comparables.

Variable trig_mes : nat -> Q * Q.

(** X9. The month features of a query and of a case are never absent, so
    for the vectors the engine builds the weight of the comparable keys is
    positive and the score is a true weighted mean. *)
Theorem similarity_weighted_A_mes_comparable (p : params) (c : caso)
    (domain : string) (weights : pesos) :
  WEIGHTS !! domain = Some weights ->
  let qvec := extract_input_vector trig_mes p in
  let cvec := extract_case_vector_A trig_mes c in
  (0 < denominador weights qvec cvec)%Q /\
  exists s,
    similarity_weighted_A qvec cvec domain = Ok s /\
    (s == numerador weights qvec cvec / denominador weights qvec cvec)%Q.
Proof.
  intros Hw qvec cvec.
  pose proof (WEIGHTS_positivos domain weights Hw) as Hpos.
  assert (Hsin : exists w s, (Num mes_sin, w) ∈ weights /\ (0 < w)%Q /\
                   sim_definida qvec cvec (Num mes_sin) = Some s).
  { assert (Hs : is_Some (sim_definida qvec cvec (Num mes_sin))).
    { unfold sim_definida, qvec, cvec, extract_input_vector,
        extract_case_vector_A. simpl.
      destruct (mes_to_sin_cos trig_mes (p_mes p)) as [a b].
      destruct (mes_to_sin_cos trig_mes _) as [a' b']. simpl.
      eauto. }
    destruct Hs as [s Hs].
    unfold WEIGHTS in Hw. rewrite !lookup_insert, lookup_empty in Hw.
    repeat case_decide; simplify_eq;
      (eexists _, s; split; [|split; [|exact Hs]];
       [repeat (first [left | right]) | reflexivity]). }
  destruct Hsin as (w & s & Hin & Hw0 & Hs).
  pose proof (denominador_ge weights qvec cvec _ w s Hpos Hin Hs) as Hge.
  assert (Hd : (0 < denominador weights qvec cvec)%Q) by lra.
  split; [assumption|].
  eexists. split; [unfold similarity_weighted_A; now rewrite Hw|].
  now apply puntaje_A_formula.
Qed.

End Comparables.

(** ** Text helpers and generic fusion *)

Lemma sublist_fmap_2 {A B} (f : A -> B) (l1 l2 : list A) :
  l1 `sublist_of` l2 -> (f <$> l1) `sublist_of` (f <$> l2).
Proof. induction 1; simpl; constructor; assumption. Qed.

Lemma lower_ascii_idem (c : ascii) : lower_ascii (lower_ascii c) = lower_ascii c.
Proof.
  assert (H : forallb (fun n => Ascii.eqb
                         (lower_ascii (lower_ascii (ascii_of_nat n)))
                         (lower_ascii (ascii_of_nat n))) (seq 0 256) = true)
    by (vm_compute; reflexivity).
  rewrite forallb_forall in H. rewrite <- (ascii_nat_embedding c).
  apply Ascii.eqb_eq, H, in_seq. pose proof (nat_ascii_bounded c). lia.
Qed.

Lemma lower_idem (s : string) : lower (lower s) = lower s.
Proof.
  induction s as [|c s IH]; simpl; [reflexivity|].
  now rewrite lower_ascii_idem, IH.
Qed.

(** X10. The components found in a line are part of the fixed vocabulary
    (in its order, lower-cased, none twice), a component is found exactly
    when its lower-cased name occurs in the lower-cased line, and so the
    letter case of the line does not matter. *)
Theorem extraer_componentes_vocabulario (txt : string) :
  extraer_componentes txt `sublist_of` ["urea"; "dap"; "kcl"; "npk"; "mgo"] /\
  NoDup (extraer_componentes txt) /\
  (forall comp,
     comp ∈ extraer_componentes txt <->
     comp ∈ ["urea"; "dap"; "kcl"; "npk"; "mgo"] /\
     contiene comp (lower txt) = true) /\
  extraer_componentes (lower txt) = extraer_componentes txt /\
  extraer_componentes "" = [].
Proof.
  assert (Hsub : extraer_componentes txt
                   `sublist_of` ["urea"; "dap"; "kcl"; "npk"; "mgo"]).
  { unfold extraer_componentes.
    change ["urea"; "dap"; "kcl"; "npk"; "mgo"] with (lower <$> COMPONENTES_FERT).
    apply sublist_fmap_2, sublist_filter. }
  split; [exact Hsub|]. split; [|split; [|split]].
  - eapply sublist_NoDup; [|exact Hsub].
    repeat constructor; set_solver.
  - intros comp. unfold extraer_componentes, busca_ignorando_caja.
    rewrite list_elem_of_fmap. split.
    + intros (c & -> & Hc). apply list_elem_of_filter in Hc as [Hc Hin].
      split; [|exact Hc].
      change ["urea"; "dap"; "kcl"; "npk"; "mgo"] with (lower <$> COMPONENTES_FERT).
      now apply list_elem_of_fmap_2.
    + intros [Hin Hc].
      change ["urea"; "dap"; "kcl"; "npk"; "mgo"]
        with (lower <$> COMPONENTES_FERT) in Hin.
      apply list_elem_of_fmap in Hin as (c & -> & Hin).
      exists c. split; [reflexivity|]. now apply list_elem_of_filter.
  - unfold extraer_componentes, busca_ignorando_caja. now rewrite lower_idem.
  - reflexivity.
Qed.

Lemma sin_repetir_elem (vistos : gset string) (l : list string) (x : string) :
  x ∈ sin_repetir vistos l <-> x ∈ l /\ x ∉ vistos.
Proof.
  revert vistos. induction l as [|y l IH]; intros vistos; simpl.
  - split; [intros H; by apply elem_of_nil in H | intros [H _]; by apply elem_of_nil in H].
  - case_bool_decide as Hy.
    + rewrite IH, elem_of_cons. split; [tauto|].
      intros [[-> | H] Hx]; [contradiction | tauto].
    + rewrite !elem_of_cons, IH, elem_of_union, elem_of_singleton.
      split.
      * intros [-> | [H1 H2]]; [tauto|]. split; [tauto|]. tauto.
      * intros [[-> | H] Hx]; [tauto|].
        destruct (decide (x = y)) as [->|Hne]; [tauto|]. right. tauto.
Qed.

Lemma sin_repetir_NoDup (vistos : gset string) (l : list string) :
  NoDup (sin_repetir vistos l).
Proof.
  revert vistos. induction l as [|y l IH]; intros vistos; simpl; [constructor|].
  case_bool_decide; [apply IH|]. constructor; [|apply IH].
  rewrite sin_repetir_elem, elem_of_union, elem_of_singleton. tauto.
Qed.

Lemma sin_repetir_sublist (vistos : gset string) (l : list string) :
  sin_repetir vistos l `sublist_of` l.
Proof.
  revert vistos. induction l as [|y l IH]; intros vistos; simpl; [constructor|].
  case_bool_decide; [apply sublist_cons, IH | apply sublist_skip, IH].
Qed.

Lemma sin_repetir_app (vistos : gset string) (l1 l2 : list string) :
  sin_repetir vistos (l1 ++ l2) =
    (sin_repetir vistos l1 ++ sin_repetir (vistos ∪ list_to_set l1) l2)%list.
Proof.
  revert vistos. induction l1 as [|y l1 IH]; intros vistos; simpl.
  - now rewrite (right_id_L ∅ (∪)).
  - case_bool_decide as Hy.
    + rewrite IH. do 2 f_equal. apply set_eq. intros x.
      rewrite !elem_of_union, elem_of_singleton. split; [tauto|].
      intros [H | [-> | H]]; tauto.
    + simpl. rewrite IH. do 3 f_equal. apply set_eq. intros x.
      rewrite !elem_of_union, elem_of_singleton. tauto.
Qed.

Lemma lineas_utiles_app (l1 l2 : list string) :
  lineas_utiles (l1 ++ l2) = (lineas_utiles l1 ++ lineas_utiles l2)%list.
Proof. unfold lineas_utiles. now rewrite fmap_app, filter_app. Qed.

Lemma fold_paso_generica (raw lista : list string) (seen : gset string) :
  fold_left paso_generica raw (lista, seen) =
    ((lista ++ sin_repetir seen (lineas_utiles raw))%list,
     seen ∪ list_to_set (lineas_utiles raw)).
Proof.
  revert lista seen. induction raw as [|t raw IH]; intros lista seen.
  - simpl. now rewrite app_nil_r, (right_id_L ∅ (∪)).
  - cbn [fold_left]. unfold paso_generica at 2.
    change (t :: raw) with ([t] ++ raw)%list. rewrite lineas_utiles_app.
    unfold lineas_utiles at 1 3. cbn [fmap list_fmap].
    destruct (String.eqb_spec (strip t) "") as [E|E].
    + cbn [negb andb]. rewrite filter_cons_False by (intros H; now apply H).
      rewrite filter_nil. cbn [app]. apply IH.
    + cbn [negb andb]. rewrite filter_cons_True by assumption. rewrite filter_nil.
      cbn [app sin_repetir]. destruct (decide (strip t ∈ seen)) as [Hs|Hs].
      * rewrite (bool_decide_eq_false_2 (strip t ∉ seen)) by tauto.
        rewrite (bool_decide_eq_true_2 (strip t ∈ seen)) by assumption.
        rewrite IH. f_equal. set_solver.
      * rewrite (bool_decide_eq_true_2 (strip t ∉ seen)) by assumption.
        rewrite (bool_decide_eq_false_2 (strip t ∈ seen)) by assumption.
        rewrite IH, <- app_assoc. f_equal. set_solver.
Qed.

Lemma combinar_recs_genericas_fold (hits_dom : list hit)
    (tec trad : list string * gset string) :
  fold_left
    (fun '(tec, trad) (h : hit) =>
       (fold_left paso_generica (tecnicas_de (snd h)) tec,
        fold_left paso_generica (tradicionales_de (snd h)) trad))
    hits_dom (tec, trad) =
  (fold_left paso_generica
     (concat ((fun h : hit => tecnicas_de (snd h)) <$> hits_dom)) tec,
   fold_left paso_generica
     (concat ((fun h : hit => tradicionales_de (snd h)) <$> hits_dom)) trad).
Proof.
  revert tec trad. induction hits_dom as [|h hits IH]; intros tec trad;
    [reflexivity|].
  cbn [fold_left fmap list_fmap concat]. rewrite IH, !fold_left_app. reflexivity.
Qed.

Lemma sin_repetir_propiedades (l : list string) :
  NoDup (sin_repetir ∅ l) /\
  (forall t, t ∈ sin_repetir ∅ l <-> t ∈ l) /\
  sin_repetir ∅ l `sublist_of` l.
Proof.
  split; [apply sin_repetir_NoDup|]. split; [|apply sin_repetir_sublist].
  intros t. rewrite sin_repetir_elem. set_solver.
Qed.

(** X11. Generic fusion: each of the two lists is the sequence of first
    occurrences of the stripped, non-empty lines of the hits in rank
    order; it has no duplicates, holds exactly those lines and keeps their
    order; the technical and the traditional list do not influence each
    other. *)
Theorem combinar_recs_genericas_primeras (hits_dom : list hit) :
  let tec :=
    lineas_utiles (concat ((fun h : hit => tecnicas_de (snd h)) <$> hits_dom)) in
  let trad :=
    lineas_utiles
      (concat ((fun h : hit => tradicionales_de (snd h)) <$> hits_dom)) in
  let r := combinar_recs_genericas hits_dom in
  tecnicas r = sin_repetir ∅ tec /\
  tradicionales r = sin_repetir ∅ trad /\
  NoDup (tecnicas r) /\ NoDup (tradicionales r) /\
  (forall t, t ∈ tecnicas r <-> t ∈ tec) /\
  (forall t, t ∈ tradicionales r <-> t ∈ trad) /\
  tecnicas r `sublist_of` tec /\
  tradicionales r `sublist_of` trad /\
  "" ∉ tecnicas r /\ "" ∉ tradicionales r.
Proof.
  intros tec trad r.
  assert (Ht : tecnicas r = sin_repetir ∅ tec).
  { unfold r, combinar_recs_genericas. rewrite combinar_recs_genericas_fold.
    rewrite !fold_paso_generica. reflexivity. }
  assert (Hd : tradicionales r = sin_repetir ∅ trad).
  { unfold r, combinar_recs_genericas. rewrite combinar_recs_genericas_fold.
    rewrite !fold_paso_generica. reflexivity. }
  destruct (sin_repetir_propiedades tec) as (N1 & E1 & S1).
  destruct (sin_repetir_propiedades trad) as (N2 & E2 & S2).
  rewrite Ht, Hd. repeat split; try assumption; try apply E1; try apply E2.
  - rewrite E1. unfold tec, lineas_utiles. rewrite list_elem_of_filter. tauto.
  - rewrite E2. unfold trad, lineas_utiles. rewrite list_elem_of_filter. tauto.
Qed.

(** ** Extras of tier B *)

Lemma en_grupo_cons (c0 : string) (l0 : list string)
    (g : list (string * list string)) (c t : string) :
  en_grupo ((c0, l0) :: g) c t <-> (c = c0 /\ t ∈ l0) \/ en_grupo g c t.
Proof.
  unfold en_grupo. split.
  - intros (l & Hin & Ht). apply elem_of_cons in Hin as [[= -> ->] | Hin];
      [now left | right; eauto].
  - intros [[-> Ht] | (l & Hin & Ht)].
    + exists l0. split; [left | assumption].
    + exists l. split; [now right | assumption].
Qed.

Lemma agregar_a_grupo_en (cat txt : string) (g : list (string * list string))
    (c t : string) :
  en_grupo (agregar_a_grupo cat txt g) c t <->
  (c = cat /\ t = txt) \/ en_grupo g c t.
Proof.
  induction g as [|[c0 l0] g IH]; simpl.
  - rewrite en_grupo_cons, list_elem_of_singleton. unfold en_grupo. split.
    + intros [H | (l & Hin & _)]; [now left | by apply elem_of_nil in Hin].
    + intros [H | (l & Hin & _)]; [now left | by apply elem_of_nil in Hin].
  - destruct (String.eqb_spec c0 cat) as [->|Hne].
    + rewrite !en_grupo_cons. case_bool_decide as Hin.
      * split; [tauto|]. intros [[-> ->] | H]; tauto.
      * rewrite elem_of_app, list_elem_of_singleton. tauto.
    + rewrite !en_grupo_cons, IH. tauto.
Qed.

Lemma agregar_a_grupo_claves (cat txt : string)
    (g : list (string * list string)) :
  (fst <$> agregar_a_grupo cat txt g) =
    (if bool_decide (cat ∈ (fst <$> g)) then (fst <$> g)
     else ((fst <$> g) ++ [cat])%list).
Proof.
  induction g as [|[c0 l0] g IH]; [reflexivity|].
  cbn [agregar_a_grupo]. rewrite (fmap_cons fst (c0, l0) g). cbn [fst].
  destruct (String.eqb_spec c0 cat) as [->|Hne].
  - rewrite fmap_cons. cbn [fst]. now rewrite bool_decide_eq_true_2 by left.
  - rewrite fmap_cons. cbn [fst]. rewrite IH. case_bool_decide as H1.
    + now rewrite bool_decide_eq_true_2 by (now right).
    + rewrite bool_decide_eq_false_2; [reflexivity|].
      intros H. apply elem_of_cons in H as [?|?]; congruence.
Qed.

Lemma agregar_a_grupo_ok (cat txt : string) (g : list (string * list string)) :
  txt <> "" -> grupos_ok g -> grupos_ok (agregar_a_grupo cat txt g).
Proof.
  intros Ht [Hk Hg]. split.
  - rewrite agregar_a_grupo_claves. case_bool_decide as H; [assumption|].
    apply NoDup_app. split; [assumption|]. split; [|apply NoDup_singleton].
    intros x Hx Hx'. apply list_elem_of_singleton in Hx'. now subst.
  - clear Hk. induction Hg as [|[c0 l0] g (Hn & He & Hv) Hg' IH]; simpl.
    + repeat constructor; simpl; [set_solver | discriminate | set_solver].
    + destruct (String.eqb_spec c0 cat) as [->|Hne].
      * constructor; [|assumption]. simpl in *. case_bool_decide as Hin.
        -- done.
        -- split; [|split].
           ++ apply NoDup_app. split; [assumption|].
              split; [|apply NoDup_singleton].
              intros x Hx Hx'. apply list_elem_of_singleton in Hx'. now subst.
           ++ now destruct l0.
           ++ rewrite elem_of_app, list_elem_of_singleton. intros [?|?]; auto.
      * constructor; [done | assumption].
Qed.

Lemma fold_paso_grupo (extras_B : list extra) (g : list (string * list string)) :
  grupos_ok g ->
  grupos_ok (fold_left paso_grupo extras_B g) /\
  forall cat txt,
    en_grupo (fold_left paso_grupo extras_B g) cat txt <->
    en_grupo g cat txt \/
    exists e, e ∈ extras_B /\ categoria_de e = cat /\
              strip (e_texto e) = txt /\ txt <> "".
Proof.
  revert g. induction extras_B as [|e extras IH]; intros g Hg.
  - simpl. split; [assumption|]. intros cat txt. split; [tauto|].
    intros [H | (e & He & _)]; [assumption | by apply elem_of_nil in He].
  - cbn [fold_left].
    assert (Hstep : grupos_ok (paso_grupo g e) /\
              forall cat txt, en_grupo (paso_grupo g e) cat txt <->
                en_grupo g cat txt \/
                (categoria_de e = cat /\ strip (e_texto e) = txt /\ txt <> "")).
    { unfold paso_grupo. fold (categoria_de e).
      destruct (String.eqb_spec (strip (e_texto e)) "") as [E|E].
      - split; [assumption|]. intros cat txt. split; [tauto|].
        intros [H | (_ & H1 & H2)]; [assumption | congruence].
      - split; [now apply agregar_a_grupo_ok|]. intros cat txt.
        rewrite agregar_a_grupo_en. split.
        + intros [[-> ->] | H]; [right | now left]. done.
        + intros [H | (<- & <- & _)]; [now right | now left]. }
    destruct Hstep as [Hok Hen]. destruct (IH _ Hok) as [IH1 IH2].
    split; [assumption|]. intros cat txt. rewrite IH2, Hen. split.
    + intros [[H | (H1 & H2 & H3)] | (e' & He' & H)].
      * now left.
      * right. exists e. split; [left | done].
      * right. exists e'. split; [now right | done].
    + intros [H | (e' & He' & H)]; [left; now left|].
      apply elem_of_cons in He' as [-> | He'].
      * left. right. done.
      * right. eauto.
Qed.

(** X12. Grouping of the extras: no category appears twice, every category
    lists distinct non-empty texts, and a text is listed under a category
    exactly when some extra of that category (general when it has none)
    has that text once stripped. *)
Theorem agrupar_extras_B_grupos (extras_B : list extra) :
  grupos_ok (agrupar_extras_B extras_B) /\
  forall cat txt,
    en_grupo (agrupar_extras_B extras_B) cat txt <->
    exists e, e ∈ extras_B /\ categoria_de e = cat /\
              strip (e_texto e) = txt /\ txt <> "".
Proof.
  assert (H0 : grupos_ok []) by (split; constructor).
  destruct (fold_paso_grupo extras_B [] H0) as [H1 H2].
  change (fold_left paso_grupo extras_B []) with (agrupar_extras_B extras_B)
    in H1, H2.
  split; [assumption|]. intros cat txt. rewrite H2. split; [|tauto].
  intros [(l & Hin & _) | H]; [by apply elem_of_nil in Hin | assumption].
Qed.

Lemma similarity_weighted_B_rango (qvec cvec : vector) (query_alt : option Q) :
  (0 <= similarity_weighted_B qvec cvec query_alt <= 1)%Q.
Proof. apply clip01_range. Qed.

Lemma elem_of_concat {A} (x : A) (ls : list (list A)) :
  x ∈ concat ls <-> exists l, x ∈ l /\ l ∈ ls.
Proof.
  rewrite list_elem_of_In, in_concat. split.
  - intros (l & H1 & H2). exists l. now rewrite !list_elem_of_In.
  - intros (l & H1 & H2). exists l. now rewrite <- !list_elem_of_In.
Qed.

Section ExtrasB.

Variable trig_mes : nat -> Q * Q.

(** X13. Extras of tier B: the retrieved neighbours are at most max(1, kB)
    cases of the store that are historical or carry a station name, in
    descending order of a score within [0, 1]; and the extras are exactly
    the values of the neighbours' recommendation mappings that are not
    falsy, one extra per key, advice lists included: each carries the key
    as its category, the stripped [str] of the value as its text, and the
    neighbour's station, id and rounded score.  So a neighbour gives an
    extra for each category with a non-empty text, and one under
    [tecnicas] when it has technical lines. *)
Theorem extras_from_B_origen (cases : list caso) (query_context : params)
    (kB : Z) :
  let extras := fst (extras_from_B trig_mes cases query_context kB) in
  let top := snd (extras_from_B trig_mes cases query_context kB) in
  let recs_de (h : hit) :=
    default recomendaciones_vacias (caso_recomendaciones (snd h)) in
  let extra_de (h : hit) (cat : string) (v : valor_rec) :=
    {| e_texto := strip (py_str v);
       e_categoria_b := cat;
       e_fuente := "Dataset B (histórico por estación)";
       e_estacion :=
         ctx_estacion (default contexto_vacio (caso_contexto (snd h)));
       e_similitud := round3 (fst h);
       e_id_caso := id (snd h) |} in
  (length top <= Z.to_nat (Z.max 1 kB))%nat /\
  (length top <= length cases)%nat /\
  StronglySorted no_menor top /\
  (forall h, h ∈ top ->
     snd h ∈ cases /\
     (tipo (snd h) = Some "historico" \/
      truthy (ctx_estacion (default contexto_vacio (caso_contexto (snd h))))
        = true) /\
     (0 <= fst h <= 1)%Q) /\
  (forall e,
     e ∈ extras <->
     exists h cat v,
       h ∈ top /\ (cat, v) ∈ items_rec (recs_de h) /\ es_falso v = false /\
       e = extra_de h cat v) /\
  (forall e, e ∈ extras -> (0 <= e_similitud e <= 1)%Q) /\
  (forall h cat txt,
     h ∈ top -> (cat, txt) ∈ por_categoria (recs_de h) -> txt <> "" ->
     extra_de h cat (Texto txt) ∈ extras /\
     e_texto (extra_de h cat (Texto txt)) = strip txt) /\
  (forall h,
     h ∈ top -> tecnicas (recs_de h) <> [] ->
     extra_de h "tecnicas" (Lineas (tecnicas (recs_de h))) ∈ extras) /\
  (forall h,
     h ∈ top -> tradicionales (recs_de h) <> [] ->
     extra_de h "tradicionales" (Lineas (tradicionales (recs_de h))) ∈ extras).
Proof.
  intros extras top recs_de extra_de.
  unfold extras, top, extras_from_B.
  destruct (mes_to_sin_cos trig_mes (p_mes query_context)) as [msin mcos].
  cbn [fst snd].
  match goal with
  | |- context [primeros kB (ordenar_desc ?s)] => set (scored := s)
  end.
  pose proof (ordenar_desc_perm scored) as Hperm.
  pose proof (ordenar_desc_sorted scored) as Hsort.
  assert (Htop : forall h, h ∈ primeros kB (ordenar_desc scored) ->
            snd h ∈ cases /\
            (tipo (snd h) = Some "historico" \/
             truthy (ctx_estacion
                       (default contexto_vacio (caso_contexto (snd h)))) = true) /\
            (0 <= fst h <= 1)%Q).
  { intros h Hh. unfold primeros in Hh. apply elem_of_take in Hh as (i & Hi & _).
    apply list_elem_of_lookup_2 in Hi. rewrite Hperm in Hi.
    unfold scored in Hi. apply list_elem_of_fmap in Hi as (c & -> & Hc).
    apply list_elem_of_filter in Hc as [Hp Hc]. cbn [fst snd].
    split; [assumption|]. split; [assumption|].
    apply similarity_weighted_B_rango. }
  assert (Hex : forall e,
            e ∈ concat (extras_de <$> primeros kB (ordenar_desc scored)) <->
            exists h cat v,
              h ∈ primeros kB (ordenar_desc scored) /\
              (cat, v) ∈ items_rec (recs_de h) /\ es_falso v = false /\
              e = extra_de h cat v).
  { intros e. rewrite elem_of_concat. split.
    - intros (l & He & Hl). apply list_elem_of_fmap in Hl as ([s c] & -> & Hh).
      unfold extras_de in He. apply list_elem_of_omap in He as ([cat v] & Hin & Hf).
      destruct (es_falso v) eqn:E; [discriminate|].
      injection Hf as <-. exists (s, c), cat, v. done.
    - intros ([s c] & cat & v & Hh & Hin & Hne & ->).
      exists (extras_de (s, c)). split; [|now apply list_elem_of_fmap_2].
      unfold extras_de. apply list_elem_of_omap. exists (cat, v).
      split; [assumption|]. now rewrite Hne. }
  split; [|split; [|split; [|split; [|split; [|split; [|split; [|split]]]]]]].
  - unfold primeros. rewrite length_take. lia.
  - unfold primeros. rewrite length_take, Hperm. unfold scored.
    rewrite length_fmap. pose proof (length_filter
      (fun c => tipo c = Some "historico" \/
                truthy (ctx_estacion (default contexto_vacio (caso_contexto c)))
                  = true) cases). lia.
  - unfold primeros. rewrite <- (take_drop (Z.to_nat (Z.max 1 kB))) in Hsort.
    now apply StronglySorted_app in Hsort as (_ & H & _).
  - exact Htop.
  - exact Hex.
  - intros e He. apply Hex in He as (h & cat & v & Hh & _ & _ & ->).
    cbn [e_similitud]. apply round3_props. now apply Htop.
  - intros h cat txt Hh Hin Hne. split; [|reflexivity].
    apply Hex. exists h, cat, (Texto txt). split; [assumption|].
    split; [|split; [|reflexivity]].
    + unfold items_rec. do 2 apply list_elem_of_further.
      apply list_elem_of_fmap. now exists (cat, txt).
    + cbn [es_falso]. now apply String.eqb_neq.
  - intros h Hh Hne. apply Hex. exists h, "tecnicas", (Lineas (tecnicas (recs_de h))).
    split; [assumption|]. split; [|split; [|reflexivity]].
    + unfold items_rec. apply list_elem_of_here.
    + cbn [es_falso]. now destruct (tecnicas (recs_de h)).
  - intros h Hh Hne. apply Hex.
    exists h, "tradicionales", (Lineas (tradicionales (recs_de h))).
    split; [assumption|]. split; [|split; [|reflexivity]].
    + unfold items_rec. apply list_elem_of_further, list_elem_of_here.
    + cbn [es_falso]. now destruct (tradicionales (recs_de h)).
Qed.

End ExtrasB.

(** ** Stores and retention *)

Lemma valor_decimal_uint (d : Decimal.uint) (acc : nat) :
  valor_decimal_desde (Z.of_nat acc) (NilEmpty.string_of_uint d)
  = Z.of_nat (Nat.of_uint_acc d acc).
Proof.
  revert acc. induction d; intros acc; cbn [NilEmpty.string_of_uint
    valor_decimal_desde Nat.of_uint_acc]; [reflexivity|..];
    rewrite <- IHd; f_equal; rewrite Nat.tail_mul_spec;
    match goal with
    | |- context [nat_of_ascii ?c] =>
        let v := eval vm_compute in (nat_of_ascii c) in
        change (nat_of_ascii c) with v
    end; lia.
Qed.

Lemma valor_decimal_ceros (k : nat) (s : string) :
  valor_decimal_desde 0 (ceros k ++ s) = valor_decimal_desde 0 s.
Proof.
  induction k as [|k IH]; [reflexivity|].
  cbn [ceros]. rewrite string_app_cons. cbn [valor_decimal_desde].
  exact IH.
Qed.

Lemma formato_04d_valor (n : nat) :
  valor_decimal_desde 0 (formato_04d n) = Z.of_nat n.
Proof.
  unfold formato_04d. rewrite valor_decimal_ceros. unfold decimal.
  unfold NilZero.string_of_uint.
  rewrite <- (DecimalNat.Unsigned.of_to n) at 2. unfold Nat.of_uint.
  destruct (Nat.to_uint n) eqn:E; try apply (valor_decimal_uint _ 0).
  reflexivity.
Qed.

Lemma formato_04d_inj (n m : nat) : formato_04d n = formato_04d m -> n = m.
Proof.
  intros H. apply Nat2Z.inj. now rewrite <- !formato_04d_valor, H.
Qed.

(** X14. The number written in an id reads back: the digits of the id of
    the n-th record denote n, so ids of different record counts differ. *)
Theorem formato_04d_ida_y_vuelta (n m : nat) :
  valor_decimal (formato_04d n) = inject_Z (Z.of_nat n) /\
  (formato_04d n = formato_04d m -> n = m) /\
  (4 <= String.length (formato_04d n))%nat.
Proof.
  split; [|split].
  - unfold valor_decimal. now rewrite formato_04d_valor.
  - apply formato_04d_inj.
  - apply formato_04d_length.
Qed.

Lemma casos_de_elem (w : mundo) (paths : list string) (c : caso) :
  c ∈ casos_de w paths <->
  exists pth data,
    pth ∈ paths /\ archivos w !! pth = Some (Lista data) /\ c ∈ data.
Proof.
  unfold casos_de. rewrite elem_of_concat. split.
  - intros (l & Hc & Hl). apply list_elem_of_fmap in Hl as (pth & -> & Hp).
    unfold cases_existing_de in Hc.
    destruct (archivos w !! pth) as [[| |data]|] eqn:E;
      try (by apply elem_of_nil in Hc).
    now exists pth, data.
  - intros (pth & data & Hp & E & Hc). exists data. split; [assumption|].
    apply list_elem_of_fmap. exists pth. split; [|assumption].
    unfold cases_existing_de. now rewrite E.
Qed.

(** X15. Loader: while no source raises, the cases of the sources that hold
    a sequence are concatenated in path order and every missing or
    non-sequence path adds one warning; at the first source that cannot be
    read the loader raises, keeping only the warnings printed before it,
    whatever follows in the list. *)
Theorem load_cases_politica (w : mundo) (paths : list string) :
  (Forall (fun pth => archivos w !! pth <> Some Ilegible) paths ->
     load_cases w paths = (avisos_de w paths, Ok (casos_de w paths))) /\
  (forall antes pth despues,
     paths = (antes ++ pth :: despues)%list ->
     Forall (fun pth => archivos w !! pth <> Some Ilegible) antes ->
     archivos w !! pth = Some Ilegible ->
     load_cases w paths = (avisos_de w antes, Raise (ErrorLectura pth))) /\
  (forall c,
     c ∈ casos_de w paths <->
     exists pth data,
       pth ∈ paths /\ archivos w !! pth = Some (Lista data) /\ c ∈ data) /\
  (forall l1 l2,
     casos_de w (l1 ++ l2) = (casos_de w l1 ++ casos_de w l2)%list) /\
  (length (avisos_de w paths) <= length paths)%nat.
Proof.
  split; [|split; [|split; [|split]]].
  - intros H. unfold load_cases. now rewrite load_cases_desde_legibles.
  - intros antes pth despues -> Ha Hp. unfold load_cases.
    now rewrite (load_cases_desde_ilegible w antes despues pth [] [] Ha Hp).
  - apply casos_de_elem.
  - intros l1 l2. unfold casos_de. now rewrite fmap_app, concat_app.
  - unfold avisos_de. induction paths as [|pth paths IH]; [reflexivity|].
    cbn [omap list_omap length].
    destruct (archivos w !! pth) as [[| |?]|]; cbn [length]; lia.
Qed.

Lemma cases_existing_de_tras_append (w w' : mundo) (save_path nuevo_id : string)
    (c : caso) :
  append_case_to_yaml w save_path c = Ok (nuevo_id, w') ->
  (save_path ∉ protegidos w) /\
  protegidos w' = protegidos w /\
  nuevo_id =
    ("NEW-" ++ formato_04d (length (cases_existing_de w save_path) + 1)) /\
  archivos w' !! save_path =
    Some (Lista (cases_existing_de w save_path ++ [con_id c (Some nuevo_id)])) /\
  (forall otra, otra <> save_path -> archivos w' !! otra = archivos w !! otra).
Proof.
  unfold append_case_to_yaml. case_bool_decide as Hp; [discriminate|].
  intros H. injection H as <- <-. split; [assumption|]. split; [reflexivity|].
  split; [reflexivity|]. split.
  - simpl. now rewrite lookup_insert_eq.
  - intros otra Hne. simpl. now apply lookup_insert_ne.
Qed.

Lemma prefijo_NEW_inj (a b : string) : "NEW-" ++ a = "NEW-" ++ b -> a = b.
Proof. intros H. cbv in H. now injection H. Qed.

(** X16. Two retentions in a row on the same writable store succeed, the
    second id is the successor of the first, the two ids differ, and the
    store ends as the records read back at the start followed by the two
    new cases in order; the other stores are untouched. *)
Theorem append_case_to_yaml_consecutivos (w : mundo) (save_path : string)
    (c1 c2 : caso) :
  save_path ∉ protegidos w ->
  let n := length (cases_existing_de w save_path) in
  let id1 := "NEW-" ++ formato_04d (n + 1) in
  let id2 := "NEW-" ++ formato_04d (n + 2) in
  exists w1 w2,
    append_case_to_yaml w save_path c1 = Ok (id1, w1) /\
    append_case_to_yaml w1 save_path c2 = Ok (id2, w2) /\
    id1 <> id2 /\
    archivos w2 !! save_path =
      Some (Lista (cases_existing_de w save_path ++
                   [con_id c1 (Some id1); con_id c2 (Some id2)])) /\
    (forall otra, otra <> save_path -> archivos w2 !! otra = archivos w !! otra).
Proof.
  intros Hw n id1 id2.
  destruct (append_case_to_yaml w save_path c1) as [[i1 w1]|e] eqn:E1;
    [|unfold append_case_to_yaml in E1;
      rewrite bool_decide_eq_false_2 in E1 by assumption; discriminate].
  destruct (cases_existing_de_tras_append _ _ _ _ _ E1)
    as (_ & Hp1 & Hi1 & Hc1 & Ho1).
  fold n in Hi1. fold id1 in Hi1. subst i1.
  assert (Hw1 : save_path ∉ protegidos w1) by now rewrite Hp1.
  destruct (append_case_to_yaml w1 save_path c2) as [[i2 w2]|e] eqn:E2;
    [|unfold append_case_to_yaml in E2;
      rewrite bool_decide_eq_false_2 in E2 by assumption; discriminate].
  destruct (cases_existing_de_tras_append _ _ _ _ _ E2)
    as (_ & Hp2 & Hi2 & Hc2 & Ho2).
  assert (He1 : cases_existing_de w1 save_path =
                (cases_existing_de w save_path ++ [con_id c1 (Some id1)])%list)
    by (unfold cases_existing_de at 1; now rewrite Hc1).
  rewrite He1 in Hc2, Hi2. rewrite length_app in Hi2. simpl in Hi2.
  fold n in Hi2.
  replace (n + 1 + 1)%nat with (n + 2)%nat in Hi2 by lia. fold id2 in Hi2.
  subst i2. exists w1, w2. split; [reflexivity|]. split; [exact E2|].
  split; [|split].
  - intros Heq. apply prefijo_NEW_inj, formato_04d_inj in Heq. lia.
  - rewrite Hc2, <- app_assoc. reflexivity.
  - intros otra Hne. rewrite Ho2, Ho1 by assumption. reflexivity.
Qed.

(** X16 on the sample stores: the first two retained ids. *)
Lemma append_case_to_yaml_consecutivos_witness :
  (ruta_C ∉ protegidos mundo_ejemplo) /\
  exists w1 w2,
    append_case_to_yaml mundo_ejemplo ruta_C caso_A1 = Ok ("NEW-0001", w1) /\
    append_case_to_yaml w1 ruta_C caso_A2 = Ok ("NEW-0002", w2).
Proof.
  assert (H : ruta_C ∉ protegidos mundo_ejemplo) by (vm_compute; set_solver).
  split; [exact H|].
  destruct (append_case_to_yaml_consecutivos mundo_ejemplo ruta_C caso_A1 caso_A2 H)
    as (w1 & w2 & H1 & H2 & _).
  exists w1, w2. split; [exact H1 | exact H2].
Defined.

Lemma truthy_Some (o : option string) :
  truthy o = true <-> exists s, o = Some s /\ s <> "".
Proof.
  unfold truthy. destruct o as [s|]; simpl.
  - destruct (String.eqb_spec s ""); simpl; split.
    + discriminate.
    + intros (s' & [= <-] & Hne). contradiction.
    + intros _. eauto.
    + reflexivity.
  - split; [discriminate|]. intros (s & [=] & _).
Qed.

Lemma retener_sin_destino (w : mundo) (p : params) (fase : string)
    (res : list (string * resultado_dom)) :
  truthy (p_save_case_to p) = false -> retener w p fase res = ([], w, None).
Proof. intros H. unfold retener. now rewrite H. Qed.

Lemma retener_con_destino (w : mundo) (p : params) (fase : string)
    (res : list (string * resultado_dom)) (save_path : string) :
  p_save_case_to p = Some save_path -> save_path <> "" ->
  retener w p fase res =
    match append_case_to_yaml w save_path (out_case_de p fase res) with
    | Ok (nuevo_id, w') => ([], w', Some nuevo_id)
    | Raise _ => ([aviso_no_guardado save_path], w, None)
    end.
Proof.
  intros Hs Hne. unfold retener.
  assert (Ht : truthy (p_save_case_to p) = true)
    by (apply truthy_Some; eauto).
  rewrite Ht, Hs. reflexivity.
Qed.

Section Desenlaces.

Variable trig_mes : nat -> Q * Q.

(** X17. Outcomes of retention.  Without a target (absent or empty) the
    pipeline prints nothing, leaves every store as it was and reports no
    retained id.  With a target that cannot be written the response is
    still returned: one warning is printed, the stores are unchanged and
    the retained id is null.  With a writable target no warning is
    printed, the reported id is the id of the case appended to the target,
    and every other store is unchanged.  In all three the per-domain
    results are those of the run without retention. *)
Theorem pipeline_retencion (w : mundo) (p : params) (cases : list caso) :
  exists avisos w' out,
    pipeline trig_mes w p cases = (avisos, w', Ok out) /\
    protegidos w' = protegidos w /\
    (truthy (p_save_case_to p) = false ->
       avisos = [] /\ w' = w /\ saved_case_id out = None) /\
    (forall save_path,
       p_save_case_to p = Some save_path -> save_path <> "" ->
       (save_path ∈ protegidos w ->
          avisos = [aviso_no_guardado save_path] /\ w' = w /\
          saved_case_id out = None) /\
       (save_path ∉ protegidos w ->
          avisos = [] /\
          (exists nuevo_id retenido,
             saved_case_id out = Some nuevo_id /\
             id retenido = Some nuevo_id /\
             archivos w' !! save_path =
               Some (Lista (cases_existing_de w save_path ++ [retenido]))) /\
          (forall otra, otra <> save_path ->
             archivos w' !! otra = archivos w !! otra))) /\
    (forall w0 : mundo,
       exists avisos0 w0' out0,
         pipeline trig_mes w0 p cases = (avisos0, w0', Ok out0) /\
         resultados_A out0 = resultados_A out /\
         extras_B_raw out0 = extras_B_raw out /\
         extras_B_agrupados out0 = extras_B_agrupados out /\
         s_consulta out0 = s_consulta out).
Proof.
  unfold pipeline. rewrite recuperar_ok.
  set (res := fusionar _ _).
  destruct (retener w p (fase_de p) res) as [[avisos w'] saved] eqn:E.
  do 3 eexists. split; [reflexivity|]. simpl.
  split; [|split; [|split]].
  - unfold retener in E. destruct (truthy _).
    + unfold append_case_to_yaml in E. case_bool_decide.
      * now injection E as <- <- <-.
      * now injection E as <- <- <-.
    + now injection E as <- <- <-.
  - intros Ht. rewrite retener_sin_destino in E by assumption.
    now injection E as <- <- <-.
  - intros save_path Hs Hne.
    rewrite (retener_con_destino _ _ _ _ _ Hs Hne) in E.
    unfold append_case_to_yaml in E. split; intros Hp.
    + rewrite bool_decide_eq_true_2 in E by assumption.
      now injection E as <- <- <-.
    + rewrite bool_decide_eq_false_2 in E by assumption.
      injection E as <- <- <-. split; [reflexivity|]. split.
      * do 2 eexists. split; [reflexivity|]. split; [|apply lookup_insert_eq].
        reflexivity.
      * intros otra Ho. simpl. now apply lookup_insert_ne.
  - intros w0.
    destruct (retener w0 p (fase_de p) res) as [[avisos0 w0'] saved0] eqn:E0.
    do 3 eexists. split; [reflexivity|]. simpl. done.
Qed.

End Desenlaces.

(** X17 on the sample request, whose retention target is writable. *)
Lemma pipeline_retencion_witness :
  exists avisos w' out,
    pipeline trig_ejemplo mundo_ejemplo params_ejemplo casos_ejemplo
      = (avisos, w', Ok out) /\
    avisos = [] /\
    exists nuevo_id, saved_case_id out = Some nuevo_id.
Proof.
  destruct (pipeline_retencion trig_ejemplo mundo_ejemplo params_ejemplo
              casos_ejemplo) as (avisos & w' & out & Hp & _ & _ & Hs & _).
  destruct (Hs ruta_C eq_refl ltac:(discriminate)) as [_ Hw].
  destruct Hw as (Ha & (nuevo_id & _ & Hid & _) & _);
    [vm_compute; set_solver|].
  exists avisos, w', out. split; [exact Hp|]. split; [exact Ha|].
  exists nuevo_id. exact Hid.
Defined.

(** ** Orchestrator and handler *)

Lemma primer_ilegible (w : mundo) (paths : list string) :
  Forall (fun pth => archivos w !! pth <> Some Ilegible) paths \/
  exists antes pth despues,
    paths = (antes ++ pth :: despues)%list /\
    Forall (fun pth => archivos w !! pth <> Some Ilegible) antes /\
    archivos w !! pth = Some Ilegible.
Proof.
  induction paths as [|q paths IH]; [left; constructor|].
  destruct (archivos w !! q) as [[| |data]|] eqn:E.
  - right. exists [], q, paths. split; [reflexivity|]. split; [constructor | exact E].
  - destruct IH as [IH | (antes & pth & despues & -> & Ha & Hp)].
    + left. constructor; [congruence | assumption].
    + right. exists (q :: antes), pth, despues. split; [reflexivity|].
      split; [constructor; [congruence | assumption] | assumption].
  - destruct IH as [IH | (antes & pth & despues & -> & Ha & Hp)].
    + left. constructor; [congruence | assumption].
    + right. exists (q :: antes), pth, despues. split; [reflexivity|].
      split; [constructor; [congruence | assumption] | assumption].
  - destruct IH as [IH | (antes & pth & despues & -> & Ha & Hp)].
    + left. constructor; [congruence | assumption].
    + right. exists (q :: antes), pth, despues. split; [reflexivity|].
      split; [constructor; [congruence | assumption] | assumption].
Qed.

Lemma load_cases_desenlace (w : mundo) (paths : list string) :
  (Forall (fun pth => archivos w !! pth <> Some Ilegible) paths /\
   load_cases w paths = (avisos_de w paths, Ok (casos_de w paths))) \/
  (exists antes pth despues,
     paths = (antes ++ pth :: despues)%list /\
     archivos w !! pth = Some Ilegible /\
     load_cases w paths = (avisos_de w antes, Raise (ErrorLectura pth))).
Proof.
  destruct (primer_ilegible w paths) as [H | (antes & pth & despues & -> & Ha & Hp)].
  - left. split; [assumption | now apply load_cases_legibles].
  - right. exists antes, pth, despues. split; [reflexivity|].
    split; [assumption|]. unfold load_cases.
    now rewrite load_cases_desde_ilegible.
Qed.

Section Excepciones.

Variable trig_mes : nat -> Q * Q.

(** X18. What [run_cbr] can raise.  Whatever the request, the selector
    included, a run raises only in two ways: the read error of the first
    source of the request that exists but cannot be parsed, with the
    stores untouched; or, in a verbose run that had cases to work on, the
    read of the unassigned local.  No run raises a [KeyError] and no
    write error leaves the function.  A run returns no response exactly
    when every source could be read and none held a case; then the stores
    are untouched and the last line printed says so. *)
Theorem run_cbr_excepciones (w : mundo) (p : params) (verbose : bool) :
  (forall avisos w' e,
     run_cbr trig_mes w p verbose = (avisos, w', Raise e) ->
     (exists antes pth despues,
        p_data p = (antes ++ pth :: despues)%list /\
        archivos w !! pth = Some Ilegible /\
        e = ErrorLectura pth /\ w' = w /\ avisos = avisos_de w antes) \/
     (verbose = true /\ e = UnboundLocalError "output" /\
      casos_de w (p_data p) <> [])) /\
  (forall avisos w' e,
     run_cbr trig_mes w p verbose = (avisos, w', Raise e) ->
     (forall k, e <> KeyError k) /\ (forall pth, e <> ErrorEscritura pth)) /\
  (forall avisos w',
     run_cbr trig_mes w p verbose = (avisos, w', Ok None) <->
     Forall (fun pth => archivos w !! pth <> Some Ilegible) (p_data p) /\
     casos_de w (p_data p) = [] /\ w' = w /\
     avisos = (avisos_de w (p_data p) ++ [aviso_sin_casos])%list).
Proof.
  assert (Hraise : forall avisos w' e,
     run_cbr trig_mes w p verbose = (avisos, w', Raise e) ->
     (exists antes pth despues,
        p_data p = (antes ++ pth :: despues)%list /\
        archivos w !! pth = Some Ilegible /\
        e = ErrorLectura pth /\ w' = w /\ avisos = avisos_de w antes) \/
     (verbose = true /\ e = UnboundLocalError "output" /\
      casos_de w (p_data p) <> [])).
  { intros avisos w' e Hrun.
    destruct (load_cases_desenlace w (p_data p))
      as [[Hleg Hl] | (antes & pth & despues & Hd & Hp & Hl)].
    - destruct (run_cbr_cargados trig_mes w p verbose _ _ Hl) as [H0 H1].
      destruct (casos_de w (p_data p)) as [|c cs] eqn:Ec.
      + rewrite H0 in Hrun by reflexivity. discriminate.
      + destruct H1 as (a' & w1 & out & _ & Hr); [discriminate|].
        rewrite Hr in Hrun. destruct verbose; [|discriminate].
        injection Hrun as _ _ <-. right. split; [reflexivity|].
        split; [reflexivity | discriminate].
    - unfold run_cbr in Hrun. rewrite Hl in Hrun.
      injection Hrun as <- <- <-. left. exists antes, pth, despues. done. }
  split; [exact Hraise|]. split.
  - intros avisos w' e Hrun.
    destruct (Hraise _ _ _ Hrun) as [(? & ? & ? & _ & _ & -> & _) | (_ & -> & _)];
      split; intros; discriminate.
  - intros avisos w'. split.
    + intros Hrun.
      destruct (load_cases_desenlace w (p_data p))
        as [[Hleg Hl] | (antes & pth & despues & Hd & Hp & Hl)].
      * destruct (run_cbr_cargados trig_mes w p verbose _ _ Hl) as [H0 H1].
        destruct (casos_de w (p_data p)) as [|c cs] eqn:Ec.
        -- rewrite H0 in Hrun by reflexivity. injection Hrun as <- <-. done.
        -- destruct H1 as (a' & w1 & out & _ & Hr); [discriminate|].
           rewrite Hr in Hrun. destruct verbose; discriminate.
      * unfold run_cbr in Hrun. rewrite Hl in Hrun. discriminate.
    + intros (Hleg & Hc & -> & ->).
      pose proof (load_cases_legibles w (p_data p) Hleg) as Hl.
      destruct (run_cbr_cargados trig_mes w p verbose _ _ Hl) as [H0 _].
      now apply H0.
Qed.

End Excepciones.

(** X18 on the stores whose first source cannot be parsed. *)
Lemma run_cbr_excepciones_witness :
  exists antes pth despues,
    p_data params_ejemplo = (antes ++ pth :: despues)%list /\
    archivos mundo_ilegible !! pth = Some Ilegible.
Proof.
  destruct (run_cbr_excepciones trig_ejemplo mundo_ilegible params_ejemplo false)
    as (H & _).
  destruct (H [] mundo_ilegible (ErrorLectura ruta_A) eq_refl)
    as [(antes & pth & despues & Hd & Hp & _) | (Hv & _)]; [|discriminate].
  exists antes, pth, despues. split; [exact Hd | exact Hp].
Defined.

Section Forma.

Variable trig_mes : nat -> Q * Q.

Lemma recuperado_props (cases : list caso) (p : params) (dom : string) :
  let apl := dominio_aplica dom (fase_de p) (p_meses_despues_siembra p) in
  let r := recuperado trig_mes cases p dom in
  m_aplica (snd r) = fst apl /\
  m_razon_no_aplica (snd r) = snd apl /\
  (length (fst r) <= Z.to_nat (Z.max 1 (p_k p)))%nat /\
  (length (fst r) <= length cases)%nat /\
  (fst apl = false -> fst r = []) /\
  (forall h, h ∈ fst r ->
     tipo (snd h) = Some dom /\ snd h ∈ cases /\ (0 <= fst h <= 1)%Q).
Proof.
  intros apl r. unfold r, recuperado.
  destruct (fst apl) eqn:E; unfold apl in E.
  - destruct (top_k_A_aplica trig_mes cases (extract_input_vector trig_mes p)
                dom (p_k p) _ _ E) as (weights & Hw & ->).
    apply dominio_aplica_conocido in E as [Ha _]. unfold apl. rewrite Ha.
    simpl. split; [reflexivity|]. split; [reflexivity|].
    set (scored := (_ <$> _)).
    assert (Hin : forall h, h ∈ ordenar_desc scored ->
              tipo (snd h) = Some dom /\ snd h ∈ cases /\ (0 <= fst h <= 1)%Q).
    { intros h Hh. rewrite ordenar_desc_perm in Hh. unfold scored in Hh.
      apply list_elem_of_fmap in Hh as (c & -> & Hc).
      apply list_elem_of_filter in Hc as [Ht Hc]. simpl.
      split; [assumption|]. split; [assumption|]. apply puntaje_A_range. }
    split; [|split; [|split]].
    + rewrite primeros_length. lia.
    + rewrite primeros_length, ordenar_desc_perm. unfold scored.
      rewrite length_fmap. pose proof (length_filter (fun c => tipo c = Some dom) cases).
      lia.
    + discriminate.
    + intros h Hh. apply Hin. unfold primeros in Hh.
      apply elem_of_take in Hh as (i & Hi & _).
      now apply list_elem_of_lookup_2 in Hi.
  - pose proof (dominio_aplica_razon _ _ _ E) as Hr.
    unfold top_k_A, top_k_A_con. unfold apl. rewrite Hr. simpl.
    split; [reflexivity|]. split; [reflexivity|]. split; [lia|]. split; [lia|].
    split; [reflexivity|]. intros h Hh. by apply elem_of_nil in Hh.
Qed.

Lemma fusionar_claves (mds : option Q) (h : string -> list hit * meta)
    (l : list string) :
  fst <$> fusionar mds ((fun d => (d, h d)) <$> l) = l.
Proof.
  unfold fusionar.
  induction l as [|d l IH]; [reflexivity|]. rewrite !fmap_cons. simpl.
  now rewrite IH.
Qed.

Lemma fusionar_elem (mds : option Q) (h : string -> list hit * meta)
    (l : list string) (dom : string) (r : resultado_dom) :
  (dom, r) ∈ fusionar mds ((fun d => (d, h d)) <$> l) ->
  dom ∈ l /\ r = resultado_de_dominio dom (fst (h dom)) (snd (h dom)) mds.
Proof.
  unfold fusionar.
  intros H. apply list_elem_of_fmap in H as ([d hd] & Heq & Hd).
  apply list_elem_of_fmap in Hd as (d' & [= -> ->] & Hd).
  simpl in Heq. injection Heq as -> ->. now split.
Qed.

(** X19. Shape of the response of a silent run.  The per-domain results
    are keyed by the requested domains in order: the three domains for the
    selector auto, the selector itself otherwise.  The echoed query holds
    the request's selector, sizes and flag, and the phase that was used.
    For each domain the applicability is the verdict of the gate, the
    reported hits are at most max(1, k), each from a loaded case tagged
    with that domain and with a rounded score between 0 and 1, and an
    inapplicable domain has no hits and empty recommendations.  Without the
    flag no extras are computed; with it the grouped extras are the
    grouping of the raw ones. *)
Theorem run_cbr_respuesta (w : mundo) (p : params) (avisos : list string)
    (w' : mundo) (out : salida) :
  run_cbr trig_mes w p false = (avisos, w', Ok (Some out)) ->
  let mds := p_meses_despues_siembra p in
  fst <$> resultados_A out = dominios_de p /\
  (p_tipo p = auto ->
     fst <$> resultados_A out = [almacigos; fertilizacion_sin_analisis; broca]) /\
  (p_tipo p <> auto -> fst <$> resultados_A out = [p_tipo p]) /\
  s_consulta out =
    {| q_tipo := p_tipo p; q_k := p_k p; q_kB := p_kB p;
       q_usar_extras_b := p_usar_extras_b p; q_fase := fase_de p |} /\
  (forall dom r, (dom, r) ∈ resultados_A out ->
     m_aplica (r_aplicabilidad r) = fst (dominio_aplica dom (fase_de p) mds) /\
     m_razon_no_aplica (r_aplicabilidad r)
       = snd (dominio_aplica dom (fase_de p) mds) /\
     (length (r_hits r) <= Z.to_nat (Z.max 1 (p_k p)))%nat /\
     (forall h, h ∈ r_hits r ->
        h_tipo h = Some dom /\ (0 <= h_similitud h <= 1)%Q /\
        exists c, c ∈ casos_de w (p_data p) /\ h_id h = id c) /\
     (m_aplica (r_aplicabilidad r) = false ->
        r_hits r = [] /\
        r_recomendaciones r =
          {| tecnicas := []; tradicionales := []; por_categoria := [] |})) /\
  (p_usar_extras_b p = false ->
     extras_B_raw out = [] /\ extras_B_agrupados out = []) /\
  (p_usar_extras_b p = true ->
     extras_B_agrupados out = agrupar_extras_B (extras_B_raw out)).
Proof.
  intros Hrun mds.
  destruct (load_cases_desenlace w (p_data p))
    as [[Hleg Hl] | (antes & pth & despues & Hd & Hp & Hl)];
    [|unfold run_cbr in Hrun; rewrite Hl in Hrun; discriminate].
  destruct (run_cbr_cargados trig_mes w p false _ _ Hl) as [H0 H1].
  destruct (casos_de w (p_data p)) as [|c0 cs] eqn:Ec;
    [rewrite H0 in Hrun by reflexivity; discriminate|].
  rewrite <- Ec in *. clear H0.
  destruct H1 as (a' & w1 & out' & Hpipe & Hr); [rewrite Ec; discriminate|].
  rewrite Hr in Hrun. injection Hrun as _ _ ->.
  assert (Hres : resultados_A out =
            fusionar mds ((fun dom => (dom, recuperado trig_mes
                             (casos_de w (p_data p)) p dom)) <$> dominios_de p)).
  { destruct (pipeline_ok trig_mes w p (casos_de w (p_data p)))
      as (? & ? & o & Hp' & _ & Hres & _).
    rewrite Hpipe in Hp'. injection Hp' as _ _ <-. exact Hres. }
  assert (Hkeys : fst <$> resultados_A out = dominios_de p)
    by (rewrite Hres; apply fusionar_claves).
  unfold pipeline in Hpipe. rewrite recuperar_ok in Hpipe.
  destruct (retener _ _ _ _) as [[av wr] saved] in Hpipe.
  injection Hpipe as _ _ <-. simpl in *.
  split; [exact Hkeys|]. split; [|split; [|split; [|split; [|split]]]].
  - intros Ht. rewrite Hkeys. unfold dominios_de. now rewrite Ht.
  - intros Ht. rewrite Hkeys. unfold dominios_de.
    apply String.eqb_neq in Ht. now rewrite Ht.
  - reflexivity.
  - intros dom r Hin. rewrite Hres in Hin.
    apply fusionar_elem in Hin as [_ ->].
    destruct (recuperado_props (casos_de w (p_data p)) p dom)
      as (Ha & Hrz & Hlen & _ & Hno & Hhits).
    simpl. split; [exact Ha|]. split; [exact Hrz|].
    split; [now rewrite length_fmap|]. split.
    + intros h Hh. apply list_elem_of_fmap in Hh as (sc & -> & Hsc).
      destruct (Hhits sc Hsc) as (Ht & Hc & Hrange). simpl.
      split; [exact Ht|]. split; [now apply round3_props|]. eauto.
    + intros Hf. rewrite Hf. simpl. rewrite Hno by congruence. done.
  - intros ->. done.
  - intros ->. done.
Qed.

End Forma.

(** X19 on the sample request, with the selector auto. *)
Lemma run_cbr_respuesta_witness :
  exists avisos w' out,
    run_cbr trig_ejemplo mundo_ejemplo params_ejemplo false
      = (avisos, w', Ok (Some out)) /\
    fst <$> resultados_A out = [almacigos; fertilizacion_sin_analisis; broca].
Proof.
  destruct (run_cbr trig_ejemplo mundo_ejemplo params_ejemplo false)
    as [[avisos w'] [[out|]|e]] eqn:E; try (vm_compute in E; discriminate).
  exists avisos, w', out. split; [reflexivity|].
  destruct (run_cbr_respuesta trig_ejemplo mundo_ejemplo params_ejemplo
              avisos w' out E) as (_ & H & _).
  apply H. reflexivity.
Defined.

(** ** Phase and gate *)

Lemma inferir_fase_en_FASES (altitud : option Q) (mes : option string)
    (mds : option Q) :
  inferir_fase altitud mes mds ∈ FASES.
Proof.
  unfold inferir_fase, FASES.
  destruct mds as [m|]; repeat case_match; set_solver.
Qed.

Lemma aplica_almacigos (fase : string) (mds : option Q) :
  fst (dominio_aplica almacigos fase mds) = true <-> fase = vivero_establecimiento.
Proof.
  unfold dominio_aplica. cbn [String.eqb almacigos fertilizacion_sin_analisis
    Ascii.eqb Bool.eqb andb fst].
  change (from_option aplica_en ∅ (APLICA_DOMINIO !! almacigos))
    with ({[ vivero_establecimiento ]} : gset string).
  simpl. rewrite bool_decide_eq_true. set_solver.
Qed.

Lemma aplica_broca (fase : string) (mds : option Q) :
  fst (dominio_aplica broca fase mds) = true <-> fase = cosecha_poscosecha.
Proof.
  unfold dominio_aplica. cbn [String.eqb broca fertilizacion_sin_analisis
    Ascii.eqb Bool.eqb andb fst].
  change (from_option aplica_en ∅ (APLICA_DOMINIO !! broca))
    with ({[ cosecha_poscosecha ]} : gset string).
  simpl. rewrite bool_decide_eq_true. set_solver.
Qed.

Lemma aplica_fertilizacion (fase : string) (mds : option Q) :
  fst (dominio_aplica fertilizacion_sin_analisis fase mds) = true <->
  mds_valido mds = true \/
  fase = vivero_establecimiento \/ fase = floracion_llenado.
Proof.
  unfold dominio_aplica.
  change (String.eqb fertilizacion_sin_analisis fertilizacion_sin_analisis)
    with true.
  change (from_option aplica_en ∅ (APLICA_DOMINIO !! fertilizacion_sin_analisis))
    with ({[ vivero_establecimiento; floracion_llenado ]} : gset string).
  destruct (mds_valido mds); simpl.
  - split; [now left | reflexivity].
  - rewrite bool_decide_eq_true. set_solver.
Qed.

Lemma aplica_desconocido (dominio fase : string) (mds : option Q) :
  dominio <> almacigos -> dominio <> fertilizacion_sin_analisis ->
  dominio <> broca ->
  dominio_aplica dominio fase mds = (false, Some razon_por_defecto).
Proof.
  intros H1 H2 H3. unfold dominio_aplica, APLICA_DOMINIO.
  rewrite !lookup_insert_ne by congruence. rewrite lookup_empty. simpl.
  apply String.eqb_neq in H2. rewrite H2. simpl.
  rewrite bool_decide_eq_false_2 by set_solver. reflexivity.
Qed.

(** X20. Coherence of the inferred phase with the gate.  The inferred
    phase is always one of the three known phases, and for it at least one
    of the three domains applies, nursery and berry borer never both, and
    nursery only together with fertilization.  When the phase is inferred
    from the months since planting m, nursery applies exactly for
    m <= 0.5, fertilization exactly for m <= 24 and berry borer exactly
    for m > 24, so the special treatment of fertilization with
    1 <= m <= 24 never changes a verdict there: it only matters for a
    declared phase.  With a declared phase outside the three known ones,
    nothing applies but fertilization with 1 <= m <= 24. *)
Theorem fase_dominio_coherencia (altitud : option Q) (mes : option string)
    (mds : option Q) :
  let fase := inferir_fase altitud mes mds in
  let aplica dom := fst (dominio_aplica dom fase mds) in
  fase ∈ FASES /\
  (aplica almacigos = true \/ aplica fertilizacion_sin_analisis = true \/
   aplica broca = true) /\
  ~ (aplica almacigos = true /\ aplica broca = true) /\
  (aplica almacigos = true -> aplica fertilizacion_sin_analisis = true) /\
  (forall m, mds = Some m ->
     (aplica almacigos = true <-> (m <= 0.5)%Q) /\
     (aplica fertilizacion_sin_analisis = true <-> (m <= 24)%Q) /\
     (aplica broca = true <-> (24 < m)%Q) /\
     (forall dom, dominio_aplica dom fase mds = dominio_aplica dom fase None)) /\
  (forall declarada dom,
     declarada ∉ FASES ->
     (fst (dominio_aplica dom declarada mds) = true <->
      dom = fertilizacion_sin_analisis /\ mds_valido mds = true)).
Proof.
  intros fase aplica. unfold aplica.
  pose proof (inferir_fase_en_FASES altitud mes mds) as Hf. fold fase in Hf.
  split; [exact Hf|].
  rewrite !aplica_almacigos, !aplica_broca, !aplica_fertilizacion.
  unfold FASES in Hf.
  split; [set_solver|]. split; [|split; [|split]].
  - intros [H1 H2]. rewrite H1 in H2. discriminate.
  - tauto.
  - intros m ->.
    rewrite aplica_almacigos, aplica_broca, aplica_fertilizacion.
    unfold fase. cbn [inferir_fase mds_valido].
    assert (Hdom : forall f dom,
              mds_valido (Some m) = true ->
              (f = vivero_establecimiento \/ f = floracion_llenado) ->
              dominio_aplica dom f (Some m) = dominio_aplica dom f None).
    { intros f dom Hv Hfase. unfold dominio_aplica.
      rewrite Hv. cbn [mds_valido]. rewrite andb_false_r, andb_true_r.
      destruct (String.eqb_spec dom fertilizacion_sin_analisis) as [->|];
        [|reflexivity].
      change (from_option aplica_en ∅ (APLICA_DOMINIO !! fertilizacion_sin_analisis))
        with ({[ vivero_establecimiento; floracion_llenado ]} : gset string).
      simpl. rewrite bool_decide_eq_true_2 by set_solver. reflexivity. }
    assert (Hdom' : forall f dom,
              mds_valido (Some m) = false ->
              dominio_aplica dom f (Some m) = dominio_aplica dom f None).
    { intros f dom Hv. unfold dominio_aplica. rewrite Hv. cbn [mds_valido].
      now rewrite !andb_false_r. }
    destruct (Qle_bool m 0.5) eqn:E1; [|destruct (Qle_bool m 24) eqn:E2];
      q_bool.
    + split; [split; [intros _; lra | reflexivity]|].
      split; [split; [intros _; lra | intros _; right; left; reflexivity]|].
      split; [split; [discriminate | intros; lra]|].
      intros dom.
      destruct (mds_valido (Some m)) eqn:Hv;
        [apply Hdom; [reflexivity | now left] | apply Hdom'; reflexivity].
    + split; [split; [discriminate | intros; lra]|].
      split; [split; [intros _; lra | intros _; right; right; reflexivity]|].
      split; [split; [discriminate | intros; lra]|].
      intros dom.
      destruct (mds_valido (Some m)) eqn:Hv;
        [apply Hdom; [reflexivity | now right] | apply Hdom'; reflexivity].
    + assert (Hv : mds_valido (Some m) = false).
      { simpl. apply andb_false_iff. right. apply Qle_bool_false. lra. }
      split; [split; [discriminate | intros; lra]|].
      split; [split; [|intros; lra]|].
      { intros [H | [? | ?]]; [|discriminate..].
        rewrite andb_false_r in H. discriminate. }
      split; [split; [intros _; lra | reflexivity]|].
      intros dom. apply Hdom'. exact Hv.
  - intros declarada dom Hd.
    destruct (String.eqb_spec dom almacigos) as [->|H1].
    { rewrite aplica_almacigos. split; [|intros [[=] _]].
      intros ->. exfalso. apply Hd. unfold FASES. set_solver. }
    destruct (String.eqb_spec dom broca) as [->|H3].
    { rewrite aplica_broca. split; [|intros [[=] _]].
      intros ->. exfalso. apply Hd. unfold FASES. set_solver. }
    destruct (String.eqb_spec dom fertilizacion_sin_analisis) as [->|H2].
    { rewrite aplica_fertilizacion. split; [|tauto].
      intros [H | [-> | ->]]; [tauto|..]; exfalso; apply Hd; unfold FASES;
        set_solver. }
    rewrite aplica_desconocido by assumption. simpl.
    split; [discriminate | tauto].
Qed.

(** X20 on an inferred phase with 10 months since planting. *)
Lemma fase_dominio_coherencia_witness :
  fst (dominio_aplica fertilizacion_sin_analisis
         (inferir_fase (Some 1678%Q) (Some "noviembre") (Some 10%Q))
         (Some 10%Q)) = true.
Proof.
  destruct (fase_dominio_coherencia (Some 1678%Q) (Some "noviembre") (Some 10%Q))
    as (_ & _ & _ & _ & H & _).
  destruct (H 10%Q eq_refl) as (_ & [_ H2] & _).
  apply H2. lra.
Defined.

(** ** HTTP handler *)

Section Manejador.

Variable trig_mes : nat -> Q * Q.

(** X21. The HTTP handler.  It answers with the response of the silent
    run exactly when that run returns one, and that is the case exactly
    when every source of the request can be read and together they hold
    at least one case.  Every failure is reported with status 500: the
    400 that the handler raises for an empty case base is raised inside
    its own [try] and replaced by the 500 of the [except] clause, so no
    request is ever answered with 400.  The warnings printed and the
    stores afterwards are those of the silent run. *)
Theorem recomendar_cbr_estados (w : mundo) (body : params) :
  (forall avisos w' status,
     recomendar_cbr trig_mes w body = (avisos, w', inr (HTTPException status)) ->
     status = 500%nat) /\
  (forall avisos w' e,
     recomendar_cbr trig_mes w body <> (avisos, w', inr (DeCBR e))) /\
  (forall avisos w' out,
     recomendar_cbr trig_mes w body = (avisos, w', inl out) <->
     run_cbr trig_mes w body false = (avisos, w', Ok (Some out))) /\
  ((exists avisos w' out,
      recomendar_cbr trig_mes w body = (avisos, w', inl out)) <->
   Forall (fun pth => archivos w !! pth <> Some Ilegible) (p_data body) /\
   casos_de w (p_data body) <> []) /\
  (Forall (fun pth => archivos w !! pth <> Some Ilegible) (p_data body) ->
   casos_de w (p_data body) = [] ->
   cuerpo_try trig_mes w body =
     ((avisos_de w (p_data body) ++ [aviso_sin_casos])%list, w,
      inr (HTTPException 400)) /\
   recomendar_cbr trig_mes w body =
     ((avisos_de w (p_data body) ++ [aviso_sin_casos])%list, w,
      inr (HTTPException 500))) /\
  fst (recomendar_cbr trig_mes w body) = fst (run_cbr trig_mes w body false).
Proof.
  unfold recomendar_cbr, cuerpo_try.
  destruct (run_cbr trig_mes w body false) as [[av w1] r] eqn:Hrun.
  split; [|split; [|split; [|split; [|split]]]].
  - intros avisos w' status. destruct r as [[out|]|e]; intros [=]; congruence.
  - intros avisos w' e. destruct r as [[out|]|e']; congruence.
  - intros avisos w' out. destruct r as [[out'|]|e]; split; intros [=];
      congruence.
  - split.
    + intros (avisos & w' & out & H).
      destruct r as [[out'|]|e]; try discriminate.
      destruct (load_cases_desenlace w (p_data body))
        as [[Hleg Hl] | (antes & pth & despues & Hd & Hp & Hl)];
        [|unfold run_cbr in Hrun; rewrite Hl in Hrun; discriminate].
      split; [assumption|]. intros Hc.
      destruct (run_cbr_cargados trig_mes w body false _ _ Hl) as [H0 _].
      rewrite H0 in Hrun by assumption. discriminate.
    + intros [Hleg Hc].
      pose proof (load_cases_legibles w (p_data body) Hleg) as Hl.
      destruct (run_cbr_cargados trig_mes w body false _ _ Hl) as [_ H1].
      destruct (H1 Hc) as (a' & w2 & out & _ & Hr).
      rewrite Hr in Hrun. injection Hrun as <- <- <-. eauto.
  - intros Hleg Hc.
    pose proof (load_cases_legibles w (p_data body) Hleg) as Hl.
    destruct (run_cbr_cargados trig_mes w body false _ _ Hl) as [H0 _].
    rewrite H0 in Hrun by assumption. injection Hrun as <- <- <-. done.
  - destruct r as [[out|]|e]; reflexivity.
Qed.

End Manejador.

(** X21 on a request against no store at all. *)
Lemma recomendar_cbr_estados_witness :
  let w := {| archivos := ∅; protegidos := ∅ |} in
  exists avisos,
    cuerpo_try trig_ejemplo w params_ejemplo = (avisos, w, inr (HTTPException 400)) /\
    recomendar_cbr trig_ejemplo w params_ejemplo
      = (avisos, w, inr (HTTPException 500)).
Proof.
  intros w.
  destruct (recomendar_cbr_estados trig_ejemplo w params_ejemplo)
    as (_ & _ & _ & _ & H & _).
  eexists. apply H.
  - repeat constructor; vm_compute; discriminate.
  - reflexivity.
Defined.

(** ** MDS marker, further *)

Lemma valor_decimal_desde_no_negativo (d : string) (acc : Z) :
  todos_digitos d = true -> (0 <= acc)%Z -> (0 <= valor_decimal_desde acc d)%Z.
Proof.
  revert acc. induction d as [|c d IH]; intros acc Hd Hacc; [assumption|].
  cbn [todos_digitos] in Hd. apply andb_true_iff in Hd as [Hc Hd].
  cbn [valor_decimal_desde]. apply IH; [assumption|].
  unfold py_isdigit in Hc. apply andb_true_iff in Hc as [Hlo _].
  apply Nat.leb_le in Hlo. lia.
Qed.

Lemma string_of_uint_digitos (u : Decimal.uint) :
  todos_digitos (NilEmpty.string_of_uint u) = true.
Proof. induction u; cbn; [reflexivity | assumption..]. Qed.

Lemma decimal_digitos (n : nat) :
  todos_digitos (decimal n) = true /\ decimal n <> "".
Proof.
  unfold decimal, NilZero.string_of_uint.
  destruct (Nat.to_uint n) eqn:E; split; try discriminate;
    try reflexivity; rewrite <- ?E; try apply string_of_uint_digitos;
    rewrite E; apply (string_of_uint_digitos (_ u)).
Qed.

Lemma decimal_valor (n : nat) : valor_decimal_desde 0 (decimal n) = Z.of_nat n.
Proof.
  rewrite <- (valor_decimal_ceros (4 - String.length (decimal n))).
  apply formato_04d_valor.
Qed.

Lemma contiene_sufijo (p pre s : string) :
  String.prefix p s = true -> contiene p (pre ++ s) = true.
Proof.
  intros H. induction pre as [|c pre IH].
  - rewrite string_app_nil. destruct s; cbn [contiene]; now rewrite H.
  - rewrite string_app_cons. cbn [contiene]. rewrite IH. apply orb_true_r.
Qed.

(** X22. Reading the MDS marker of a recommendation line.  A value is
    found only at a non-empty run of decimal digits followed, after
    optional blanks, by MDS; the value is the number the digits denote, so
    it is a non-negative integer.  A text that does not contain MDS has no
    marker.  The second pattern of the function, with the sign
    less-or-equal in front, never contributes: whatever it matches the
    first pattern matches already.  A number written in decimal followed
    by a blank and MDS reads back as that number. *)
Theorem extraer_mds_de_texto_marcador (txt : string) :
  (forall v, extraer_mds_de_texto txt = Some v ->
     exists pre d r,
       txt = pre ++ d ++ r /\ d <> "" /\ todos_digitos d = true /\
       String.prefix "MDS" (lstrip r) = true /\ v = valor_decimal d /\
       (0 <= v)%Q /\ exists z : Z, v = inject_Z z) /\
  (contiene "MDS" txt = false -> extraer_mds_de_texto txt = None) /\
  extraer_mds_de_texto txt = re_search marcador_en txt /\
  (forall n : nat,
     extraer_mds_de_texto (decimal n ++ " MDS" ++ txt)
       = Some (inject_Z (Z.of_nat n))).
Proof.
  assert (Hsome : forall v, extraer_mds_de_texto txt = Some v ->
     exists pre d r,
       txt = pre ++ d ++ r /\ d <> "" /\ todos_digitos d = true /\
       String.prefix "MDS" (lstrip r) = true /\ v = valor_decimal d /\
       (0 <= v)%Q /\ exists z : Z, v = inject_Z z).
  { intros v Hv. rewrite extraer_mds_de_texto_primera_forma in Hv.
    apply re_search_Some in Hv as (pre & s' & -> & Hs').
    apply marcador_en_Some in Hs' as (d & r & -> & Hne & Ht & Hp & ->).
    exists pre, d, r. split; [reflexivity|]. split; [assumption|].
    split; [assumption|]. split; [assumption|]. split; [reflexivity|].
    split; [|unfold valor_decimal; eauto].
    unfold valor_decimal. change 0%Q with (inject_Z 0). rewrite <- Zle_Qle.
    now apply valor_decimal_desde_no_negativo. }
  split; [exact Hsome|]. split; [|split].
  - intros Hc. destruct (extraer_mds_de_texto txt) as [v|] eqn:E; [|reflexivity].
    destruct (Hsome v eq_refl) as (pre & d & r & -> & _ & _ & Hp & _).
    destruct (lstrip_sufijo r) as [pre2 Hr].
    rewrite Hr, <- !string_app_assoc, contiene_sufijo in Hc by assumption.
    discriminate.
  - apply extraer_mds_de_texto_primera_forma.
  - intros n. rewrite extraer_mds_de_texto_primera_forma.
    destruct (decimal_digitos n) as [Hd Hne].
    change (" MDS" ++ txt) with (String " " ("MDS" ++ txt)).
    assert (Hm : marcador_en (decimal n ++ String " " ("MDS" ++ txt))
                 = Some (inject_Z (Z.of_nat n))).
    { unfold marcador_en. rewrite digitos_app by (assumption || reflexivity).
      apply String.eqb_neq in Hne. rewrite Hne.
      assert (Hl : lstrip (String " " ("MDS" ++ txt)) = "MDS" ++ txt)
        by reflexivity.
      assert (Hp : String.prefix "MDS" ("MDS" ++ txt) = true)
        by (destruct txt; reflexivity).
      rewrite Hl, Hp. unfold valor_decimal. now rewrite decimal_valor. }
    destruct (decimal n ++ String " " ("MDS" ++ txt)) eqn:E;
      cbn [re_search]; now rewrite Hm.
Qed.

(** X22 on a line without the marker. *)
Lemma extraer_mds_de_texto_marcador_witness :
  extraer_mds_de_texto "urea: 40 g/planta" = None.
Proof.
  destruct (extraer_mds_de_texto_marcador "urea: 40 g/planta") as (_ & H & _).
  apply H. vm_compute. reflexivity.
Defined.

(** ** Tier B, further *)

Lemma station_bonus_cotas (query_alt : option Q) (case_station : option string)
    (case_alt : option Q) :
  (0.55 <= station_bonus query_alt case_station case_alt <= 1)%Q.
Proof.
  unfold station_bonus. destruct query_alt; [|lra].
  destruct (match case_station ≫= _ with Some _ => _ | None => _ end); [|lra].
  repeat (destruct (Qle_bool _ _); [lra|]). lra.
Qed.

Lemma fold_paso_B_ext (q c q' c' : vector) (weights : list (rasgo * Q))
    (acc : Q * Q) :
  (forall k w, (k, w) ∈ weights ->
     v_num q' k = v_num q k /\ v_num c' k = v_num c k) ->
  fold_left (paso_B q' c') weights acc = fold_left (paso_B q c) weights acc.
Proof.
  revert acc. induction weights as [|[k w] weights IH]; intros acc H;
    [reflexivity|].
  cbn [fold_left].
  assert (Hk : paso_B q' c' acc (k, w) = paso_B q c acc (k, w)).
  { destruct (H k w) as [Hq Hc]; [set_solver|].
    unfold paso_B, ausente. destruct acc. now rewrite Hq, Hc. }
  rewrite Hk. apply IH. intros k' w' Hin. apply (H k' w'). set_solver.
Qed.

(** X23. Tier-B similarity.  The score is the renormalized aggregate of
    the nine climate and site features times the station bonus, without
    any clipping taking effect; it lies between 0.55 times the aggregate
    and the aggregate, hence in [0,1]; without a query altitude it is the
    aggregate itself.  The aggregate reads nothing but those nine
    features: the lunar phase, the months since planting and the nursery
    age of either side do not enter it. *)
Theorem similarity_weighted_B_bono (qvec cvec : vector) (query_alt : option Q) :
  let base := base_B WEIGHTS_B qvec cvec in
  let bonus :=
    station_bonus query_alt (v_estacion cvec) (v_num cvec altitud_msnm) in
  let s := similarity_weighted_B qvec cvec query_alt in
  (s == base * bonus)%Q /\
  (0.55 * base <= s)%Q /\ (s <= base)%Q /\ (0 <= s <= 1)%Q /\
  (query_alt = None -> (s == base)%Q) /\
  ((0 < denominador (como_pesos WEIGHTS_B) qvec cvec)%Q ->
     (base == numerador (como_pesos WEIGHTS_B) qvec cvec
              / denominador (como_pesos WEIGHTS_B) qvec cvec)%Q) /\
  (forall q' c',
     (forall k, k <> meses_despues_siembra -> k <> edad_vivero_meses ->
        v_num q' k = v_num qvec k /\ v_num c' k = v_num cvec k) ->
     base_B WEIGHTS_B q' c' = base).
Proof.
  intros base bonus s.
  destruct (similarity_weighted_B_renormalization qvec cvec query_alt)
    as (Hform & _ & Heq & Hrange).
  fold base bonus s in Heq, Hrange, Hform.
  pose proof (station_bonus_cotas query_alt (v_estacion cvec)
                (v_num cvec altitud_msnm)) as Hb. fold bonus in Hb.
  assert (Hbase : (0 <= base <= 1)%Q).
  { unfold base. rewrite base_B_como_pesos. apply puntaje_A_range. }
  split; [exact Heq|]. split; [rewrite Heq; nra|]. split; [rewrite Heq; nra|].
  split; [exact Hrange|]. split; [|split].
  - intros Hq. rewrite Heq. unfold bonus. rewrite Hq. simpl. lra.
  - exact Hform.
  - intros q' c' H. unfold base, base_B. f_equal. apply fold_paso_B_ext.
    intros k w Hin. apply H.
    + intros ->. unfold WEIGHTS_B in Hin. set_solver.
    + intros ->. unfold WEIGHTS_B in Hin. set_solver.
Qed.

(** X23 on the sample request against the historical case, without a query altitude. *)
Lemma similarity_weighted_B_bono_witness :
  (similarity_weighted_B (extract_input_vector trig_ejemplo params_ejemplo)
     (extract_case_vector_B trig_ejemplo caso_B1) None
   == base_B WEIGHTS_B (extract_input_vector trig_ejemplo params_ejemplo)
        (extract_case_vector_B trig_ejemplo caso_B1))%Q.
Proof.
  destruct (similarity_weighted_B_bono
              (extract_input_vector trig_ejemplo params_ejemplo)
              (extract_case_vector_B trig_ejemplo caso_B1) None)
    as (_ & _ & _ & _ & H & _).
  apply H. reflexivity.
Defined.

(** ** Retained case *)

Lemma fold_paso_A_ext (q c c' : vector) (weights : pesos) (acc : Q * Q) :
  (forall k w, (k, w) ∈ weights -> sim_clave_A q c' k = sim_clave_A q c k) ->
  fold_left (paso_A q c') weights acc = fold_left (paso_A q c) weights acc.
Proof.
  revert acc. induction weights as [|[k w] weights IH]; intros acc H;
    [reflexivity|].
  cbn [fold_left].
  assert (Hk : paso_A q c' acc (k, w) = paso_A q c acc (k, w)).
  { unfold paso_A. destruct acc. rewrite (H k w) by set_solver. reflexivity. }
  rewrite Hk. apply IH. intros k' w' Hin. apply (H k' w'). set_solver.
Qed.

Lemma WEIGHTS_mes_sin (domain : string) (weights : pesos) :
  WEIGHTS !! domain = Some weights -> exists w, (Num mes_sin, w) ∈ weights.
Proof.
  unfold WEIGHTS. rewrite !lookup_insert, lookup_empty.
  repeat case_decide; intros Hw; simplify_eq;
    eexists; repeat (first [left | right]).
Qed.

Lemma puntaje_A_uno (weights : pesos) (q : vector) (w a : Q) :
  Forall (fun kw : clave * Q => (0 < snd kw)%Q) weights ->
  (Num mes_sin, w) ∈ weights -> v_num q mes_sin = Some a ->
  puntaje_A weights q q = 1%Q.
Proof.
  intros Hpos Hin Ha.
  assert (Hs : sim_definida q q (Num mes_sin) = Some 1%Q).
  { unfold sim_definida. simpl. rewrite Ha.
    rewrite bool_decide_eq_false_2 by discriminate. apply sim_numeric_refl. }
  pose proof (denominador_ge weights q q _ w 1 Hpos Hin Hs) as Hge.
  assert (Hw : (0 < w)%Q).
  { rewrite Forall_forall in Hpos. exact (Hpos _ Hin). }
  unfold puntaje_A.
  destruct (fold_paso_A_acc weights q q 0 0) as [H1 H2].
  destruct (fold_left (paso_A q q) weights (0%Q, 0%Q)) as [n d].
  simpl in H1, H2. apply cociente_uno.
  - rewrite H2. lra.
  - rewrite H1, H2, numerador_refl. reflexivity.
Qed.

Section Retenido.

Variable trig_mes : nat -> Q * Q.

(** X24. A retained case read back as a case of tier A.  Its vector
    agrees with the vector of the request on every feature but the months
    since planting, which it carries only for the selectors auto and
    fertilization and lacks otherwise.  For a selector that names one of
    the three domains the retained case scores exactly 1 against the
    request that produced it, and it is tagged with that domain.  For the
    selector auto its tag is auto, which is none of the domains that a
    request with that selector retrieves. *)
Theorem caso_retenido_vector (p : params) (fase : string)
    (res : list (string * resultado_dom)) :
  let c := out_case_de p fase res in
  let qv := extract_input_vector trig_mes p in
  let cv := extract_case_vector_A trig_mes c in
  (forall k, k <> meses_despues_siembra -> v_num cv k = v_num qv k) /\
  v_luna_fase cv = v_luna_fase qv /\
  (p_tipo p = auto \/ p_tipo p = fertilizacion_sin_analisis ->
     v_num cv meses_despues_siembra = v_num qv meses_despues_siembra) /\
  (p_tipo p <> auto -> p_tipo p <> fertilizacion_sin_analisis ->
     v_num cv meses_despues_siembra = None) /\
  tipo c = Some (p_tipo p) /\
  fase_fenologica c = Some fase /\
  (forall weights, WEIGHTS !! p_tipo p = Some weights ->
     similarity_weighted_A qv cv (p_tipo p) = Ok 1%Q) /\
  (p_tipo p = auto -> forall d, d ∈ dominios_de p -> tipo c <> Some d).
Proof.
  intros c qv cv.
  assert (Hnum : forall k, k <> meses_despues_siembra -> v_num cv k = v_num qv k).
  { intros k Hk. unfold cv, qv, c, extract_case_vector_A, extract_input_vector,
      out_case_de, safe_float. cbn.
    destruct (mes_to_sin_cos trig_mes (p_mes p)) as [a b]. cbn.
    destruct k; try reflexivity; try congruence.
    destruct (bool_decide _); [|reflexivity].
    destruct (p_edad_vivero_meses p); reflexivity. }
  assert (Hluna : v_luna_fase cv = v_luna_fase qv).
  { unfold cv, qv, c, extract_case_vector_A, extract_input_vector, out_case_de.
    cbn. destruct (mes_to_sin_cos trig_mes (p_mes p)) as [a b]. reflexivity. }
  assert (Hmds : v_num cv meses_despues_siembra =
                 if bool_decide (p_tipo p ∈ [auto; fertilizacion_sin_analisis])
                 then v_num qv meses_despues_siembra else None).
  { unfold cv, qv, c, extract_case_vector_A, extract_input_vector, out_case_de,
      safe_float. cbn.
    destruct (mes_to_sin_cos trig_mes (p_mes p)) as [a b]. cbn.
    destruct (bool_decide _); reflexivity. }
  split; [exact Hnum|]. split; [exact Hluna|].
  split; [|split; [|split; [|split; [|split]]]].
  - intros H. rewrite Hmds, bool_decide_eq_true_2; [reflexivity|].
    destruct H as [-> | ->]; set_solver.
  - intros H1 H2. rewrite Hmds, bool_decide_eq_false_2; [reflexivity|].
    set_solver.
  - reflexivity.
  - reflexivity.
  - intros weights Hw. unfold similarity_weighted_A. rewrite Hw. f_equal.
    pose proof (WEIGHTS_positivos _ _ Hw) as Hpos.
    assert (Hsin : exists a, v_num qv mes_sin = Some a).
    { unfold qv, extract_input_vector.
      destruct (mes_to_sin_cos trig_mes (p_mes p)) as [a b]. cbn. eauto. }
    destruct Hsin as [a Ha].
    assert (Hext : puntaje_A weights qv cv = puntaje_A weights qv qv).
    { unfold puntaje_A. f_equal. apply fold_paso_A_ext.
      intros k w Hin. destruct k as [r|]; cbn [sim_clave_A];
        [|now rewrite Hluna].
      destruct (decide (r = meses_despues_siembra)) as [->|Hr];
        [|now rewrite Hnum].
      rewrite Hmds. case_bool_decide as Ht; [reflexivity|].
      exfalso. unfold WEIGHTS in Hw.
      rewrite !lookup_insert, lookup_empty in Hw.
      repeat case_decide; simplify_eq; set_solver. }
    rewrite Hext.
    destruct (WEIGHTS_mes_sin _ _ Hw) as [w Hin].
    exact (puntaje_A_uno weights qv w a Hpos Hin Ha).
  - intros Ht d Hd. unfold dominios_de in Hd. rewrite Ht in Hd.
    cbn in Hd. cbn. rewrite Ht. intros [= <-]. set_solver.
Qed.

End Retenido.

(** X24 on the sample request, with the selector auto. *)
Lemma caso_retenido_vector_witness :
  let p := params_ejemplo in
  p_tipo p = auto /\ tipo (out_case_de p (fase_de p) []) <> Some broca.
Proof.
  intros p. split; [reflexivity|].
  destruct (caso_retenido_vector trig_ejemplo p (fase_de p) [])
    as (_ & _ & _ & _ & _ & _ & _ & H).
  apply H; [reflexivity|]. vm_compute. set_solver.
Defined.

(** ** The further properties on the sample data *)

(** X1 on a temperature below the range. *)
Lemma norm01_escala_witness :
  exists vx, norm01 (Some 5%Q) temp_media = Some vx /\ vx = 0%Q.
Proof.
  destruct (norm01_escala temp_media 5 5) as (vx & vy & Hx & _ & _ & Hlo & _).
  exists vx. split; [exact Hx|]. apply Hlo. simpl. lra.
Defined.

(** X3 on a full moon written with a capital and a trailing blank. *)
Lemma sim_luna_simetrica_witness :
  sim_luna (Some "Llena ") (Some "Llena ") = Some 1%Q.
Proof.
  destruct (sim_luna_simetrica (Some "Llena ") (Some "Llena ")) as (_ & H & _).
  apply H. reflexivity.
Defined.

(** X4 on a case of the Tambo station. *)
Lemma station_bonus_escalones_witness :
  station_bonus (Some 1700%Q) (Some "Estacion_Tambo") (Some 1000%Q)
  = station_bonus (Some 1700%Q) None (Some 1735%Q).
Proof.
  destruct (station_bonus_escalones (Some 1700%Q) (Some 1000%Q)
              (Some "Estacion_Tambo")) as (_ & _ & H & _).
  apply (H "Estacion_Tambo" 1735%Q); reflexivity.
Defined.

(** X5 on a value with four decimals. *)
Lemma round3_cercano_witness : (0 <= round3 0.4567 <= 1)%Q.
Proof.
  destruct (round3_cercano 0.4567%Q) as (_ & _ & H). apply H. lra.
Defined.

(** X7 on the sample cases, for fertilization in the filling phase. *)
Lemma top_k_A_mejores_witness :
  exists weights klist,
    WEIGHTS !! fertilizacion_sin_analisis = Some weights /\
    top_k_A trig_ejemplo casos_ejemplo
      (extract_input_vector trig_ejemplo params_ejemplo)
      fertilizacion_sin_analisis 3 floracion_llenado (Some 10%Q)
      = Ok (klist, {| m_aplica := true; m_razon_no_aplica := None |}) /\
    StronglySorted no_menor klist.
Proof.
  destruct (top_k_A_mejores trig_ejemplo casos_ejemplo
              (extract_input_vector trig_ejemplo params_ejemplo)
              fertilizacion_sin_analisis 3 floracion_llenado (Some 10%Q)
              eq_refl)
    as (weights & klist & resto & Hw & Htop & _ & _ & Hs & _).
  exists weights, klist. split; [exact Hw|]. split; [exact Htop | exact Hs].
Defined.

(** X8 on the vector of the sample request. *)
Lemma similarity_weighted_A_identidad_witness :
  let qvec := extract_input_vector trig_ejemplo params_ejemplo in
  similarity_weighted_A qvec qvec broca = Ok 1%Q.
Proof.
  intros qvec.
  apply (similarity_weighted_A_identidad qvec broca
           (default [] (WEIGHTS !! broca))).
  - reflexivity.
  - vm_compute. reflexivity.
Defined.

(** X9 on the sample request against a case without any data. *)
Lemma similarity_weighted_A_mes_comparable_witness :
  (0 < denominador (default [] (WEIGHTS !! almacigos))
         (extract_input_vector trig_ejemplo params_ejemplo)
         (extract_case_vector_A trig_ejemplo caso_vacio))%Q.
Proof.
  assert (Hw : WEIGHTS !! almacigos = Some (default [] (WEIGHTS !! almacigos)))
    by reflexivity.
  destruct (similarity_weighted_A_mes_comparable trig_ejemplo params_ejemplo
              caso_vacio almacigos _ Hw) as (H & _).
  exact H.
Defined.

(** X10 on a line that names urea in capitals. *)
Lemma extraer_componentes_vocabulario_witness :
  "urea" ∈ extraer_componentes "Aplicar UREA 40 g/planta".
Proof.
  destruct (extraer_componentes_vocabulario "Aplicar UREA 40 g/planta")
    as (_ & _ & H & _).
  apply H. split; [set_solver | reflexivity].
Defined.

(** X11 on the two sample fertilization cases. *)
Lemma combinar_recs_genericas_primeras_witness :
  NoDup (tecnicas (combinar_recs_genericas [(0.9%Q, caso_A1); (0.8%Q, caso_A2)])).
Proof.
  destruct (combinar_recs_genericas_primeras [(0.9%Q, caso_A1); (0.8%Q, caso_A2)])
    as (_ & _ & H & _).
  exact H.
Defined.

(** X12 on one extra without a category. *)
Lemma agrupar_extras_B_grupos_witness :
  let e := {| e_texto := " podar "; e_categoria_b := ""; e_fuente := "";
              e_estacion := None; e_similitud := 1%Q; e_id_caso := None |} in
  en_grupo (agrupar_extras_B [e]) "general" "podar".
Proof.
  intros e. destruct (agrupar_extras_B_grupos [e]) as (_ & H).
  apply H. exists e. split; [set_solver|]. split; [reflexivity|].
  split; [reflexivity | discriminate].
Defined.

(** X13 on a tier-A case that carries a station name: it is a neighbour,
    and its technical lines come out as one extra under the key
    tecnicas. *)
Lemma extras_from_B_origen_witness :
  exists e,
    e ∈ fst (extras_from_B trig_ejemplo [caso_A4] params_ejemplo 1) /\
    e_categoria_b e = "tecnicas" /\
    e_texto e = "['Recolectar frutos maduros', 'Repasar el lote']" /\
    e_id_caso e = Some "BRO-0002".
Proof.
  destruct (extras_from_B_origen trig_ejemplo [caso_A4] params_ejemplo 1)
    as (_ & _ & _ & _ & _ & _ & _ & H & _).
  set (h := hd (0%Q, caso_vacio)
              (snd (extras_from_B trig_ejemplo [caso_A4] params_ejemplo 1))).
  assert (Hh : h ∈ snd (extras_from_B trig_ejemplo [caso_A4] params_ejemplo 1))
    by (vm_compute; apply list_elem_of_here).
  eexists. split; [apply (H h Hh); vm_compute; discriminate|].
  split; [reflexivity|]. split; vm_compute; reflexivity.
Defined.

(** X14 on the 42nd record. *)
Lemma formato_04d_ida_y_vuelta_witness :
  valor_decimal (formato_04d 42) = inject_Z 42.
Proof.
  destruct (formato_04d_ida_y_vuelta 42 42) as (H & _). exact H.
Defined.

(** X15 on the sample stores and a path that does not exist. *)
Lemma load_cases_politica_witness :
  load_cases mundo_ejemplo [ruta_A; ruta_B; ruta_C]
  = (avisos_de mundo_ejemplo [ruta_A; ruta_B; ruta_C],
     Ok (casos_de mundo_ejemplo [ruta_A; ruta_B; ruta_C])).
Proof.
  destruct (load_cases_politica mundo_ejemplo [ruta_A; ruta_B; ruta_C])
    as (H & _).
  apply H. repeat constructor; vm_compute; discriminate.
Defined.
